(** * Videomaker_python: the image grouper, the grid video maker and the renamer

    A shallow embedding of [program.py] and [rename.py].

    Reading of the data.  A Python [str] is a [string] whose characters are
    Unicode code points below 256; on that range [str.lower], the regular
    expression classes [.] and [\d] and [int] are the ones written below.
    [os.path] is the POSIX flavour ([posixpath]).  Python integers are [N] or
    [Z].  Calls that reach outside the interpreter (the file system, the
    external encoder, the clock, the console) are events of a program tree
    ([prog]); the answers to them are given by an environment. *)

From Stdlib Require Import Ascii String NArith ZArith Lia.
From stdpp Require Import base option list strings pretty gmap.

Local Open Scope N_scope.

(** ** Python string primitives *)

Module Str.

Definition code (c : ascii) : N := N_of_ascii c.

(** [str.lower] on one character: A-Z, and the upper-case letters of the
    Latin-1 block (U+00C0 .. U+00DE without the multiplication sign). *)
Definition lower_char (c : ascii) : ascii :=
  let n := code c in
  if ((65 <=? n) && (n <=? 90)) || ((192 <=? n) && (n <=? 222) && negb (n =? 215))
  then ascii_of_N (n + 32) else c.

Fixpoint lower (s : string) : string :=
  match s with
  | "" => ""
  | String c s' => String (lower_char c) (lower s')
  end.

(** [s.startswith(p)] *)
Fixpoint startswith (s p : string) {struct p} : bool :=
  match p, s with
  | "", _ => true
  | String a p', String c s' => if Ascii.eqb a c then startswith s' p' else false
  | String _ _, "" => false
  end.

(** [s.endswith(p)]: the last [len(p)] characters of [s] are [p]. *)
Fixpoint drop (n : nat) (s : string) : string :=
  match n, s with
  | O, _ => s
  | S n', String _ s' => drop n' s'
  | S _, "" => ""
  end.

Definition endswith (s p : string) : bool :=
  (String.length p <=? String.length s)%nat
  && String.eqb (drop (String.length s - String.length p) s) p.

(** [s.endswith(t)] for a tuple [t] of suffixes. *)
Definition endswith_any (s : string) (t : list string) : bool :=
  existsb (endswith s) t.

(** [s.split(sep)] for a one-character separator: never the empty list. *)
Fixpoint split (sep : ascii) (s : string) : list string :=
  match s with
  | "" => [""]
  | String c s' =>
      if Ascii.eqb c sep then "" :: split sep s'
      else match split sep s' with
           | w :: ws => String c w :: ws
           | [] => [String c ""]
           end
  end.

Fixpoint all (p : ascii → bool) (s : string) : bool :=
  match s with
  | "" => true
  | String c s' => p c && all p s'
  end.

Fixpoint zeros (n : nat) : string :=
  match n with
  | O => ""
  | S n' => String "0" (zeros n')
  end.

End Str.

(** ** [os.path] (posixpath) *)

(** [os.path.basename(p)]: what follows the last slash. *)
Fixpoint basename (p : string) : string :=
  match p with
  | "" => ""
  | String c p' =>
      if Str.all (λ a, negb (Ascii.eqb a "/")) p' then
        (if Ascii.eqb c "/" then p' else p)
      else basename p'
  end.

(** [os.path.join(a, b)] *)
Definition join (a b : string) : string :=
  if Str.startswith b "/" then b
  else if String.eqb a "" || Str.endswith a "/" then a +:+ b
  else a +:+ "/" +:+ b.

(** ** The regular expression of the renamer

    A backtracking matcher in continuation-passing style, as Python's [re]
    runs a pattern: a greedy quantifier first takes as many characters as it
    can and gives them back one at a time while the rest of the pattern
    fails.  The continuation receives what the node consumed and what is
    left. *)

Module Re.
Section Nodes.
Context {R : Type}.

(** [p*], greedy *)
Fixpoint star (p : ascii → bool) (s : string)
    (k : string → string → option R) : option R :=
  match s with
  | String c s' =>
      if p c then
        match star p s' (λ m r, k (String c m) r) with
        | Some x => Some x
        | None => k "" s
        end
      else k "" s
  | "" => k "" s
  end.

(** [p+], greedy *)
Definition plus (p : ascii → bool) (s : string)
    (k : string → string → option R) : option R :=
  match s with
  | String c s' => if p c then star p s' (λ m r, k (String c m) r) else None
  | "" => None
  end.

(** a literal *)
Fixpoint lit (l s : string) (k : string → option R) {struct l} : option R :=
  match l, s with
  | "", _ => k s
  | String a l', String c s' => if Ascii.eqb a c then lit l' s' k else None
  | String _ _, "" => None
  end.
End Nodes.

(** [.] without DOTALL: every character but the line feed *)
Definition dot (c : ascii) : bool := negb (Ascii.eqb c "010").

(** [\d] *)
Definition digit (c : ascii) : bool :=
  (48 <=? Str.code c) && (Str.code c <=? 57).

(** [(.*_fn)(\d+)(\..+)] anchored at the start of [s]; the three groups *)
Definition match_at (s : string) : option (string * string * string) :=
  star dot s (λ g1 r1,
  lit "_fn" r1 (λ r2,
  plus digit r2 (λ g2 r3,
  lit "." r3 (λ r4,
  plus dot r4 (λ g3 _,
  Some (g1 +:+ "_fn", g2, "." +:+ g3)))))).

(** [re.search(r'(.*_fn)(\d+)(\..+)', s)]: the first start that matches *)
Fixpoint search (s : string) : option (string * string * string) :=
  match match_at s with
  | Some m => Some m
  | None => match s with
            | String _ s' => search s'
            | "" => None
            end
  end.
End Re.

(** ** Exceptions

    The exceptions the calls of the two scripts can raise; all of them are
    subclasses of [Exception].  [FileNotFoundError] is kept apart from the
    other [OSError]s because the renamer has a clause for it. *)

Inductive exception :=
| FileNotFoundError (msg : string)
| OSError (msg : string)
| ValueError (msg : string)
| UnicodeDecodeError (msg : string)
| IndexError (msg : string)
| CalledProcessError (returncode : Z) (stderr : list Byte.byte) (msg : string).

(** [str(e)] *)
Definition exception_str (e : exception) : string :=
  match e with
  | FileNotFoundError m | OSError m | ValueError m | UnicodeDecodeError m
  | IndexError m | CalledProcessError _ _ m => m
  end.

(** ** [int] and the format [:06] *)

Definition digit_value (c : ascii) : N := Str.code c - 48.

Fixpoint int_digits (acc : N) (s : string) : N :=
  match s with
  | "" => acc
  | String c s' => int_digits (10 * acc + digit_value c) s'
  end.

(** [int(s)] on a run of digits, the only strings the renamer gives it;
    anything else is a [ValueError] here.  (The interpreter refuses runs of
    more than 4300 digits; no file name is that long.) *)
Definition int (s : string) : exception + N :=
  if Str.all Re.digit s && negb (String.eqb s "")
  then inr (int_digits 0 s)
  else inl (ValueError "invalid literal for int()").

(** [f"{n:06}"]: decimal, filled with zeros on the left up to width 6 *)
Definition format_06 (n : N) : string :=
  let s := pretty n in Str.zeros (6 - String.length s) +:+ s.

(** ** The renamer's file name transformation ([rename.py], loop body) *)

Definition image_extensions : list string :=
  [".png"; ".jpg"; ".jpeg"; ".gif"; ".bmp"; ".tiff"; ".webp"].

(** The name a file is renamed to: [inr None] when the file is left alone. *)
Definition new_file_name (file_name : string) : exception + option string :=
  if Str.endswith_any (Str.lower file_name) image_extensions then
    match Re.search file_name with
    | Some (prefix, number, suffix) =>
        match int number with
        | inr n =>
            let padded_number := format_06 n in
            inr (Some (prefix +:+ padded_number +:+ suffix))
        | inl e => inl e
        end
    | None => inr None
    end
  else inr None.



(** ** [bytes.decode()]

    The default codec is strict UTF-8.  The text that well-formed bytes decode
    to is kept as those bytes; ill-formed input raises. *)

Fixpoint utf8_valid (l : list N) : bool :=
  let cont b := (128 <=? b) && (b <=? 191) in
  match l with
  | [] => true
  | b0 :: l1 =>
      if b0 <? 128 then utf8_valid l1
      else match l1 with
      | [] => false
      | b1 :: l2 =>
          if (194 <=? b0) && (b0 <=? 223) then cont b1 && utf8_valid l2
          else match l2 with
          | [] => false
          | b2 :: l3 =>
              if (224 <=? b0) && (b0 <=? 239) then
                (if b0 =? 224 then (160 <=? b1) && (b1 <=? 191)
                 else if b0 =? 237 then (128 <=? b1) && (b1 <=? 159)
                 else cont b1)
                && cont b2 && utf8_valid l3
              else match l3 with
              | [] => false
              | b3 :: l4 =>
                  if (240 <=? b0) && (b0 <=? 244) then
                    (if b0 =? 240 then (144 <=? b1) && (b1 <=? 191)
                     else if b0 =? 244 then (128 <=? b1) && (b1 <=? 143)
                     else cont b1)
                    && cont b2 && cont b3 && utf8_valid l4
                  else false
              end
          end
      end
  end.

Definition bytes_decode (b : list Byte.byte) : exception + list Byte.byte :=
  if utf8_valid (Byte.to_N <$> b) then inr b
  else inl (UnicodeDecodeError "'utf-8' codec can't decode bytes").

(** What [print] is given: a string, or a string followed by decoded text. *)
Inductive text :=
| Text (s : string)
| TextDecoded (s : string) (utf8 : list Byte.byte).

(** ** Programs with effects *)

(** [subprocess.CompletedProcess] *)
Record completed := Completed {
  returncode : Z;
  stdout : list Byte.byte;
  stderr : list Byte.byte
}.

(** The calls that leave the interpreter, each with the type of its answer.
    [SubprocessRun cmd] is [subprocess.run(cmd, check=True,
    capture_output=True)]: it answers with the completed process when the
    exit status is zero, with [CalledProcessError] when it is not, and with
    another exception when the process could not be started.
    [OpenWrite path lines] is [open(path, "w")] with the writes and the close. *)
Inductive event : Type → Type :=
| OsListdir (path : string) : event (exception + list string)
| OsRename (src dst : string) : event (exception + unit)
| OsMakedirs (path : string) : event (exception + unit)
| OpenWrite (path : string) (lines : list string) : event (exception + unit)
| SubprocessRun (cmd : list string) : event (exception + completed)
| TimeStrftime (format : string) : event string
| PyPrint (t : text) : event unit.

Inductive prog (A : Type) : Type :=
| Ret (a : A)
| Raise (e : exception)
| Vis {X : Type} (ev : event X) (k : X → prog A).
Arguments Ret {A} a.
Arguments Raise {A} e.
Arguments Vis {A X} ev k.

Fixpoint bind {A B} (m : prog A) (f : A → prog B) : prog B :=
  match m with
  | Ret a => f a
  | Raise e => Raise e
  | Vis ev k => Vis ev (λ x, bind (k x) f)
  end.

#[global] Instance prog_ret : MRet prog := @Ret.
#[global] Instance prog_bind : MBind prog := λ A B f m, bind m f.

(** A call whose answer is a value or an exception raised at the call *)
Definition call {X} (ev : event (exception + X)) : prog X :=
  Vis ev (λ r, match r with inl e => Raise e | inr x => Ret x end).

Definition lift {X} (r : exception + X) : prog X :=
  match r with inl e => Raise e | inr x => Ret x end.

Definition print (s : string) : prog unit := Vis (PyPrint (Text s)) Ret.

(** [try: m  except ...:]  the handler [h] answers [None] for an exception no
    clause catches *)
Fixpoint try_except {A} (m : prog A) (h : exception → option (prog A)) : prog A :=
  match m with
  | Ret a => Ret a
  | Raise e => match h e with Some p => p | None => Raise e end
  | Vis ev k => Vis ev (λ x, try_except (k x) h)
  end.

(** [for x in l: body] *)
Fixpoint for_each {A} (l : list A) (body : A → prog unit) : prog unit :=
  match l with
  | [] => Ret tt
  | x :: l' => body x ;; for_each l' body
  end.

(** Running a program: the environment answers the calls, [print] appends to
    the console. *)
Record state (W : Type) := State { world : W; console : list text }.
Arguments State {W} world console.
Arguments world {W} s.
Arguments console {W} s.

Section Run.
Context {W : Type} (respond : ∀ X, event X → W → X * W).

Definition handle {X} (ev : event X) (st : state W) : X * state W :=
  match ev in event X return X * state W with
  | PyPrint t => (tt, State (world st) (console st ++ [t]))
  | ev' => let '(x, w) := respond _ ev' (world st) in (x, State w (console st))
  end.

Fixpoint run {A} (m : prog A) (st : state W) : (exception + A) * state W :=
  match m with
  | Ret a => (inr a, st)
  | Raise e => (inl e, st)
  | Vis ev k => let '(x, st') := handle ev st in run (k x) st'
  end.

(** *** [ThreadPoolExecutor.map]

    Every task is submitted at once; the workers advance them in an order
    the program does not control.  A schedule names, step by step, the task
    that performs its next call.  [list(...)] then reads the results in the
    order of submission, waiting for each task in turn.  The first exception
    it meets is raised: the tasks behind it that have not started may be
    cancelled (those for which [cancel] holds), the others are waited for
    when the [with] block is left. *)
Definition pool_step {A} (i : nat) (tasks : list (prog A)) (st : state W)
    : list (prog A) * state W :=
  match tasks !! i with
  | Some (Vis ev k) => let '(x, st') := handle ev st in (<[i := k x]> tasks, st')
  | _ => (tasks, st)
  end.

Fixpoint pool_run {A} (schedule : list nat) (tasks : list (prog A)) (st : state W)
    : list (prog A) * state W :=
  match schedule with
  | [] => (tasks, st)
  | i :: schedule' => let '(tasks', st') := pool_step i tasks st in
                      pool_run schedule' tasks' st'
  end.

Fixpoint pool_drain {A} (started cancel : nat → bool) (i : nat)
    (tasks : list (prog A)) (st : state W) : state W :=
  match tasks with
  | [] => st
  | t :: tasks' =>
      pool_drain started cancel (S i) tasks'
        (if started i || negb (cancel i) then (run t st).2 else st)
  end.

Fixpoint pool_results {A} (started cancel : nat → bool) (i : nat)
    (tasks : list (prog A)) (st : state W) : (exception + list A) * state W :=
  match tasks with
  | [] => (inr [], st)
  | t :: tasks' =>
      let '(r, st') := run t st in
      match r with
      | inl e => (inl e, pool_drain started cancel (S i) tasks' st')
      | inr a =>
          let '(rs, st'') := pool_results started cancel (S i) tasks' st' in
          (match rs with inl e => inl e | inr l => inr (a :: l) end, st'')
      end
  end.

Definition executor_map {A B} (schedule : list nat) (cancel : nat → bool)
    (f : A → prog B) (l : list A) (st : state W) : (exception + list B) * state W :=
  let '(tasks, st') := pool_run schedule (f <$> l) st in
  pool_results (λ i, bool_decide (i ∈ schedule)) cancel 0 tasks st'.
End Run.

(** [enumerate(l)] *)
Fixpoint enumerate_from {A} (i : N) (l : list A) : list (N * A) :=
  match l with
  | [] => []
  | x :: l' => (i, x) :: enumerate_from (i + 1) l'
  end.
Definition enumerate {A} (l : list A) : list (N * A) := enumerate_from 0 l.

(** ** [rename.py] *)

(** The body of the loop, for one entry of the listing *)
Definition loop_body (folder_path file_name : string) : prog unit :=
  new ← lift (new_file_name file_name) ;
  match new with
  | Some new_file_name =>
      let old_path := join folder_path file_name in
      let new_path := join folder_path new_file_name in
      call (OsRename old_path new_path) ;;
      print ("Renamed: " +:+ file_name +:+ " -> " +:+ new_file_name)
  | None => Ret tt
  end.

Definition rename_files_in_folder (folder_path : string) : prog unit :=
  try_except
    (file_names ← call (OsListdir folder_path) ;
     for_each file_names (loop_body folder_path))
    (λ e, match e with
          | FileNotFoundError _ =>
              Some (print ("The folder '" +:+ folder_path +:+ "' does not exist."))
          | _ => Some (print ("An error occurred: " +:+ exception_str e))
          end).

(** ** [program.py] *)

(** A [dict] with string keys, in insertion order *)
Abbreviation dict V := (list (string * V)).

Fixpoint dict_get {V} (d : dict V) (key : string) : option V :=
  match d with
  | [] => None
  | (k, v) :: d' => if String.eqb k key then Some v else dict_get d' key
  end.

(** [d[key].append(x)] on a [defaultdict(list)] *)
Fixpoint dict_append {V} (d : dict (list V)) (key : string) (x : V) : dict (list V) :=
  match d with
  | [] => [(key, [x])]
  | (k, v) :: d' =>
      if String.eqb k key then (k, v ++ [x]) :: d'
      else (k, v) :: dict_append d' key x
  end.

(** [l[:limit]] *)
Definition slice_to {V} (l : list V) (limit : Z) : list V :=
  if (0 <=? limit)%Z then take (Z.to_nat limit) l
  else take (length l - Z.to_nat (- limit)) l.

(** The first loop of [group_images_by_developer] *)
Fixpoint group_loop (images : list string) (grouped_images : dict (list string))
    : prog (dict (list string)) :=
  match images with
  | [] => Ret grouped_images
  | img_path :: images' =>
      let filename := basename img_path in
      let parts := Str.split "_" filename in
      match parts with
      | part0 :: _ =>
          if Str.startswith part0 "Dev" then
            let dev_indicator := part0 in
            group_loop images' (dict_append grouped_images dev_indicator img_path)
          else
            print ("Skipping invalid file: " +:+ filename) ;;
            group_loop images' grouped_images
      | [] => Raise (IndexError "list index out of range")
      end
  end.

Definition group_images_by_developer (images : list string) (limit : Z)
    : prog (dict (list string)) :=
  grouped_images ← group_loop images [] ;
  Ret (fmap (M:=list) (λ entry : string * list string,
                          (entry.1, slice_to entry.2 limit)) grouped_images).

Definition manifest_path (temp_dir : string) (group_index : N) : string :=
  join temp_dir ("group_" +:+ pretty group_index +:+ ".txt").

Definition clip_path (temp_dir : string) (group_index : N) : string :=
  join temp_dir ("group_" +:+ pretty group_index +:+ ".mp4").

Definition create_ffmpeg_input_file (group : list string) (group_index : N)
    (temp_dir : string) : prog string :=
  let input_file_path := manifest_path temp_dir group_index in
  call (OpenWrite input_file_path
          ((λ img_path, "file '" +:+ img_path +:+ "'" +:+ String "010" "") <$> group)) ;;
  Ret input_file_path.

Definition create_video_from_group (group : list string) (group_index : N)
    (frame_rate : Z) (temp_dir ffmpeg_path : string) : prog string :=
  input_file ← create_ffmpeg_input_file group group_index temp_dir ;
  let intermediate_video := clip_path temp_dir group_index in
  let cmd := [ffmpeg_path; "-y"; "-f"; "concat"; "-safe"; "0"; "-i"; input_file;
              "-vf"; "scale=960:-1"; "-r"; pretty frame_rate; intermediate_video] in
  try_except
    (result ← call (SubprocessRun cmd) ;
     now ← Vis (TimeStrftime "%H:%M:%S") Ret ;
     print ("[" +:+ now +:+ "] Created video for group " +:+ pretty (group_index + 1)))
    (λ e, match e with
          | CalledProcessError _ err _ =>
              Some (print ("Error while creating video for group "
                             +:+ pretty (group_index + 1) +:+ ": " +:+ exception_str e) ;;
                    decoded ← lift (bytes_decode err) ;
                    Vis (PyPrint (TextDecoded "FFmpeg stderr: " decoded)) Ret)
          | _ => None
          end) ;;
  Ret intermediate_video.

(** Step 1 of [create_video_from_grouped_images]: the clips, made in parallel *)
Definition intermediate_videos {W} (respond : ∀ X, event X → W → X * W)
    (schedule : list nat) (cancel : nat → bool)
    (groups : list (list string)) (frame_rate : Z)
    (temp_dir ffmpeg_path : string) (st : state W)
    : (exception + list string) * state W :=
  executor_map respond schedule cancel
    (λ idx_group : N * list string,
       create_video_from_group idx_group.2 idx_group.1 frame_rate temp_dir ffmpeg_path)
    (enumerate groups) st.

(** Step 2: the command line of the grid composition *)
Definition input_cmds (intermediate_videos : list string) : list string :=
  foldl (λ acc l, acc ++ l) [] ((λ video, ["-i"; video]) <$> intermediate_videos).

Definition filter_complex : string :=
  "nullsrc=size=1920x1080 [base];"
  +:+ "[3:v] setpts=PTS-STARTPTS, scale=960x540 [upperleft];"
  +:+ "[0:v] setpts=PTS-STARTPTS, scale=960x540 [upperright];"
  +:+ "[1:v] setpts=PTS-STARTPTS, scale=960x540 [lowerleft];"
  +:+ "[2:v] setpts=PTS-STARTPTS, scale=960x540 [lowerright];"
  +:+ "[base][upperleft] overlay=shortest=1 [tmp1];"
  +:+ "[tmp1][upperright] overlay=W/2:0 [tmp2];"
  +:+ "[tmp2][lowerleft] overlay=0:H/2 [tmp3];"
  +:+ "[tmp3][lowerright] overlay=W/2:H/2".

Definition grid_cmd (ffmpeg_path : string) (intermediate_videos : list string)
    (output_path : string) : list string :=
  [ffmpeg_path; "-y"] ++ input_cmds intermediate_videos
  ++ ["-c:v"; "libx264"; "-preset"; "fast"; "-crf"; "23";
      "-filter_complex"; filter_complex; output_path].

(** ** A machine to run on

    A file system of regular files (path to lines) under a set of
    directories.  [os.listdir] reports the entries in an order of the
    machine's choosing; a path in [denied] cannot be renamed; the encoder
    answers by [encoder].  The machine knows regular files only: a folder
    lists the files in it and no sub-directory, a rename moves one file, and
    a file can be written at any path.  What the scripts ask of an
    environment of any kind, sub-directories included, is said further down
    by the list of their calls. *)

Record machine := Machine {
  listing_order : list string → list string;
  denied : gset string;
  encoder : list string → exception + completed;
  clock : string
}.

Record disk := Disk {
  dirs : gset string;
  files : gmap string (list string)
}.

(** The entry that the path [k] is in the folder [p], if it is one *)
Definition entry_of (p k : string) : option string :=
  let n := basename k in
  if decide (join p n = k) then Some n else None.

Definition entries (p : string) (w : disk) : list string :=
  omap (entry_of p) (elements (dom (files w))).

Definition respond_machine (m : machine) (X : Type) (ev : event X) (w : disk)
    : X * disk :=
  match ev in event X return X * disk with
  | OsListdir p =>
      if decide (p ∈ dirs w) then (inr (listing_order m (entries p w)), w)
      else (inl (FileNotFoundError "No such file or directory"), w)
  | OsRename src dst =>
      if decide (src ∈ denied m ∨ dst ∈ denied m)
      then (inl (OSError "Permission denied"), w)
      else match files w !! src with
           | Some c => (inr (), Disk (dirs w) (<[dst := c]> (delete src (files w))))
           | None => (inl (FileNotFoundError "No such file or directory"), w)
           end
  | OsMakedirs p => (inr (), Disk ({[p]} ∪ dirs w) (files w))
  | OpenWrite p lines => (inr (), Disk (dirs w) (<[p := lines]> (files w)))
  | SubprocessRun cmd => (encoder m cmd, w)
  | TimeStrftime _ => (clock m, w)
  | PyPrint _ => ((), w)
  end.

(** ** The pattern read without backtracking

    What the matcher finds, written as plain scans; the facts below relate
    the two. *)

Module ReSpec.
Fixpoint takewhile (p : ascii → bool) (s : string) : string :=
  match s with
  | String c s' => if p c then String c (takewhile p s') else ""
  | "" => ""
  end.

Fixpoint dropwhile (p : ascii → bool) (s : string) : string :=
  match s with
  | String c s' => if p c then dropwhile p s' else s
  | "" => ""
  end.

(** after [_fn]: the whole run of digits, a dot, the rest of the line *)
Definition tail_of (r : string) : option (string * string) :=
  let d := takewhile Re.digit r in
  match dropwhile Re.digit r with
  | String c r4 =>
      let t := takewhile Re.dot r4 in
      if Ascii.eqb "." c && negb (String.eqb d "") && negb (String.eqb t "")
      then Some (d, "." +:+ t) else None
  | "" => None
  end.

Definition after_fn (r : string) : option (string * string) :=
  if Str.startswith r "_fn" then tail_of (Str.drop 3 r) else None.

(** A rest is closed when the line ends there. *)
Definition line_end (rest : string) : Prop :=
  rest = "" ∨ ∃ r, rest = String "010" r.
End ReSpec.

(** The name a file has once the renamer has passed over it *)
Definition renamed (file_name : string) : string :=
  match new_file_name file_name with
  | inr (Some new) => new
  | _ => file_name
  end.

(** The line the renamer prints for an exception it caught *)
Definition reported (folder_path : string) (e : exception) : string :=
  match e with
  | FileNotFoundError _ => "The folder '" +:+ folder_path +:+ "' does not exist."
  | _ => "An error occurred: " +:+ exception_str e
  end.

(** [_fn], digits, a dot and one more character of the same line, somewhere
    in the name *)
Definition has_pattern (file_name : string) : Prop :=
  ∃ u d c r, file_name = u +:+ "_fn" +:+ d +:+ "." +:+ String c r
             ∧ d ≠ "" ∧ Str.all Re.digit d = true ∧ Re.dot c = true.

(** ** The grouper, without the console *)

(** [parts[0]] for the path [img_path] *)
Definition dev_indicator (img_path : string) : string :=
  hd "" (Str.split "_" (basename img_path)).

Definition is_dev (img_path : string) : bool :=
  Str.startswith (dev_indicator img_path) "Dev".

(** The paths of [images] filed under [key], in the order of [images] *)
Definition members (key : string) (images : list string) : list string :=
  filter (λ p, is_dev p = true ∧ dev_indicator p = key) images.

Fixpoint group_pure (images : list string) (grouped_images : dict (list string))
    : dict (list string) :=
  match images with
  | [] => grouped_images
  | img_path :: images' =>
      if is_dev img_path
      then group_pure images' (dict_append grouped_images (dev_indicator img_path) img_path)
      else group_pure images' grouped_images
  end.

(** The lines printed for the files that are passed over *)
Definition skipped (images : list string) : list text :=
  (λ p, Text ("Skipping invalid file: " +:+ basename p))
    <$> filter (λ p, is_dev p = false) images.

(** ** What a task can end with

    [ends_with P raises v m]: as long as every call of [m] is answered within
    [P], the program [m] ends by returning [v], or, when [raises] is set, by
    raising. *)
Inductive ends_with {A} (P : ∀ X, event X → X → Prop) (raises : bool) (v : A)
    : prog A → Prop :=
| ends_ret : ends_with P raises v (Ret v)
| ends_raise e : raises = true → ends_with P raises v (Raise e)
| ends_vis X (ev : event X) k :
    (∀ x, P X ev x → ends_with P raises v (k x)) →
    ends_with P raises v (Vis ev k).

(** How one result stands to the value the task is to return *)
Definition outcome {A} (raises : bool) (v : A) (r : exception + A) : Prop :=
  r = inr v ∨ (raises = true ∧ ∃ e, r = inl e).

Definition any_answer (X : Type) (ev : event X) (x : X) : Prop := True.

(** The command line of the encoder for one group *)
Definition encoder_cmd (group_index : N) (frame_rate : Z)
    (temp_dir ffmpeg_path : string) : list string :=
  [ffmpeg_path; "-y"; "-f"; "concat"; "-safe"; "0";
   "-i"; manifest_path temp_dir group_index;
   "-vf"; "scale=960:-1"; "-r"; pretty frame_rate; clip_path temp_dir group_index].

Definition manifest_lines (group : list string) : list string :=
  (λ img_path, "file '" +:+ img_path +:+ "'" +:+ String "010" "") <$> group.

(** ** Names the renamer has nothing to do with any more *)

Definition settled (file_name : string) : Prop :=
  new_file_name file_name = inr None ∨ new_file_name file_name = inr (Some file_name).

Definition no_slash (c : ascii) : bool := negb (Ascii.eqb c "/").

(** ** Machines and disks for the examples *)

Module Ex.
(** The encoder fails with status 1 and the given bytes on its error stream. *)
Definition failing (err : list Byte.byte) (cmd : list string) : exception + completed :=
  inl (CalledProcessError 1 err "Command returned non-zero exit status 1.").

Definition succeeding (cmd : list string) : exception + completed :=
  inr (Completed 0 [] []).

(** [d/a_fn1.png] cannot be renamed. *)
Definition locked : machine :=
  Machine id {["d/a_fn1.png"]} succeeding "12:00:00".

(** The encoder fails and leaves the byte 0xFF on its error stream. *)
Definition garbled : machine :=
  Machine id ∅ (failing [Byte.xff]) "12:00:00".

Definition plain : machine := Machine id ∅ succeeding "12:00:00".

Definition two_files : disk :=
  Disk {["d"]} (<["d/b_fn2.png" := []]> (<["d/a_fn1.png" := []]> ∅)).

Definition start {W} (w : W) : state W := State w [].

Definition pictures : list string :=
  ["pictures/Dev3_0001.png"; "pictures/developer1_0001.png";
   "pictures/Dev3_0002.png"; "pictures/Devfoo.png"; "pictures/Dev3_0003.png"].
End Ex.

(** * The rest of the two scripts *)

(** ** [os.path.dirname] *)

(** [p[:p.rfind('/') + 1]] *)
Fixpoint dirname_head (p : string) : string :=
  match p with
  | "" => ""
  | String c p' =>
      if Str.all no_slash p' then (if Ascii.eqb c "/" then "/" else "")
      else String c (dirname_head p')
  end.

(** [s.rstrip('/')] *)
Fixpoint rstrip_slash (s : string) : string :=
  match s with
  | "" => ""
  | String c s' =>
      let r := rstrip_slash s' in
      if Ascii.eqb c "/" && String.eqb r "" then "" else String c r
  end.

Definition dirname (p : string) : string :=
  let head := dirname_head p in
  if negb (String.eqb head "") && negb (Str.all (λ c, Ascii.eqb c "/") head)
  then rstrip_slash head else head.

(** ** [program.py]: the images of a folder *)

Definition valid_extensions : list string :=
  [".png"; ".jpg"; ".jpeg"; ".bmp"; ".tiff"; ".webp"].

Definition get_images_from_folder (folder_path : string) : prog (list string) :=
  call (OsListdir folder_path) ≫= λ file_names : list string,
  Ret (join folder_path
         <$> filter (λ f, Str.endswith_any (Str.lower f) valid_extensions = true)
               file_names).

(** [os.path.dirname(os.path.abspath(__file__))]; the absolute path of the
    script file is the environment's. *)
Definition get_current_directory (script_abspath : string) : string :=
  dirname script_abspath.

(** [list(d.values())] *)
Definition dict_values {V} (d : dict V) : list V := d.*2.

(** ** [program.py]: the grid video and [main]

    These functions read the clock.  [time.time()] and the text of
    [f"{t1 - t0:.2f}"] are floating point and stay with the environment:
    [time_time] answers a reading of some type [T], and [seconds_2f t1 t0] is
    the text written for the difference of two readings.  The functions are
    state transformers that raise or return ([action]): they run the
    programs above in the environment, and the pool under a schedule. *)

Definition action (W A : Type) : Type := state W → (exception + A) * state W.

Definition action_ret {W A} (a : A) : action W A := λ st, (inr a, st).

Definition action_bind {W A B} (m : action W A) (f : A → action W B) : action W B :=
  λ st, match m st with
        | (inr a, st') => f a st'
        | (inl e, st') => (inl e, st')
        end.

Section Scripts.
Context {W T : Type}.
Context (respond : ∀ X, event X → W → X * W).
Context (time_time : W → T * W) (seconds_2f : T → T → string).
Context (schedule : list nat) (cancel : nat → bool).

(** Running a program of calls *)
Definition perform {A} (m : prog A) : action W A := run respond m.

Definition read_clock : action W T :=
  λ st, let '(t, w) := time_time (world st) in (inr t, State w (console st)).

(** [print(f"[{time.strftime('%H:%M:%S')}] ...")] *)
Definition print_stamped (s : string) : prog unit :=
  now ← Vis (TimeStrftime "%H:%M:%S") Ret ;
  print ("[" +:+ now +:+ "] " +:+ s).

(** Step 2 of [create_video_from_grouped_images], the [try] statement: the
    answer is [false] when the [except] clause returns from the function. *)
Definition run_grid_cmd (grid_cmd : list string) : prog bool :=
  try_except
    (result ← call (SubprocessRun grid_cmd) ;
     decoded ← lift (bytes_decode (stderr result)) ;
     Vis (PyPrint (TextDecoded "" decoded)) Ret ;;
     Ret true)
    (λ e, match e with
          | CalledProcessError _ err _ =>
              Some (print ("Error while combining videos: " +:+ exception_str e) ;;
                    decoded ← lift (bytes_decode err) ;
                    Vis (PyPrint (TextDecoded "FFmpeg stderr: " decoded)) Ret ;;
                    Ret false)
          | _ => None
          end).

Definition create_video_from_grouped_images (groups : list (list string))
    (output_path : string) (frame_rate : Z) (temp_dir ffmpeg_path : string)
    : action W unit :=
  action_bind (perform (call (OsMakedirs temp_dir))) (λ _,
  action_bind (perform (print_stamped "Starting to create individual videos...")) (λ _,
  action_bind read_clock (λ start_time,
  action_bind (intermediate_videos respond schedule cancel groups frame_rate
                 temp_dir ffmpeg_path) (λ intermediate_videos,
  action_bind read_clock (λ t1,
  action_bind (perform (print ("Time taken to create individual videos: "
                                 +:+ seconds_2f t1 start_time +:+ " seconds"))) (λ _,
  action_bind (perform (print_stamped "Combining videos into a 2x2 grid...")) (λ _,
  action_bind read_clock (λ start_time,
  action_bind (perform (run_grid_cmd
                 (grid_cmd ffmpeg_path intermediate_videos output_path))) (λ go_on,
  if go_on : bool then
    action_bind read_clock (λ t1,
    perform (print ("Time taken to combine videos into a 2x2 grid: "
                      +:+ seconds_2f t1 start_time +:+ " seconds")))
  else action_ret ()))))))))).

Definition main (script_abspath : string) : action W unit :=
  let current_dir := get_current_directory script_abspath in
  let img_folder := join current_dir "pictures" in
  let output_video := join current_dir "dev_grouped_video.mp4" in
  let temp_dir := join current_dir "temp" in
  let frame_rate := 30%Z in
  let ffmpeg_path := join (join (join current_dir "ffmpeg") "bin") "ffmpeg" in
  action_bind (perform (print_stamped "Starting process...")) (λ _,
  action_bind read_clock (λ start_time,
  action_bind (perform (get_images_from_folder img_folder)) (λ images,
  action_bind (perform (group_images_by_developer images 20000000)) (λ grouped_images,
  let groups := slice_to (dict_values grouped_images) 4 in
  action_bind (create_video_from_grouped_images groups output_video frame_rate
                 temp_dir ffmpeg_path) (λ _,
  action_bind (perform (now ← Vis (TimeStrftime "%H:%M:%S") Ret ; Ret now)) (λ now,
  action_bind read_clock (λ t1,
  action_bind (perform (print ("[" +:+ now +:+ "] Process completed in "
                                 +:+ seconds_2f t1 start_time +:+ " seconds."))) (λ _,
  perform (print ("Video saved to: " +:+ output_video)))))))))).
End Scripts.

(** ** [rename.py] as a script: the folder [pictures] beside the script *)
Definition rename_script (script_abspath : string) : prog unit :=
  let current_dir := dirname script_abspath in
  let img_folder := join current_dir "pictures" in
  rename_files_in_folder img_folder.

(** ** Notions for the properties of the rest *)

(** The keys of [keys] in the order of their first appearance, those in
    [seen] left out *)
Fixpoint first_seen (seen keys : list string) : list string :=
  match keys with
  | [] => []
  | key :: keys' =>
      if decide (key ∈ seen) then first_seen seen keys'
      else key :: first_seen (key :: seen) keys'
  end.

(** The answers of an environment in which folders can be listed and made
    and files written, the encoder starts, and whatever the encoder leaves
    on its error stream is well-formed UTF-8 *)
Definition cooperative (X : Type) (ev : event X) : X → Prop :=
  match ev in event X return X → Prop with
  | OsListdir _ => λ x, ∃ file_names, x = inr file_names
  | OsMakedirs _ => λ x, x = inr ()
  | OpenWrite _ _ => λ x, x = inr ()
  | SubprocessRun _ => λ x,
      match x with
      | inr result => utf8_valid (Byte.to_N <$> stderr result) = true
      | inl (CalledProcessError _ err _) => utf8_valid (Byte.to_N <$> err) = true
      | inl _ => False
      end
  | _ => λ _, True
  end.

(** The same, except that the command [cmd0] may be answered in any way *)
Definition cooperative_but (cmd0 : list string) (X : Type) (ev : event X) : X → Prop :=
  match ev in event X return X → Prop with
  | SubprocessRun cmd => λ x, cmd = cmd0 ∨ cooperative _ (SubprocessRun cmd) x
  | ev' => cooperative _ ev'
  end.

(** How [create_video_from_grouped_images] ends, by the answer to its grid
    command *)
Definition grid_outcome (answer : exception + completed) : exception + unit :=
  match answer with
  | inr result =>
      if utf8_valid (Byte.to_N <$> stderr result) then inr ()
      else inl (UnicodeDecodeError "'utf-8' codec can't decode bytes")
  | inl (CalledProcessError _ err _) =>
      if utf8_valid (Byte.to_N <$> err) then inr ()
      else inl (UnicodeDecodeError "'utf-8' codec can't decode bytes")
  | inl e => inl e
  end.

(** An environment without state, for the examples: every folder lists
    [file_names], every write succeeds, the encoder answers by [encoder], the
    clock shows noon. *)
Definition fixed_answers (file_names : list string)
    (encoder : list string → exception + completed)
    (X : Type) (ev : event X) (w : unit) : X * unit :=
  match ev in event X return X * unit with
  | OsListdir _ => (inr file_names, w)
  | OsRename _ _ => (inr (), w)
  | OsMakedirs _ => (inr (), w)
  | OpenWrite _ _ => (inr (), w)
  | SubprocessRun cmd => (encoder cmd, w)
  | TimeStrftime _ => ("12:00:00", w)
  | PyPrint _ => ((), w)
  end.

(** ** The calls a run has made

    To say what a program does, and not only what it returns, the
    environment can keep the list of the calls it has answered, each with
    its answer, in the order in which they were made. *)

Inductive performed :=
| Listdir (path : string) (answer : exception + list string)
| Rename (src dst : string) (answer : exception + unit)
| Makedirs (path : string) (answer : exception + unit)
| Write (path : string) (lines : list string) (answer : exception + unit)
| Run (cmd : list string) (answer : exception + completed)
| Strftime (format : string) (answer : string).

(** The entry for one call; [print] is no call of the environment. *)
Definition performed_of {X} (ev : event X) : X → list performed :=
  match ev in event X return X → list performed with
  | OsListdir path => λ x, [Listdir path x]
  | OsRename src dst => λ x, [Rename src dst x]
  | OsMakedirs path => λ x, [Makedirs path x]
  | OpenWrite path lines => λ x, [Write path lines x]
  | SubprocessRun cmd => λ x, [Run cmd x]
  | TimeStrftime format => λ x, [Strftime format x]
  | PyPrint _ => λ _, []
  end.

(** The environment [respond], keeping the list of its calls *)
Definition recorded {W} (respond : ∀ X, event X → W → X * W)
    (X : Type) (ev : event X) (wl : W * list performed) : X * (W * list performed) :=
  let '(x, w) := respond X ev wl.1 in (x, (w, wl.2 ++ performed_of ev x)).

Definition calls {W} (st : state (W * list performed)) : list performed := (world st).2.

(** The state without the list of the calls *)
Definition forget {W} (st : state (W * list performed)) : state W :=
  State (world st).1 (console st).

(** [steps m t m']: the program [m], making the calls [t] and getting their
    answers, has become [m']. *)
Inductive steps {A} : prog A → list performed → prog A → Prop :=
| steps_done m : steps m [] m
| steps_vis X (ev : event X) k x t m' :
    steps (k x) t m' → steps (Vis ev k) (performed_of ev x ++ t) m'.

(** The answers after which a task of the pool goes on to its end: the
    manifest was written; the encoder ran, or failed and left well-formed
    UTF-8 on its error stream. *)
Definition answer_allowed (c : performed) : Prop :=
  match c with
  | Write _ _ answer => answer = inr ()
  | Run _ answer =>
      match answer with
      | inr _ => True
      | inl (CalledProcessError _ err _) => utf8_valid (Byte.to_N <$> err) = true
      | inl _ => False
      end
  | _ => True
  end.

(** The tasks [tasks0] have made the calls [traces], task by task, and
    become [tasks]; [new] is the list of all these calls as the environment
    saw them: the calls of each task in their order, those of different
    tasks in any order. *)
Definition traced {A} (tasks0 : list (prog A)) (traces : list (list performed))
    (tasks : list (prog A)) (new : list performed) : Prop :=
  Forall3 (λ m0 t m, steps m0 t m) tasks0 traces tasks
  ∧ new ≡ₚ mjoin traces
  ∧ Forall (λ t, sublist t new) traces.
(** ** Facts on strings *)

Section StrFacts.
Implicit Types (s t u : string) (c : ascii) (p : ascii → bool).

Lemma sapp_nil_l s : "" +:+ s = s.
Proof. reflexivity. Qed.

Lemma sapp_cons c s t : String c s +:+ t = String c (s +:+ t).
Proof. reflexivity. Qed.

Lemma sapp_nil_r s : s +:+ "" = s.
Proof. induction s as [|c s IH]; [done|]. by rewrite sapp_cons, IH. Qed.

Lemma sapp_assoc s t u : (s +:+ t) +:+ u = s +:+ t +:+ u.
Proof. induction s as [|c s IH]; [done|]. by rewrite !sapp_cons, IH. Qed.

Lemma slength_app s t :
  String.length (s +:+ t) = (String.length s + String.length t)%nat.
Proof. induction s as [|c s IH]; [done|]. rewrite sapp_cons. simpl. by rewrite IH. Qed.

Lemma sall_app p s t : Str.all p (s +:+ t) = Str.all p s && Str.all p t.
Proof.
  induction s as [|c s IH]; [done|].
  rewrite sapp_cons. simpl. rewrite IH. by rewrite andb_assoc.
Qed.

Lemma all_impl p (q : ascii → bool) s :
  (∀ c, p c = true → q c = true) → Str.all p s = true → Str.all q s = true.
Proof.
  intros Hpq. induction s as [|c s IH]; [done|]. simpl.
  intros [Hc Hs]%andb_true_iff. rewrite (Hpq _ Hc). simpl. auto.
Qed.

Lemma length_zeros n : String.length (Str.zeros n) = n.
Proof. induction n as [|n IH]; [done|]. simpl. by rewrite IH. Qed.

Lemma ascii_eqb_refl c : Ascii.eqb c c = true.
Proof. by apply Ascii.eqb_eq. Qed.
End StrFacts.


(** ** Facts on the matcher *)

Section ReFacts.
Import ReSpec.
Context {R : Type}.
Implicit Types (s t u m r : string) (c : ascii) (p : ascii → bool).
Implicit Types (k : string → string → option R).

Lemma star_ext p s k k' :
  (∀ m r, k m r = k' m r) → Re.star p s k = Re.star p s k'.
Proof.
  revert k k'. induction s as [|c s IH]; intros k k' Hk; simpl; [apply Hk|].
  destruct (p c); [|apply Hk].
  rewrite (IH _ (λ m r, k' (String c m) r)) by (intros; apply Hk).
  by rewrite Hk.
Qed.

(** Nothing matches exactly when every way of cutting fails. *)
Lemma star_none p s k :
  Re.star p s k = None ↔
  (∀ m r, s = m +:+ r → Str.all p m = true → k m r = None).
Proof.
  revert k. induction s as [|c s IH]; intros k; simpl.
  - split.
    + intros Hk [|c m] r; [|discriminate]. rewrite sapp_nil_l. by intros <- _.
    + intros H. by apply H.
  - destruct (p c) eqn:Hc.
    + destruct (Re.star p s _) as [x|] eqn:Hstar.
      * split; [done|]. intros H.
        assert (Re.star p s (λ m r, k (String c m) r) = None) as Hn; [|congruence].
        apply IH. intros m r -> Hm. apply (H (String c m) r); [done|].
        simpl. by rewrite Hc.
      * split.
        -- intros Hk [|c' m] r.
           ++ rewrite sapp_nil_l. by intros <- _.
           ++ rewrite sapp_cons. intros [= <- ->]. simpl. rewrite Hc. simpl.
              intros Hm. by apply (proj1 (IH _) Hstar m r).
        -- intros H. by apply (H "" (String c s)).
    + split.
      * intros Hk [|c' m] r.
        -- rewrite sapp_nil_l. by intros <- _.
        -- rewrite sapp_cons. intros [= <- ->]. simpl. by rewrite Hc.
      * intros H. by apply (H "" (String c s)).
Qed.

(** What a successful match of [p*] tells: the cut it chose, and that every
    longer cut failed. *)
Lemma star_some_inv p s k x :
  Re.star p s k = Some x →
  ∃ q r, s = q +:+ r ∧ Str.all p q = true ∧ k q r = Some x ∧
    ∀ m r', r = m +:+ r' → m ≠ "" → Str.all p m = true → k (q +:+ m) r' = None.
Proof.
  revert k. induction s as [|c s IH]; intros k; simpl.
  - intros Hk. exists "", "". repeat split; [done|].
    intros [|c m] r' ?; [done|discriminate].
  - destruct (p c) eqn:Hc.
    + destruct (Re.star p s _) as [y|] eqn:Hstar.
      * intros [= ->]. apply IH in Hstar as (q & r & -> & Hq & Hk & Hlast).
        exists (String c q), r. repeat split; [|done..].
        simpl. by rewrite Hc.
      * intros Hk. exists "", (String c s). repeat split; [done|].
        intros [|c' m] r'; [done|]. rewrite sapp_cons. intros [= <- ->] _.
        simpl. rewrite Hc. simpl. intros Hm. rewrite sapp_nil_l.
        by apply (proj1 (star_none _ _ _) Hstar m r').
    + intros Hk. exists "", (String c s). repeat split; [done|].
      intros [|c' m] r'; [done|]. rewrite sapp_cons. intros [= <- ->] _.
      simpl. by rewrite Hc.
Qed.

Lemma star_some_intro p q r k x :
  Str.all p q = true → k q r = Some x →
  (∀ m r', r = m +:+ r' → m ≠ "" → Str.all p m = true → k (q +:+ m) r' = None) →
  Re.star p (q +:+ r) k = Some x.
Proof.
  revert k. induction q as [|c q IH]; intros k Hq Hk Hlast.
  - rewrite sapp_nil_l. destruct r as [|c r]; [done|]. simpl.
    destruct (p c) eqn:Hc; [|done].
    assert (Re.star p r (λ m r', k (String c m) r') = None) as ->; [|done].
    apply star_none. intros m r' -> Hm.
    apply (Hlast (String c m) r'); [done..|]. simpl. by rewrite Hc.
  - simpl in Hq. apply andb_true_iff in Hq as [Hc Hq].
    rewrite sapp_cons. simpl. rewrite Hc.
    by rewrite (IH (λ m r', k (String c m) r')).
Qed.

(** When the continuation fails on every rest that starts with a [p], only
    the longest cut is left. *)
Lemma star_greedy p s k :
  (∀ m c r, p c = true → k m (String c r) = None) →
  Re.star p s k = k (takewhile p s) (dropwhile p s).
Proof.
  revert k. induction s as [|c s IH]; intros k Hk; simpl; [done|].
  destruct (p c) eqn:Hc; [|done].
  rewrite IH by (intros; by apply Hk).
  destruct (k _ _); [done|]. by rewrite Hk.
Qed.

(** The longest cut is tried first. *)
Lemma star_first p s k x :
  k (takewhile p s) (dropwhile p s) = Some x → Re.star p s k = Some x.
Proof.
  revert k. induction s as [|c s IH]; intros k Hk; simpl in *; [done|].
  destruct (p c) eqn:Hc; [|done].
  by rewrite (IH (λ m r, k (String c m) r)).
Qed.

Lemma lit_eq l s (k : string → option R) :
  Re.lit l s k = if Str.startswith s l then k (Str.drop (String.length l) s) else None.
Proof.
  revert s. induction l as [|a l IH]; intros s; [done|].
  destruct s as [|c s]; [done|]. simpl. destruct (Ascii.eqb a c); [apply IH|done].
Qed.
End ReFacts.

Section PatternFacts.
Import ReSpec.
Local Arguments Ascii.eqb : simpl never.
Implicit Types (s t u m r q : string) (c : ascii) (p : ascii → bool).

Lemma digit_not_dot_char c : Re.digit c = true → Ascii.eqb "." c = false.
Proof.
  unfold Re.digit, Str.code. intros [H1 H2]%andb_true_iff.
  apply Ascii.eqb_neq. intros <-. vm_compute in H1. discriminate.
Qed.

Lemma digit_is_dot c : Re.digit c = true → Re.dot c = true.
Proof.
  unfold Re.digit, Re.dot, Str.code. intros [H1 H2]%andb_true_iff.
  apply negb_true_iff, Ascii.eqb_neq. intros ->. vm_compute in H1. discriminate.
Qed.

Lemma digit_not_underscore c : Re.digit c = true → Ascii.eqb "_" c = false.
Proof.
  unfold Re.digit, Str.code. intros [H1 H2]%andb_true_iff.
  apply Ascii.eqb_neq. intros <-. vm_compute in H2. discriminate.
Qed.

(** [(\d+)(\..+)] followed by nothing: the scans of [tail_of] *)
Lemma tail_eq {R} (f : string → string → R) r2 :
  Re.plus Re.digit r2 (λ g2 r3,
    Re.lit "." r3 (λ r4,
      Re.plus Re.dot r4 (λ g3 _, Some (f g2 ("." +:+ g3)))))
  = (λ ns : string * string, f ns.1 ns.2) <$> tail_of r2.
Proof.
  unfold tail_of. destruct r2 as [|c r]; [done|]. simpl.
  destruct (Re.digit c) eqn:Hc; simpl.
  - rewrite star_greedy.
    2:{ intros m c' r' Hc'. simpl. by rewrite (digit_not_dot_char c'). }
    destruct (dropwhile Re.digit r) as [|c2 r4]; [done|]. simpl.
    destruct (Ascii.eqb "." c2); [|done]. simpl.
    destruct r4 as [|c3 r5]; [done|]. simpl.
    destruct (Re.dot c3); [|done]. simpl.
    by erewrite star_first.
  - by rewrite andb_false_r.
Qed.

Lemma match_at_eq s :
  Re.match_at s
  = Re.star Re.dot s (λ g1 r1,
      (λ ns : string * string, (g1 +:+ "_fn", ns.1, ns.2)) <$> after_fn r1).
Proof.
  unfold Re.match_at. apply star_ext. intros g1 r1.
  rewrite lit_eq. unfold after_fn.
  destruct (Str.startswith r1 "_fn"); [|done].
  apply (tail_eq (λ n suf, (g1 +:+ "_fn", n, suf))).
Qed.

Lemma takewhile_dropwhile p s : takewhile p s +:+ dropwhile p s = s.
Proof.
  induction s as [|c s IH]; [done|]. simpl.
  destruct (p c); [|done]. by rewrite sapp_cons, IH.
Qed.

Lemma all_takewhile p s : Str.all p (takewhile p s) = true.
Proof.
  induction s as [|c s IH]; [done|]. simpl.
  destruct (p c) eqn:Hc; [|done]. simpl. by rewrite Hc.
Qed.

Lemma takewhile_app p s t :
  Str.all p s = true → takewhile p (s +:+ t) = s +:+ takewhile p t.
Proof.
  induction s as [|c s IH]; [done|]. simpl.
  intros [Hc Hs]%andb_true_iff. rewrite ?sapp_cons. simpl. rewrite Hc.
  by rewrite IH, ?sapp_cons.
Qed.

Lemma dropwhile_app p s t :
  Str.all p s = true → dropwhile p (s +:+ t) = dropwhile p t.
Proof.
  induction s as [|c s IH]; [done|]. simpl.
  intros [Hc Hs]%andb_true_iff. rewrite ?sapp_cons. simpl. rewrite Hc. by apply IH.
Qed.

Lemma takewhile_line_end p rest :
  (p "010"%char = false) → line_end rest → takewhile p rest = "".
Proof. intros Hp [->|[r ->]]; [done|]. simpl. by rewrite Hp. Qed.

Lemma dropwhile_line_end p rest :
  (p "010"%char = false) → line_end rest → dropwhile p rest = rest.
Proof. intros Hp [->|[r ->]]; [done|]. simpl. by rewrite Hp. Qed.

Lemma tail_of_intro num t rest :
  Str.all Re.digit num = true → num ≠ "" →
  Str.all Re.dot t = true → t ≠ "" → line_end rest →
  tail_of (num +:+ "." +:+ t +:+ rest) = Some (num, "." +:+ t).
Proof.
  intros Hnum Hne Ht Hte Hrest. unfold tail_of.
  rewrite takewhile_app, dropwhile_app by done.
  change ("." +:+ t +:+ rest) with (String "." (t +:+ rest)). simpl.
  rewrite takewhile_app by done.
  rewrite (takewhile_line_end Re.dot rest) by done.
  rewrite !sapp_nil_r.
  apply String.eqb_neq in Hne, Hte. by rewrite Hne, Hte.
Qed.

Lemma tail_of_inv r num suf :
  tail_of r = Some (num, suf) →
  ∃ t rest, r = num +:+ "." +:+ t +:+ rest ∧ suf = "." +:+ t ∧
    Str.all Re.digit num = true ∧ num ≠ "" ∧
    Str.all Re.dot t = true ∧ t ≠ "" ∧
    (rest = "" ∨ ∃ c r', rest = String c r' ∧ Re.dot c = false).
Proof.
  unfold tail_of. intros H.
  pose proof (takewhile_dropwhile Re.digit r) as Hr.
  destruct (dropwhile Re.digit r) as [|c r4] eqn:Hd; [done|].
  destruct (Ascii.eqb "." c) eqn:Hc; [|done]. apply Ascii.eqb_eq in Hc as <-.
  destruct (String.eqb (takewhile Re.digit r) "") eqn:Hn; [done|].
  destruct (String.eqb (takewhile Re.dot r4) "") eqn:Ht; [done|].
  simpl in H. injection H as <- <-.
  exists (takewhile Re.dot r4), (dropwhile Re.dot r4).
  apply String.eqb_neq in Hn, Ht.
  split_and!; try done.
  - change ("." +:+ takewhile Re.dot r4 +:+ dropwhile Re.dot r4)
      with (String "." (takewhile Re.dot r4 +:+ dropwhile Re.dot r4)).
    by rewrite takewhile_dropwhile.
  - apply all_takewhile.
  - apply all_takewhile.
  - clear. induction r4 as [|c r IH]; [by left|]. simpl.
    destruct (Re.dot c) eqn:Hc; [done|]. right. eauto.
Qed.

Lemma not_dot_line_feed c : Re.dot c = false → c = "010"%char.
Proof. unfold Re.dot. intros H%negb_false_iff. by apply Ascii.eqb_eq in H. Qed.

Lemma startswith_drop s t :
  Str.startswith s t = true → s = t +:+ Str.drop (String.length t) s.
Proof.
  revert s. induction t as [|a t IH]; intros s; [done|].
  destruct s as [|c s]; [done|]. simpl.
  destruct (Ascii.eqb a c) eqn:Hac; [|done]. apply Ascii.eqb_eq in Hac as ->.
  intros H. rewrite sapp_cons. f_equal. by apply IH.
Qed.

Lemma startswith_app s t : Str.startswith (t +:+ s) t = true.
Proof.
  induction t as [|a t IH]; [done|]. rewrite sapp_cons. simpl.
  by rewrite ascii_eqb_refl.
Qed.

Lemma drop_app s t : Str.drop (String.length t) (t +:+ s) = s.
Proof. induction t as [|a t IH]; [done|]. by rewrite sapp_cons. Qed.

Lemma takewhile_app_end p s rest :
  p "010"%char = false → line_end rest → takewhile p (s +:+ rest) = takewhile p s.
Proof.
  intros Hp Hrest. induction s as [|c s IH].
  - rewrite sapp_nil_l. by apply takewhile_line_end.
  - rewrite sapp_cons. simpl. destruct (p c); [|done]. by rewrite IH.
Qed.

Lemma dropwhile_app_end p s rest :
  p "010"%char = false → line_end rest →
  dropwhile p (s +:+ rest) = dropwhile p s +:+ rest.
Proof.
  intros Hp Hrest. induction s as [|c s IH].
  - rewrite !sapp_nil_l. by apply dropwhile_line_end.
  - rewrite sapp_cons. simpl. destruct (p c); [done|]. by rewrite sapp_cons.
Qed.

Lemma tail_of_app_end r rest : line_end rest → tail_of (r +:+ rest) = tail_of r.
Proof.
  intros Hrest. unfold tail_of.
  rewrite takewhile_app_end, dropwhile_app_end by done.
  destruct (dropwhile Re.digit r) as [|c r4].
  - rewrite sapp_nil_l. by destruct Hrest as [->|[r' ->]].
  - rewrite sapp_cons. by rewrite takewhile_app_end.
Qed.

Lemma startswith_app_end s t rest :
  Str.all Re.dot t = true → line_end rest →
  Str.startswith (s +:+ rest) t = Str.startswith s t.
Proof.
  intros Ht Hrest. revert s. induction t as [|a t IH]; intros s; [done|].
  simpl in Ht. apply andb_true_iff in Ht as [Ha Ht].
  destruct s as [|c s].
  - rewrite sapp_nil_l. destruct Hrest as [->|[r' ->]]; [done|]. simpl.
    destruct (Ascii.eqb a "010") eqn:E; [|done].
    apply Ascii.eqb_eq in E as ->. done.
  - rewrite sapp_cons. simpl. destruct (Ascii.eqb a c); [by apply IH|done].
Qed.

(** What lies beyond the end of the line does not count. *)
Lemma after_fn_app_end r rest : line_end rest → after_fn (r +:+ rest) = after_fn r.
Proof.
  intros Hrest. unfold after_fn. rewrite startswith_app_end by done.
  destruct (Str.startswith r "_fn") eqn:Hr; [|done].
  apply startswith_drop in Hr. rewrite Hr at 1. rewrite sapp_assoc.
  rewrite (drop_app _ "_fn"). by apply tail_of_app_end.
Qed.

Lemma after_fn_intro num t rest :
  Str.all Re.digit num = true → num ≠ "" →
  Str.all Re.dot t = true → t ≠ "" → line_end rest →
  after_fn ("_fn" +:+ num +:+ "." +:+ t +:+ rest) = Some (num, "." +:+ t).
Proof.
  intros. unfold after_fn. rewrite startswith_app.
  rewrite (drop_app _ "_fn"). by apply tail_of_intro.
Qed.

Lemma after_fn_inv r num suf :
  after_fn r = Some (num, suf) →
  ∃ t rest, r = "_fn" +:+ num +:+ "." +:+ t +:+ rest ∧ suf = "." +:+ t ∧
    Str.all Re.digit num = true ∧ num ≠ "" ∧
    Str.all Re.dot t = true ∧ t ≠ "" ∧ line_end rest.
Proof.
  unfold after_fn. destruct (Str.startswith r "_fn") eqn:Hr; [|done].
  apply startswith_drop in Hr. intros H.
  apply tail_of_inv in H as (t & rest & Hd & -> & ? & ? & ? & ? & Hrest).
  exists t, rest. split_and!; try done.
  - rewrite Hr. f_equal. exact Hd.
  - destruct Hrest as [->|(c & r' & -> & Hc)]; [by left|].
    right. apply not_dot_line_feed in Hc as ->. eauto.
Qed.

Lemma after_fn_head c r : c ≠ "_"%char → after_fn (String c r) = None.
Proof.
  intros Hc. unfold after_fn. simpl.
  destruct (Ascii.eqb "_" c) eqn:E; [|done]. apply Ascii.eqb_eq in E. congruence.
Qed.

Lemma after_fn_empty : after_fn "" = None.
Proof. done. Qed.

Lemma sapp_eq_app s t m r :
  s +:+ t = m +:+ r →
  (∃ z, s = m +:+ z ∧ r = z +:+ t) ∨ (∃ z, m = s +:+ z ∧ t = z +:+ r).
Proof.
  revert m. induction s as [|c s IH]; intros m.
  - rewrite sapp_nil_l. intros ->. right. by exists m.
  - destruct m as [|c' m].
    + rewrite sapp_nil_l. intros <-. left. by exists (String c s).
    + rewrite !sapp_cons. intros [= <- H].
      apply IH in H as [(z & -> & ->)|(z & -> & ->)]; [left|right]; by exists z.
Qed.

(** What a match at the start of [s] tells: the line of [s] is cut into
    [q _fn num . t], and [_fn] starts no other match further right. *)
Lemma match_at_inv s pre num suf :
  Re.match_at s = Some (pre, num, suf) →
  ∃ q t rest, s = q +:+ "_fn" +:+ num +:+ "." +:+ t +:+ rest ∧
    pre = q +:+ "_fn" ∧ suf = "." +:+ t ∧
    Str.all Re.dot q = true ∧ Str.all Re.digit num = true ∧ num ≠ "" ∧
    Str.all Re.dot t = true ∧ t ≠ "" ∧ line_end rest ∧
    (∀ m r', "_fn" +:+ num +:+ "." +:+ t +:+ rest = m +:+ r' →
             m ≠ "" → Str.all Re.dot m = true → after_fn r' = None).
Proof.
  rewrite match_at_eq. intros (q & r & -> & Hq & Hk & Hlast)%star_some_inv.
  destruct (after_fn r) as [[num' suf']|] eqn:Hr; [|done].
  simpl in Hk. injection Hk as <- <- <-.
  apply after_fn_inv in Hr as (t & rest & -> & -> & ? & ? & ? & ? & ?).
  exists q, t, rest. split_and!; try done.
  intros m r' Hm Hne Hall. specialize (Hlast m r' Hm Hne Hall).
  by destruct (after_fn r').
Qed.

Lemma match_at_intro q num t rest :
  Str.all Re.dot q = true → Str.all Re.digit num = true → num ≠ "" →
  Str.all Re.dot t = true → t ≠ "" → line_end rest →
  (∀ m r', "_fn" +:+ num +:+ "." +:+ t +:+ rest = m +:+ r' →
           m ≠ "" → Str.all Re.dot m = true → after_fn r' = None) →
  Re.match_at (q +:+ "_fn" +:+ num +:+ "." +:+ t +:+ rest)
  = Some (q +:+ "_fn", num, "." +:+ t).
Proof.
  intros Hq Hnum Hne Ht Hte Hrest Hlast. rewrite match_at_eq.
  apply star_some_intro; [done| |].
  - by rewrite after_fn_intro.
  - intros m r' Hm Hm' Hall. by rewrite (Hlast m r').
Qed.

(** Another run of digits in the place of [num] leaves the rightmost [_fn]
    where it is. *)
Lemma last_fn_keep num pad t rest :
  Str.all Re.digit num = true → Str.all Re.digit pad = true →
  Str.all Re.dot t = true → line_end rest →
  (∀ m r', "_fn" +:+ num +:+ "." +:+ t +:+ rest = m +:+ r' →
           m ≠ "" → Str.all Re.dot m = true → after_fn r' = None) →
  ∀ m r', "_fn" +:+ pad +:+ "." +:+ t +:+ "" = m +:+ r' →
          m ≠ "" → Str.all Re.dot m = true → after_fn r' = None.
Proof.
  intros Hnum Hpad Ht Hrest Hlast m r' Hm Hne Hall.
  rewrite sapp_nil_r in Hm.
  assert (∀ z r0, t = z +:+ r0 → after_fn r0 = None) as Hin_t.
  { intros z r0 ->. rewrite sall_app in Ht. apply andb_true_iff in Ht as [Hz Hr0].
    rewrite <-(after_fn_app_end r0 rest) by done.
    apply (Hlast ("_fn" +:+ num +:+ "." +:+ z)).
    - by rewrite !sapp_assoc.
    - done.
    - rewrite !sall_app, Hz, (all_impl Re.digit Re.dot num digit_is_dot Hnum). done. }
  replace ("_fn" +:+ pad +:+ "." +:+ t) with (("_fn" +:+ pad +:+ ".") +:+ t) in Hm
    by (by rewrite !sapp_assoc).
  apply sapp_eq_app in Hm as [(z & Hz & ->)|(z & -> & Hz)].
  - destruct z as [|c z]; [by apply (Hin_t "")|].
    rewrite sapp_cons. apply after_fn_head. intros ->.
    destruct m as [|c0 m]; [done|]. rewrite sapp_cons in Hz.
    injection Hz as _ Hz.
    assert (Str.all (λ c, negb (Ascii.eqb "_" c)) ("fn" +:+ pad +:+ ".") = true) as Hus.
    { rewrite !sall_app. rewrite (all_impl Re.digit _ pad); [done| |done].
      intros c Hc. by rewrite digit_not_underscore. }
    rewrite Hz, sall_app in Hus. apply andb_true_iff in Hus as [_ Hus].
    simpl in Hus. rewrite ?ascii_eqb_refl in Hus. done.
  - by apply (Hin_t z).
Qed.

(** A name rebuilt from the three groups, with any digits in the middle,
    matches again with the same first and last group. *)
Lemma match_at_rematch s pre num suf pad :
  Re.match_at s = Some (pre, num, suf) →
  Str.all Re.digit pad = true → pad ≠ "" →
  Re.match_at (pre +:+ pad +:+ suf) = Some (pre, pad, suf).
Proof.
  intros (q & t & rest & -> & -> & -> & Hq & Hnum & ? & Ht & ? & Hrest & Hlast)%match_at_inv
    Hpad Hne.
  replace ((q +:+ "_fn") +:+ pad +:+ "." +:+ t)
    with (q +:+ "_fn" +:+ pad +:+ "." +:+ t +:+ "")
    by (by rewrite !sapp_assoc, sapp_nil_r).
  apply match_at_intro; try done; [by left|].
  by apply (last_fn_keep num pad t rest).
Qed.

Lemma search_eq s :
  Re.search s = match Re.match_at s with
                | Some m => Some m
                | None => match s with
                          | String _ s' => Re.search s'
                          | "" => None
                          end
                end.
Proof. by destruct s. Qed.

Lemma search_match_at s x : Re.match_at s = Some x → Re.search s = Some x.
Proof. intros H. by rewrite search_eq, H. Qed.

Lemma search_inv s x :
  Re.search s = Some x → ∃ u s', s = u +:+ s' ∧ Re.match_at s' = Some x.
Proof.
  induction s as [|c s IH]; rewrite search_eq.
  - destruct (Re.match_at "") eqn:E; [|done]. intros [= ->]. by exists "", "".
  - destruct (Re.match_at (String c s)) eqn:E.
    + intros [= ->]. by exists "", (String c s).
    + intros (u & s' & -> & H)%IH. by exists (String c u), s'.
Qed.

(** On a name without line feed the match starts at the first character. *)
Lemma search_single_line s :
  Str.all Re.dot s = true → Re.search s = Re.match_at s.
Proof.
  intros Hs. rewrite search_eq. destruct (Re.match_at s) eqn:E; [done|].
  assert (∀ u s', s = u +:+ s' → Re.search s' = None) as H; [|by destruct s; [|apply (H (String a "") s)]].
  intros u s' ->. rewrite sall_app in Hs. apply andb_true_iff in Hs as [Hu Hs'].
  rewrite match_at_eq in E.
  assert (∀ m r, s' = m +:+ r → Str.all Re.dot m = true → after_fn r = None) as Hnone.
  { intros m r -> Hm. pose proof (proj1 (star_none _ _ _) E (u +:+ m) r) as H.
    rewrite sapp_assoc, sall_app, Hu, Hm in H. specialize (H eq_refl eq_refl).
    by destruct (after_fn r). }
  clear E Hu. induction s' as [|c s' IH]; rewrite search_eq, match_at_eq.
  - assert (Re.star Re.dot "" (λ g1 r1, (λ ns : string * string,
              (g1 +:+ "_fn", ns.1, ns.2)) <$> after_fn r1) = None) as ->; [|done].
    apply star_none. intros m r Hm Hall. by rewrite (Hnone m r).
  - simpl in Hs'. apply andb_true_iff in Hs' as [Hc Hs'].
    assert (Re.star Re.dot (String c s') (λ g1 r1, (λ ns : string * string,
              (g1 +:+ "_fn", ns.1, ns.2)) <$> after_fn r1) = None) as ->.
    { apply star_none. intros m r Hm Hall. by rewrite (Hnone m r). }
    apply IH; [done|]. intros m r -> Hm. apply (Hnone (String c m) r); [done|].
    simpl. by rewrite Hc.
Qed.
End PatternFacts.

(** ** Facts on [int] and on the format *)

(** Case analysis on a number known to be below ten *)
Ltac each_digit x :=
  let H := fresh in
  assert (x = 0 ∨ x = 1 ∨ x = 2 ∨ x = 3 ∨ x = 4 ∨ x = 5 ∨ x = 6 ∨ x = 7
          ∨ x = 8 ∨ x = 9) as H by lia;
  repeat destruct H as [->|H]; try subst x.

Section NumFacts.
Implicit Types (s : string) (x n acc : N).

Lemma pretty_N_char_digit x : x < 10 → Re.digit (pretty_N_char x) = true.
Proof.
  intros Hx. by each_digit x.
Qed.

Lemma digit_value_pretty_N_char x : x < 10 → digit_value (pretty_N_char x) = x.
Proof.
  intros Hx. by each_digit x.
Qed.

Lemma pretty_N_go_digits x s :
  Str.all Re.digit s = true → Str.all Re.digit (pretty_N_go x s) = true.
Proof.
  revert s. induction (N.lt_wf_0 x) as [x _ IH]; intros s Hs.
  destruct (decide (x = 0)) as [->|Hx]; [done|].
  rewrite pretty_N_go_step by lia. apply IH.
  - apply N.div_lt; lia.
  - simpl. rewrite Hs, pretty_N_char_digit; [done|]. by apply N.mod_lt.
Qed.

Lemma pretty_N_go_length_ge x s :
  (String.length s ≤ String.length (pretty_N_go x s))%nat.
Proof.
  revert s. induction (N.lt_wf_0 x) as [x _ IH]; intros s.
  destruct (decide (x = 0)) as [->|Hx]; [done|].
  rewrite pretty_N_go_step by lia.
  etrans; [|apply IH, N.div_lt; lia]. simpl. lia.
Qed.

Lemma pretty_N_go_length_pos x s :
  0 < x → (String.length s < String.length (pretty_N_go x s))%nat.
Proof.
  intros Hx. rewrite pretty_N_go_step by done.
  eapply Nat.lt_le_trans; [|apply pretty_N_go_length_ge]. simpl. lia.
Qed.

Lemma int_digits_pretty_N_go x s : int_digits 0 (pretty_N_go x s) = int_digits x s.
Proof.
  revert s. induction (N.lt_wf_0 x) as [x _ IH]; intros s.
  destruct (decide (x = 0)) as [->|Hx]; [done|].
  rewrite pretty_N_go_step by lia. rewrite IH by (apply N.div_lt; lia).
  simpl. rewrite digit_value_pretty_N_char by (by apply N.mod_lt).
  f_equal. rewrite (N.div_mod x 10) at 3 by done. lia.
Qed.

Lemma pretty_N_digits n : Str.all Re.digit (pretty n) = true.
Proof.
  unfold pretty, pretty_N. case_decide; [done|]. by apply pretty_N_go_digits.
Qed.

Lemma pretty_N_nonempty n : (0 < String.length (pretty n))%nat.
Proof.
  unfold pretty, pretty_N. case_decide; [simpl; lia|].
  eapply Nat.le_lt_trans; [|apply pretty_N_go_length_pos; lia]. simpl. lia.
Qed.

Lemma int_digits_pretty n : int_digits 0 (pretty n) = n.
Proof.
  unfold pretty, pretty_N. case_decide as Hn; [by subst|].
  by rewrite int_digits_pretty_N_go.
Qed.

Lemma int_digits_zeros k s : int_digits 0 (Str.zeros k +:+ s) = int_digits 0 s.
Proof. induction k as [|k IH]; [done|]. simpl. rewrite ?sapp_cons. simpl. exact IH. Qed.

Lemma all_digit_zeros k : Str.all Re.digit (Str.zeros k) = true.
Proof. induction k as [|k IH]; [done|]. simpl. exact IH. Qed.

(** The decimal writing of [n] has at most [k] digits exactly when
    [n < 10^k] (for [k] at least 1). *)
Lemma pretty_N_go_length_le x s (k : nat) :
  x < 10 ^ N.of_nat k →
  (String.length (pretty_N_go x s) ≤ k + String.length s)%nat.
Proof.
  revert x s. induction k as [|k IH]; intros x s Hx.
  - assert (x = 0) as -> by (simpl in Hx; lia). done.
  - destruct (decide (x = 0)) as [->|Hx0]; [rewrite pretty_N_go_0; lia|].
    rewrite pretty_N_go_step by lia.
    etrans; [apply IH|simpl; lia].
    rewrite Nat2N.inj_succ, N.pow_succ_r' in Hx.
    apply N.Div0.div_lt_upper_bound. lia.
Qed.

Lemma pretty_N_go_length_gt x s (k : nat) :
  10 ^ N.of_nat k ≤ x →
  (k + String.length s < String.length (pretty_N_go x s))%nat.
Proof.
  revert x s. induction k as [|k IH]; intros x s Hx.
  - apply pretty_N_go_length_pos. simpl in Hx. lia.
  - assert (0 < 10 ^ N.of_nat k) by (apply N.neq_0_lt_0, N.pow_nonzero; lia).
    rewrite Nat2N.inj_succ, N.pow_succ_r' in Hx.
    rewrite pretty_N_go_step by lia.
    eapply Nat.le_lt_trans; [|apply IH].
    + simpl. lia.
    + apply N.div_le_lower_bound; lia.
Qed.

Lemma pretty_N_length_le n (k : nat) :
  (0 < k)%nat → n < 10 ^ N.of_nat k → (String.length (pretty n) ≤ k)%nat.
Proof.
  intros Hk Hn. unfold pretty, pretty_N. case_decide; [simpl; lia|].
  etrans; [by apply pretty_N_go_length_le|]. simpl. lia.
Qed.

Lemma pretty_N_length_gt n (k : nat) :
  10 ^ N.of_nat k ≤ n → (k < String.length (pretty n))%nat.
Proof.
  intros Hn. unfold pretty, pretty_N.
  assert (0 < 10 ^ N.of_nat k) by (apply N.neq_0_lt_0, N.pow_nonzero; lia).
  case_decide; [lia|].
  eapply Nat.le_lt_trans; [|by apply pretty_N_go_length_gt]. simpl. lia.
Qed.

(** No leading zero in the decimal writing of a positive number *)
Lemma pretty_N_go_head x s :
  0 < x → ∃ c s', pretty_N_go x s = String c s' ∧ c ≠ "0"%char.
Proof.
  revert s. induction (N.lt_wf_0 x) as [x _ IH]; intros s Hx.
  rewrite pretty_N_go_step by done.
  destruct (decide (x `div` 10 = 0)) as [Hd|Hd].
  - rewrite Hd, pretty_N_go_0. eexists _, _. split; [done|].
    apply N.div_small_iff in Hd; [|done]. rewrite N.mod_small by done.
    assert (x ≠ 0) by lia. by each_digit x.
  - apply IH; [apply N.div_lt; lia|by apply N.neq_0_lt_0].
Qed.

Lemma int_digits_ok s :
  Str.all Re.digit s = true → s ≠ "" → int s = inr (int_digits 0 s).
Proof.
  intros Hs Hne. unfold int. apply String.eqb_neq in Hne. by rewrite Hs, Hne.
Qed.

Lemma format_06_digits n : Str.all Re.digit (format_06 n) = true.
Proof. unfold format_06. by rewrite sall_app, all_digit_zeros, pretty_N_digits. Qed.

Lemma format_06_nonempty n : format_06 n ≠ "".
Proof.
  unfold format_06. intros H. apply (f_equal String.length) in H.
  rewrite slength_app in H. pose proof (pretty_N_nonempty n). simpl in H. lia.
Qed.

Lemma int_format_06 n : int (format_06 n) = inr n.
Proof.
  rewrite int_digits_ok by auto using format_06_digits, format_06_nonempty.
  unfold format_06. by rewrite int_digits_zeros, int_digits_pretty.
Qed.

Lemma format_06_small n :
  n < 1000000 → String.length (format_06 n) = 6%nat.
Proof.
  intros Hn. unfold format_06. rewrite slength_app, length_zeros.
  pose proof (pretty_N_length_le n 6 ltac:(lia) Hn). lia.
Qed.

Lemma format_06_large n :
  1000000 ≤ n → format_06 n = pretty n ∧ (6 < String.length (pretty n))%nat.
Proof.
  intros Hn. pose proof (pretty_N_length_gt n 6 Hn) as Hlen. split; [|done].
  unfold format_06.
  by replace (6 - String.length (pretty n))%nat with 0%nat by lia.
Qed.
End NumFacts.

(** ** Facts on running programs *)

Section RunFacts.
Context {W : Type} (respond : ∀ X, event X → W → X * W).

Lemma run_bind {A B} (m : prog A) (f : A → prog B) st :
  run respond (m ≫= f) st
  = match run respond m st with
    | (inr a, st') => run respond (f a) st'
    | (inl e, st') => (inl e, st')
    end.
Proof.
  unfold mbind, prog_bind. revert st.
  induction m as [a|e|X ev k IH]; intros st; simpl; [done..|].
  destruct (handle respond ev st) as [x st']. apply IH.
Qed.

Lemma run_try_except {A} (m : prog A) h st :
  run respond (try_except m h) st
  = match run respond m st with
    | (inr a, st') => (inr a, st')
    | (inl e, st') => match h e with
                      | Some p => run respond p st'
                      | None => (inl e, st')
                      end
    end.
Proof.
  revert st. induction m as [a|e|X ev k IH]; intros st; simpl; [done| |].
  - by destruct (h e).
  - destruct (handle respond ev st) as [x st']. apply IH.
Qed.

Lemma run_lift {A} (r : exception + A) st : run respond (lift r) st = (r, st).
Proof. by destruct r. Qed.

Lemma run_call {A} (ev : event (exception + A)) st :
  run respond (call ev) st = handle respond ev st.
Proof.
  unfold call. simpl. by destruct (handle respond ev st) as [[e|x] st'].
Qed.

Lemma run_print s st :
  run respond (print s) st = (inr (), State (world st) (console st ++ [Text s])).
Proof. done. Qed.

Lemma run_vis_print {A} t (k : () → prog A) st :
  run respond (Vis (PyPrint t) k) st
  = run respond (k ()) (State (world st) (console st ++ [t])).
Proof. done. Qed.

Lemma run_for_each_nil {A} (body : A → prog unit) st :
  run respond (for_each [] body) st = (inr (), st).
Proof. done. Qed.

Lemma run_for_each_cons {A} (x : A) l (body : A → prog unit) st :
  run respond (for_each (x :: l) body) st
  = match run respond (body x) st with
    | (inr _, st') => run respond (for_each l body) st'
    | (inl e, st') => (inl e, st')
    end.
Proof. simpl. by rewrite run_bind. Qed.

Lemma run_for_each_app {A} (l1 l2 : list A) (body : A → prog unit) st :
  run respond (for_each (l1 ++ l2) body) st
  = match run respond (for_each l1 body) st with
    | (inr _, st') => run respond (for_each l2 body) st'
    | (inl e, st') => (inl e, st')
    end.
Proof.
  revert st. induction l1 as [|x l1 IH]; intros st; [done|].
  rewrite <-app_comm_cons, !run_for_each_cons.
  destruct (run respond (body x) st) as [[e|[]] st']; [done|]. apply IH.
Qed.

(** One entry of the listing: nothing, or one rename and one line *)
Lemma run_loop_body folder_path file_name st :
  run respond (loop_body folder_path file_name) st
  = match new_file_name file_name with
    | inr None => (inr (), st)
    | inr (Some new) =>
        match respond _ (OsRename (join folder_path file_name)
                                  (join folder_path new)) (world st) with
        | (inr _, w) =>
            (inr (), State w (console st ++
               [Text ("Renamed: " +:+ file_name +:+ " -> " +:+ new)]))
        | (inl e, w) => (inl e, State w (console st))
        end
    | inl e => (inl e, st)
    end.
Proof.
  unfold loop_body. rewrite run_bind, run_lift.
  destruct (new_file_name file_name) as [e|[new|]]; [done| |done].
  rewrite run_bind, run_call. simpl.
  by destruct (respond _ _ _) as [[e|[]] w].
Qed.

Lemma run_rename_files_in_folder folder_path st :
  run respond (rename_files_in_folder folder_path) st
  = let report e st' :=
      (inr (), State (world st') (console st' ++
         [Text match e with
               | FileNotFoundError _ =>
                   "The folder '" +:+ folder_path +:+ "' does not exist."
               | _ => "An error occurred: " +:+ exception_str e
               end])) in
    match respond _ (OsListdir folder_path) (world st) with
    | (inl e, w) => report e (State w (console st))
    | (inr file_names, w) =>
        match run respond (for_each file_names (loop_body folder_path))
                (State w (console st)) with
        | (inr _, st') => (inr (), st')
        | (inl e, st') => report e st'
        end
    end.
Proof.
  unfold rename_files_in_folder. rewrite run_try_except, run_bind, run_call.
  simpl. destruct (respond _ _ _) as [[e|file_names] w].
  - by destruct e.
  - destruct (run respond _ _) as [[e|[]] st']; [|done]. by destruct e.
Qed.
End RunFacts.

(** ** The renamer's mapping on file names *)

Section RenamerMap.
Import ReSpec.
Implicit Types (file_name new prefix number suffix : string).

Lemma search_groups file_name prefix number suffix :
  Re.search file_name = Some (prefix, number, suffix) →
  Str.all Re.digit number = true ∧ number ≠ "" ∧
  ∀ pad, Str.all Re.digit pad = true → pad ≠ "" →
         Re.search (prefix +:+ pad +:+ suffix) = Some (prefix, pad, suffix).
Proof.
  intros (u & s' & -> & Hm)%search_inv.
  pose proof Hm as (q & t & rest & _ & _ & _ & _ & Hnum & Hne & _)%match_at_inv.
  split_and!; [done..|]. intros pad Hpad Hpe.
  by apply search_match_at, (match_at_rematch s' _ number).
Qed.

Lemma new_file_name_inv file_name new :
  new_file_name file_name = inr (Some new) →
  ∃ prefix number suffix,
    Str.endswith_any (Str.lower file_name) image_extensions = true ∧
    Re.search file_name = Some (prefix, number, suffix) ∧
    new = prefix +:+ format_06 (int_digits 0 number) +:+ suffix.
Proof.
  unfold new_file_name.
  destruct (Str.endswith_any _ _); [|done].
  destruct (Re.search file_name) as [[[prefix number] suffix]|] eqn:Hs; [|done].
  destruct (search_groups _ _ _ _ Hs) as (Hd & Hne & _).
  rewrite int_digits_ok by done. intros [= <-]. by exists prefix, number, suffix.
Qed.

(** [int] is only given digits: the loop body raises nothing of its own. *)
Lemma new_file_name_no_raise file_name e : new_file_name file_name ≠ inl e.
Proof.
  unfold new_file_name.
  destruct (Str.endswith_any _ _); [|done].
  destruct (Re.search file_name) as [[[prefix number] suffix]|] eqn:Hs; [|done].
  destruct (search_groups _ _ _ _ Hs) as (Hd & Hne & _).
  by rewrite int_digits_ok.
Qed.

Lemma new_file_name_fixed file_name new :
  new_file_name file_name = inr (Some new) →
  new_file_name new = inr (Some new) ∨ new_file_name new = inr None.
Proof.
  intros (prefix & number & suffix & _ & Hs & ->)%new_file_name_inv.
  destruct (search_groups _ _ _ _ Hs) as (_ & _ & Hre).
  unfold new_file_name at 1 2.
  destruct (Str.endswith_any _ _); [left|by right].
  rewrite Hre by auto using format_06_digits, format_06_nonempty.
  by rewrite int_format_06.
Qed.

Lemma renamed_fixed file_name : renamed (renamed file_name) = renamed file_name.
Proof.
  unfold renamed at 2 3.
  destruct (new_file_name file_name) as [e|[new|]] eqn:Hn; try done.
  - unfold renamed. by rewrite Hn.
  - unfold renamed. by destruct (new_file_name_fixed _ _ Hn) as [-> | ->].
  - unfold renamed. by rewrite Hn.
Qed.
End RenamerMap.

Section RenamerPattern.
Import ReSpec.
Implicit Types (file_name new : string).

Lemma search_app u s x : Re.search s = Some x → is_Some (Re.search (u +:+ s)).
Proof.
  intros Hs. induction u as [|c u IH]; [by rewrite sapp_nil_l, Hs|].
  rewrite sapp_cons, search_eq. by destruct (Re.match_at _).
Qed.

Lemma search_has_pattern file_name :
  is_Some (Re.search file_name) ↔ has_pattern file_name.
Proof.
  split.
  - intros [[[prefix number] suffix] (u & s' & -> & Hm)%search_inv].
    apply match_at_inv in Hm
      as (q & t & rest & -> & _ & _ & _ & Hd & Hne & Ht & Hte & _).
    destruct t as [|c t]; [done|]. simpl in Ht. apply andb_true_iff in Ht as [Hc _].
    exists (u +:+ q), number, c, (t +:+ rest).
    split_and!; [|done..]. by rewrite !sapp_assoc, ?sapp_cons.
  - intros (u & d & c & r & -> & Hne & Hd & Hc).
    assert (is_Some (Re.match_at ("_fn" +:+ d +:+ "." +:+ String c r))) as [x Hx].
    { rewrite match_at_eq.
      destruct (Re.star _ _ _) as [x|] eqn:Hstar; [done|].
      pose proof (proj1 (star_none _ _ _) Hstar ""
                    ("_fn" +:+ d +:+ "." +:+ String c r) eq_refl eq_refl) as Hk.
      pose proof (takewhile_dropwhile Re.dot r) as Hr.
      assert (line_end (dropwhile Re.dot r)) as Hend.
      { clear. induction r as [|c r IH]; [by left|]. simpl.
        destruct (Re.dot c) eqn:Hc; [done|].
        apply not_dot_line_feed in Hc as ->. right. eauto. }
      rewrite <-Hr in Hk.
      replace ("_fn" +:+ d +:+ "." +:+ String c (takewhile Re.dot r +:+ dropwhile Re.dot r))
        with ("_fn" +:+ d +:+ "." +:+ String c (takewhile Re.dot r) +:+ dropwhile Re.dot r)
        in Hk by (by rewrite ?sapp_cons).
      rewrite after_fn_intro in Hk; [done..| |done|done].
      simpl. by rewrite Hc, all_takewhile. }
    eapply search_app, search_match_at, Hx.
Qed.

(** On a name without line feed the three groups make up the whole name:
    the renamer rewrites one run of digits and nothing else. *)
Lemma new_file_name_single_line file_name new :
  Str.all Re.dot file_name = true →
  new_file_name file_name = inr (Some new) →
  ∃ q number t,
    file_name = q +:+ "_fn" +:+ number +:+ "." +:+ t ∧
    new = q +:+ "_fn" +:+ format_06 (int_digits 0 number) +:+ "." +:+ t ∧
    Str.all Re.digit number = true ∧ number ≠ "" ∧ t ≠ "".
Proof.
  intros Hline (prefix & number & suffix & _ & Hs & ->)%new_file_name_inv.
  rewrite search_single_line in Hs by done.
  apply match_at_inv in Hs
    as (q & t & rest & -> & -> & -> & _ & Hd & Hne & _ & Hte & Hrest & _).
  exists q, number, t.
  assert (rest = "") as ->.
  { destruct Hrest as [->|[r ->]]; [done|].
    rewrite !sall_app in Hline. simpl in Hline.
    repeat (apply andb_true_iff in Hline as [? Hline] || discriminate). }
  split_and!; [|by rewrite !sapp_assoc|done..].
  by rewrite sapp_nil_r.
Qed.

(** A name without the pattern, or without an image extension, is left. *)
Lemma new_file_name_none file_name :
  new_file_name file_name = inr None ↔
  Str.endswith_any (Str.lower file_name) image_extensions = false
  ∨ ¬ has_pattern file_name.
Proof.
  rewrite <-search_has_pattern. unfold new_file_name.
  destruct (Str.endswith_any _ _); [|split; auto].
  destruct (Re.search file_name) as [[[prefix number] suffix]|] eqn:Hs.
  - destruct (search_groups _ _ _ _ Hs) as (Hd & Hne & _).
    rewrite int_digits_ok by done. split; [done|].
    intros [?|H]; [done|]. destruct H. eauto.
  - split; [|done]. intros _. right. by intros [x ?].
Qed.
End RenamerPattern.

(** ** Facts on the grouper *)

Section SplitFacts.
Implicit Types (s : string).

Lemma split_cons sep s : ∃ w ws, Str.split sep s = w :: ws.
Proof.
  induction s as [|c s (w & ws & IH)]; simpl.
  - by exists "", [].
  - destruct (Ascii.eqb c sep).
    + by exists "", (Str.split sep s).
    + rewrite IH. by exists (String c w), ws.
Qed.

Lemma split_hd sep s : Str.split sep s = hd "" (Str.split sep s) :: tail (Str.split sep s).
Proof. by destruct (split_cons sep s) as (w & ws & ->). Qed.

(** Without the separator the string is the one part. *)
Lemma split_no_sep sep s :
  Str.all (λ c, negb (Ascii.eqb c sep)) s = true → Str.split sep s = [s].
Proof.
  induction s as [|c s IH]; [done|]. simpl.
  intros [Hc Hs]%andb_true_iff. apply negb_true_iff in Hc. rewrite Hc.
  by rewrite IH.
Qed.

End SplitFacts.

Section Grouper.
Local Arguments Str.startswith : simpl never.
Local Arguments Str.split : simpl never.
Local Arguments basename : simpl never.
Implicit Types (images : list string) (key p : string) (limit : Z).

Lemma dict_get_append {V} (d : dict (list V)) k x key :
  dict_get (dict_append d k x) key
  = if String.eqb k key then Some (default [] (dict_get d k) ++ [x])
    else dict_get d key.
Proof.
  induction d as [|[k' v] d IH]; simpl.
  - destruct (String.eqb k key); done.
  - destruct (String.eqb k' k) eqn:Hk'; simpl.
    + apply String.eqb_eq in Hk' as ->. by destruct (String.eqb k key).
    + destruct (String.eqb k' key) eqn:Hkey; simpl; [|done].
      apply String.eqb_eq in Hkey as ->.
      rewrite String.eqb_sym in Hk'. by rewrite Hk'.
Qed.

Lemma dict_get_group_pure images acc key :
  dict_get (group_pure images acc) key
  = match dict_get acc key with
    | Some l0 => Some (l0 ++ members key images)
    | None => match members key images with
              | [] => None
              | l => Some l
              end
    end.
Proof.
  revert acc. induction images as [|p images IH]; intros acc; simpl.
  - destruct (dict_get acc key); [by rewrite app_nil_r|done].
  - unfold members. rewrite filter_cons. fold (members key images).
    destruct (is_dev p) eqn:Hp.
    + rewrite IH, dict_get_append.
      destruct (String.eqb (dev_indicator p) key) eqn:Hk.
      * apply String.eqb_eq in Hk. rewrite decide_True by done. subst key.
        destruct (dict_get acc (dev_indicator p)); simpl; [by rewrite <-app_assoc|done].
      * apply String.eqb_neq in Hk. rewrite decide_False by (intros [_ ?]; done). done.
    + rewrite IH. rewrite decide_False by (intros [? _]; congruence). done.
Qed.

Lemma dict_get_fmap {V} (f : V → V) (d : dict V) key :
  dict_get (fmap (M:=list) (λ entry : string * V, (entry.1, f entry.2)) d) key
  = f <$> dict_get d key.
Proof.
  induction d as [|[k v] d IH]; [done|]. simpl.
  destruct (String.eqb k key); [done|apply IH].
Qed.

Lemma members_dev key images p : p ∈ members key images → is_dev p = true ∧ dev_indicator p = key ∧ p ∈ images.
Proof. unfold members. rewrite list_elem_of_filter. by intros [[? ?] ?]. Qed.

Lemma members_not_dev key images :
  Str.startswith key "Dev" = false → members key images = [].
Proof.
  intros Hkey. unfold members. induction images as [|p images IH]; [done|].
  rewrite filter_cons, IH. rewrite decide_False; [done|].
  unfold is_dev. intros [H <-]. congruence.
Qed.

Lemma elem_of_slice_to {V} (l : list V) limit x : x ∈ slice_to l limit → x ∈ l.
Proof. unfold slice_to. case_match; apply subseteq_take. Qed.

Lemma slice_to_ge {V} (l : list V) limit :
  (Z.of_nat (length l) ≤ limit)%Z → slice_to l limit = l.
Proof.
  intros H. unfold slice_to. rewrite (proj2 (Z.leb_le 0 limit)) by lia.
  apply take_ge. lia.
Qed.

Lemma slice_to_lt {V} (l : list V) limit :
  (0 ≤ limit < Z.of_nat (length l))%Z →
  slice_to l limit = take (Z.to_nat limit) l
  ∧ length (take (Z.to_nat limit) l) = Z.to_nat limit.
Proof.
  intros H. unfold slice_to. rewrite (proj2 (Z.leb_le 0 limit)) by lia.
  split; [done|]. rewrite length_take. lia.
Qed.

(** The result of the function as a dictionary *)
Lemma dict_get_grouped images limit key :
  dict_get (fmap (M:=list) (λ entry : string * list string,
              (entry.1, slice_to entry.2 limit)) (group_pure images [])) key
  = match members key images with
    | [] => None
    | l => Some (slice_to l limit)
    end.
Proof.
  rewrite (dict_get_fmap (λ l, slice_to l limit)), dict_get_group_pure. simpl.
  by destruct (members key images).
Qed.

(** Keys are not repeated. *)
Lemma dict_append_keys {V} (d : dict (list V)) k x :
  (dict_append d k x).*1 = if decide (k ∈ d.*1) then d.*1 else d.*1 ++ [k].
Proof.
  induction d as [|[k' v] d IH].
  - cbn. destruct (decide (k ∈ [])) as [H|H]; [by apply elem_of_nil in H|done].
  - cbn [dict_append]. destruct (String.eqb k' k) eqn:Hk.
    + apply String.eqb_eq in Hk as ->. cbn.
      destruct (decide (k ∈ k :: d.*1)) as [H|H]; [done|].
      destruct H. apply elem_of_cons. by left.
    + apply String.eqb_neq in Hk. cbn. rewrite IH.
      destruct (decide (k ∈ d.*1)) as [Hin|Hin];
        destruct (decide (k ∈ k' :: d.*1)) as [H|H]; try done.
      * destruct H. apply elem_of_cons. by right.
      * apply elem_of_cons in H as [->|H]; done.
Qed.

Lemma group_pure_NoDup images acc : NoDup acc.*1 → NoDup (group_pure images acc).*1.
Proof.
  revert acc. induction images as [|p images IH]; intros acc Hacc; [done|]. simpl.
  destruct (is_dev p); [|by apply IH]. apply IH. rewrite dict_append_keys.
  case_decide; [done|]. apply NoDup_app. split_and!; [done| |apply NoDup_singleton].
  intros k Hk ->%list_elem_of_singleton. done.
Qed.

Lemma dict_get_elem_of {V} (d : dict V) k v :
  NoDup d.*1 → (k, v) ∈ d → dict_get d k = Some v.
Proof.
  induction d as [|[k' v'] d IH]; simpl; [by intros _ ?%elem_of_nil|].
  intros [Hk' Hd]%NoDup_cons [[= -> ->]|Hin]%elem_of_cons.
  - by rewrite String.eqb_refl.
  - destruct (String.eqb k' k) eqn:Hk; [|by apply IH].
    apply String.eqb_eq in Hk as ->. destruct Hk'.
    apply list_elem_of_fmap. by exists (k, v).
Qed.

Lemma grouped_NoDup images limit :
  NoDup (fmap (M:=list) (λ entry : string * list string,
           (entry.1, slice_to entry.2 limit)) (group_pure images [])).*1.
Proof.
  rewrite <-list_fmap_compose.
  apply (group_pure_NoDup images []), NoDup_nil_2.
Qed.

Context {W : Type} (respond : ∀ X, event X → W → X * W).

Lemma run_group_loop images acc st :
  run respond (group_loop images acc) st
  = (inr (group_pure images acc), State (world st) (console st ++ skipped images)).
Proof.
  revert acc st. induction images as [|p images IH]; intros acc st; simpl.
  - unfold skipped. simpl. rewrite app_nil_r. by destruct st.
  - unfold is_dev, dev_indicator. rewrite (split_hd "_" (basename p)). simpl.
    destruct (Str.startswith (hd "" (Str.split "_" (basename p))) "Dev") eqn:Hdev.
    + rewrite IH. unfold skipped. rewrite filter_cons.
      rewrite decide_False; [done|]. unfold is_dev, dev_indicator. congruence.
    + rewrite run_vis_print, IH. simpl. unfold skipped. rewrite filter_cons.
      rewrite decide_True by (unfold is_dev, dev_indicator; congruence).
      simpl. by rewrite <-app_assoc.
Qed.

Lemma run_group_images_by_developer images limit st :
  run respond (group_images_by_developer images limit) st
  = (inr (fmap (M:=list) (λ entry : string * list string,
                            (entry.1, slice_to entry.2 limit)) (group_pure images [])),
     State (world st) (console st ++ skipped images)).
Proof.
  unfold group_images_by_developer. by rewrite run_bind, run_group_loop.
Qed.
End Grouper.

(** ** Facts on the encoder and on the pool *)

Section Encoder.
Context {W : Type} (respond : ∀ X, event X → W → X * W).
Implicit Types (group : list string) (group_index : N) (frame_rate : Z).
Implicit Types (temp_dir ffmpeg_path : string) (st : state W).

(** One run of [create_video_from_group], call by call *)
Lemma run_create_video_from_group group group_index frame_rate temp_dir ffmpeg_path st :
  run respond
    (create_video_from_group group group_index frame_rate temp_dir ffmpeg_path) st
  = match respond _ (OpenWrite (manifest_path temp_dir group_index)
                       (manifest_lines group)) (world st) with
    | (inl e, w) => (inl e, State w (console st))
    | (inr _, w) =>
        match respond _ (SubprocessRun
                 (encoder_cmd group_index frame_rate temp_dir ffmpeg_path)) w with
        | (inr _, w') =>
            let '(now, w'') := respond _ (TimeStrftime "%H:%M:%S") w' in
            (inr (clip_path temp_dir group_index),
             State w'' (console st ++
               [Text ("[" +:+ now +:+ "] Created video for group "
                      +:+ pretty (group_index + 1))]))
        | (inl (CalledProcessError rc err msg), w') =>
            let line := Text ("Error while creating video for group "
                              +:+ pretty (group_index + 1) +:+ ": " +:+ msg) in
            match bytes_decode err with
            | inr decoded =>
                (inr (clip_path temp_dir group_index),
                 State w' (console st ++
                   [line; TextDecoded "FFmpeg stderr: " decoded]))
            | inl e => (inl e, State w' (console st ++ [line]))
            end
        | (inl e, w') => (inl e, State w' (console st))
        end
    end.
Proof.
  unfold create_video_from_group, create_ffmpeg_input_file.
  rewrite !run_bind, run_call. cbn [handle].
  fold (manifest_lines group).
  destruct (respond _ (OpenWrite _ _) _) as [[e|[]] w]; [done|].
  cbn [run]. rewrite run_bind, run_try_except, run_bind, run_call.
  cbn [handle world console].
  fold (encoder_cmd group_index frame_rate temp_dir ffmpeg_path).
  destruct (respond _ (SubprocessRun _) _) as [[e|cp] w'].
  - destruct e as [| | | | |rc err msg]; try done.
    rewrite run_bind, run_print, run_bind, run_lift. cbn [world console exception_str].
    destruct (bytes_decode err) as [e|decoded]; [done|].
    rewrite run_vis_print. cbn [run world console]. by rewrite <-app_assoc.
  - rewrite run_bind. cbn [run handle world console].
    destruct (respond _ (TimeStrftime _) _) as [now w'']. by rewrite run_print.
Qed.

(** The encoder exits with a status that is not zero: the path is returned
    exactly when the bytes on its error stream are well-formed UTF-8;
    otherwise the decoding raises out of the handler. *)
Lemma create_video_from_group_on_failure
    group group_index frame_rate temp_dir ffmpeg_path st w rc err msg w' :
  respond _ (OpenWrite (manifest_path temp_dir group_index) (manifest_lines group))
          (world st) = (inr (), w) →
  respond _ (SubprocessRun (encoder_cmd group_index frame_rate temp_dir ffmpeg_path)) w
  = (inl (CalledProcessError rc err msg), w') →
  (run respond
     (create_video_from_group group group_index frame_rate temp_dir ffmpeg_path) st).1
  = if utf8_valid (Byte.to_N <$> err) then inr (clip_path temp_dir group_index)
    else inl (UnicodeDecodeError "'utf-8' codec can't decode bytes").
Proof.
  intros Hw Hr. rewrite run_create_video_from_group, Hw, Hr.
  unfold bytes_decode. by destruct (utf8_valid _).
Qed.
End Encoder.

Section Pool.
Context {W : Type} (respond : ∀ X, event X → W → X * W).
Context {A : Type} (P : ∀ X, event X → X → Prop) (raises : bool).
Hypothesis answers : ∀ X (ev : event X) st, P X ev (handle respond ev st).1.
Implicit Types (v : A) (m : prog A) (vs : list A) (tasks : list (prog A)).
Implicit Types (st : state W).

Lemma ends_with_run v m st : ends_with P raises v m → outcome raises v (run respond m st).1.
Proof.
  intros Hm. revert st. induction Hm as [|e He|X ev k _ IH]; intros st; simpl.
  - by left.
  - right. eauto.
  - pose proof (answers X ev st) as Hx.
    destruct (handle respond ev st) as [x st']. by apply IH.
Qed.

Lemma ends_with_vis_inv v X (ev : event X) (k : X → prog A) :
  ends_with P raises v (Vis ev k) → ∀ x, P X ev x → ends_with P raises v (k x).
Proof.
  intros H.
  change (match Vis ev k with
          | Vis ev' k' => ∀ x, P _ ev' x → ends_with P raises v (k' x)
          | _ => True
          end).
  by destruct H.
Qed.

Lemma ends_with_pool_step i vs tasks st :
  Forall2 (ends_with P raises) vs tasks →
  Forall2 (ends_with P raises) vs (pool_step respond i tasks st).1.
Proof.
  intros Hall. unfold pool_step.
  destruct (tasks !! i) as [[a|e|X ev k]|] eqn:Hi; try done.
  pose proof (answers X ev st) as Hx.
  destruct (handle respond ev st) as [x st']. simpl in *.
  destruct (Forall2_lookup_r _ _ _ _ _ Hall Hi) as (v & Hv & Hends).
  rewrite <-(list_insert_id vs i v) by done.
  apply Forall2_insert; [done|]. by apply (ends_with_vis_inv v X ev k).
Qed.

Lemma ends_with_pool_run schedule vs tasks st :
  Forall2 (ends_with P raises) vs tasks →
  Forall2 (ends_with P raises) vs (pool_run respond schedule tasks st).1.
Proof.
  revert tasks st. induction schedule as [|i schedule IH]; intros tasks st Hall; [exact Hall|].
  simpl. pose proof (ends_with_pool_step i vs tasks st Hall) as Hstep.
  destruct (pool_step respond i tasks st) as [tasks' st']. by apply IH.
Qed.

Lemma ends_with_pool_results started cancel i vs tasks st :
  Forall2 (ends_with P raises) vs tasks →
  (raises = false → (pool_results respond started cancel i tasks st).1 = inr vs)
  ∧ (∀ l, (pool_results respond started cancel i tasks st).1 = inr l → l = vs).
Proof.
  intros Hall. revert i st.
  induction Hall as [|v m vs tasks Hm _ IH]; intros i st; simpl.
  - split; [done|by intros l [= <-]].
  - pose proof (ends_with_run v m st Hm) as Hr.
    destruct (run respond m st) as [r st']. simpl in Hr.
    destruct Hr as [->|[Hraises [e ->]]].
    + specialize (IH (S i) st').
      destruct (pool_results respond started cancel (S i) tasks st') as [rs st''].
      simpl in *. destruct IH as [IH1 IH2]. split.
      * intros Hf. by rewrite IH1.
      * intros l. destruct rs as [e|l']; [done|]. intros [= <-]. by rewrite (IH2 l').
    + simpl. split; [congruence|done].
Qed.

(** The pool, whatever the schedule: each task ends as it would alone. *)
Lemma executor_map_ends {B} schedule cancel (f : B → prog A) (g : B → A) (l : list B) st :
  (∀ b, ends_with P raises (g b) (f b)) →
  (raises = false → (executor_map respond schedule cancel f l st).1 = inr (g <$> l))
  ∧ (∀ l', (executor_map respond schedule cancel f l st).1 = inr l' → l' = g <$> l).
Proof.
  intros Hf. unfold executor_map.
  assert (Forall2 (ends_with P raises) (g <$> l) (f <$> l)) as Hall.
  { apply Forall2_fmap, Forall_Forall2_diag, Forall_forall. intros b _. apply Hf. }
  pose proof (ends_with_pool_run schedule _ _ st Hall) as Hrun. revert Hrun.
  destruct (pool_run respond schedule (f <$> l) st) as [tasks st']. simpl. intros Hrun.
  by apply ends_with_pool_results.
Qed.
End Pool.

Section EncoderEnds.
Implicit Types (group : list string) (group_index : N) (frame_rate : Z).
Implicit Types (temp_dir ffmpeg_path : string).

(** Whatever the answers, it returns that path or raises. *)
Lemma create_video_from_group_returns_or_raises
    group group_index frame_rate temp_dir ffmpeg_path :
  ends_with any_answer true (clip_path temp_dir group_index)
    (create_video_from_group group group_index frame_rate temp_dir ffmpeg_path).
Proof.
  unfold create_video_from_group, create_ffmpeg_input_file, call, print, mbind, prog_bind.
  cbn [bind try_except]. apply ends_vis. intros [e|[]] _; [by apply ends_raise|].
  cbn [bind try_except]. apply ends_vis. intros [e|cp] _.
  - destruct e as [| | | | |rc err msg]; try (by apply ends_raise).
    cbn [bind try_except]. apply ends_vis. intros [] _.
    destruct (bytes_decode err) as [e|decoded]; cbn [bind lift];
      [by apply ends_raise|].
    apply ends_vis. intros [] _. apply ends_ret.
  - cbn [bind try_except]. apply ends_vis. intros now _.
    cbn [bind try_except]. apply ends_vis. intros [] _. apply ends_ret.
Qed.

Lemma enumerate_from_fmap {A B} (f : N → B) (l : list A) (i : N) :
  (λ ig : N * A, f ig.1) <$> enumerate_from i l
  = (λ k, f (i + N.of_nat k)) <$> seq 0 (length l).
Proof.
  revert i. induction l as [|x l IH]; intros i; [done|]. simpl.
  rewrite N.add_0_r. f_equal. rewrite IH, <-fmap_S_seq, <-list_fmap_compose.
  apply list_fmap_ext. intros _ k _. simpl. f_equal. lia.
Qed.

(** Names made from different indices differ. *)
Lemma digits_dot_inj (a b x y : string) :
  Str.all Re.digit a = true → Str.all Re.digit b = true →
  a +:+ "." +:+ x = b +:+ "." +:+ y → a = b ∧ x = y.
Proof.
  intros Ha Hb Heq.
  pose proof (f_equal (ReSpec.takewhile Re.digit) Heq) as Ht.
  rewrite (takewhile_app _ a), (takewhile_app _ b) in Ht by done.
  simpl in Ht. rewrite !sapp_nil_r in Ht. subst b. split; [done|].
  apply (inj (String.app a)) in Heq. by injection Heq.
Qed.

Lemma join_inj temp_dir (a b : string) :
  Str.startswith a "/" = false → Str.startswith b "/" = false →
  join temp_dir a = join temp_dir b → a = b.
Proof.
  unfold join. intros -> ->.
  destruct (_ || _); intros H.
  - by apply (inj (String.app temp_dir)) in H.
  - apply (inj (String.app temp_dir)) in H. by apply (inj (String.app "/")) in H.
Qed.

Lemma group_file_inj temp_dir (i j : N) (ext1 ext2 : string) :
  join temp_dir ("group_" +:+ pretty i +:+ "." +:+ ext1)
  = join temp_dir ("group_" +:+ pretty j +:+ "." +:+ ext2) →
  i = j ∧ ext1 = ext2.
Proof.
  intros H%join_inj; [|done..].
  apply (inj (String.app "group_")) in H.
  apply digits_dot_inj in H as [Hp ->]; [|apply pretty_N_digits..].
  split; [|done]. by apply (inj pretty).
Qed.
End EncoderEnds.

Section Grid.
Implicit Types (videos : list string).

(** [sum(lists, [])] is the concatenation. *)
Lemma input_cmds_concat videos :
  input_cmds videos = mjoin ((λ video, ["-i"; video]) <$> videos).
Proof.
  unfold input_cmds.
  assert (∀ (ls : list (list string)) acc,
            foldl (λ acc l, acc ++ l) acc ls = acc ++ mjoin ls) as H.
  { induction ls as [|l ls IH]; intros acc; simpl; [by rewrite app_nil_r|].
    by rewrite IH, app_assoc. }
  by rewrite H.
Qed.
End Grid.

(** ** The renamer on a folder of the machine *)

Section PathFacts.
Local Arguments Ascii.eqb : simpl never.
Implicit Types (p k n a b : string).

Lemma basename_no_slash k : Str.all no_slash (basename k) = true.
Proof.
  induction k as [|c k IH]; [done|]. simpl.
  destruct (Str.all _ k) eqn:Hk; [|done].
  destruct (Ascii.eqb c "/") eqn:Hc; [done|]. simpl.
  unfold no_slash at 1. by rewrite Hc.
Qed.

Lemma no_slash_startswith n : Str.all no_slash n = true → Str.startswith n "/" = false.
Proof.
  destruct n as [|c n]; [done|]. simpl. unfold no_slash at 1.
  intros [Hc _]%andb_true_iff. apply negb_true_iff in Hc.
  rewrite Ascii.eqb_sym. by rewrite Hc.
Qed.

Lemma join_inj_no_slash p a b :
  Str.all no_slash a = true → Str.all no_slash b = true →
  join p a = join p b → a = b.
Proof. intros Ha Hb. apply join_inj; by apply no_slash_startswith. Qed.

Lemma entry_of_Some p k n :
  entry_of p k = Some n → k = join p n ∧ Str.all no_slash n = true.
Proof.
  unfold entry_of. case_decide as Hk; [|done]. intros [= <-].
  split; [done|apply basename_no_slash].
Qed.

Lemma digit_no_slash c : Re.digit c = true → no_slash c = true.
Proof.
  unfold Re.digit, no_slash, Str.code. intros [H1 H2]%andb_true_iff.
  apply negb_true_iff, Ascii.eqb_neq. intros ->. vm_compute in H1. discriminate.
Qed.

(** The new name is made of characters of the old name and of digits. *)
Lemma new_file_name_no_slash a b :
  Str.all no_slash a = true → new_file_name a = inr (Some b) →
  Str.all no_slash b = true.
Proof.
  intros Ha (prefix & number & suffix & _ & Hs & ->)%new_file_name_inv.
  apply search_inv in Hs as (u & s' & -> & Hm).
  apply match_at_inv in Hm as (q & t & rest & -> & -> & -> & _).
  rewrite !sall_app in Ha. rewrite !sall_app.
  repeat (apply andb_true_iff in Ha as [? Ha]).
  rewrite (all_impl Re.digit no_slash (format_06 _) digit_no_slash)
    by apply format_06_digits.
  repeat (apply andb_true_iff; split); done.
Qed.

Lemma NoDup_omap {A B} (f : A → option B) (l : list A) :
  (∀ x y z, f x = Some z → f y = Some z → x = y) → NoDup l → NoDup (omap f l).
Proof.
  intros Hinj. induction 1 as [|x l Hx _ IH]; simpl; [constructor|].
  destruct (f x) as [z|] eqn:Hz; [|done]. constructor; [|done].
  intros (y & Hy & Hfy)%list_elem_of_omap.
  by rewrite (Hinj x y z) in Hx.
Qed.

Lemma elem_of_entries p (w : disk) n :
  n ∈ entries p w ↔ ∃ k, is_Some (files w !! k) ∧ entry_of p k = Some n.
Proof.
  unfold entries. rewrite list_elem_of_omap.
  by setoid_rewrite elem_of_elements; setoid_rewrite elem_of_dom.
Qed.

Lemma NoDup_entries p (w : disk) : NoDup (entries p w).
Proof.
  apply NoDup_omap; [|apply NoDup_elements].
  intros x y z [-> _]%entry_of_Some [-> _]%entry_of_Some. done.
Qed.
End PathFacts.

Section FolderPass.
Context (m : machine) (p : string).
Hypothesis no_denied : denied m = ∅.
Implicit Types (w : disk) (c : list text) (rem : list string) (n k : string).

Lemma rename_on_machine w a b lines :
  files w !! a = Some lines →
  respond_machine m _ (OsRename a b) w
  = (inr (), Disk (dirs w) (<[b := lines]> (delete a (files w)))).
Proof.
  intros Ha. simpl. rewrite no_denied.
  rewrite decide_False by (intros [?%not_elem_of_empty|?%not_elem_of_empty]; done).
  by rewrite Ha.
Qed.

(** The first pass: every entry still to be visited is there, and every
    entry that is there is still to be visited or settled. *)
Lemma first_pass rem w c :
  NoDup rem →
  (∀ n, n ∈ rem → Str.all no_slash n = true ∧ is_Some (files w !! join p n)) →
  (∀ k n, is_Some (files w !! k) → entry_of p k = Some n → n ∈ rem ∨ settled n) →
  ∃ w' c',
    run (respond_machine m) (for_each rem (loop_body p)) (State w c)
    = (inr (), State w' c')
    ∧ dirs w' = dirs w
    ∧ ∀ k n, is_Some (files w' !! k) → entry_of p k = Some n → settled n.
Proof.
  revert w c. induction rem as [|a rem IH]; intros w c Hnd Hrem Hall.
  - exists w, c. split_and!; [done..|].
    intros k n Hk Hn. destruct (Hall k n Hk Hn) as [?%elem_of_nil|?]; done.
  - apply NoDup_cons in Hnd as [Ha Hnd].
    destruct (Hrem a) as [Hslash [lines Hlines]]; [apply elem_of_cons; by left|].
    rewrite run_for_each_cons, run_loop_body.
    destruct (new_file_name a) as [e|[b|]] eqn:Hnew.
    + by destruct (new_file_name_no_raise a e).
    + cbn [world console]. rewrite (rename_on_machine w _ _ lines) by done.
      pose proof (new_file_name_no_slash a b Hslash Hnew) as Hb.
      destruct (IH (Disk (dirs w) (<[join p b := lines]> (delete (join p a) (files w))))
                  (c ++ [Text ("Renamed: " +:+ a +:+ " -> " +:+ b)]) Hnd)
        as (w' & c' & Hrun & Hdirs & Hsettled).
      * intros n Hn. destruct (Hrem n) as [Hns Hin]; [apply elem_of_cons; by right|].
        split; [done|]. cbn [files].
        apply lookup_insert_is_Some'. right.
        apply lookup_delete_is_Some. split; [|done].
        intros Heq%join_inj_no_slash; [|done..]. congruence.
      * intros k n Hk Hn. cbn [files] in Hk.
        apply lookup_insert_is_Some in Hk as [<-|[Hne Hk]].
        -- right. apply entry_of_Some in Hn as [Hk Hns].
           apply join_inj_no_slash in Hk as <-; [|done..].
           destruct (new_file_name_fixed a b Hnew); [by right|by left].
        -- apply lookup_delete_is_Some in Hk as [Hka Hk].
           destruct (Hall k n Hk Hn) as [[->|Hin]%elem_of_cons|Hs]; [|by left|by right].
           apply entry_of_Some in Hn as [-> _]. done.
      * exists w', c'. by split_and!.
    + destruct (IH w c Hnd) as (w' & c' & Hrun & Hdirs & Hsettled).
      * intros n Hn. apply Hrem, elem_of_cons. by right.
      * intros k n Hk Hn.
        destruct (Hall k n Hk Hn) as [[->|Hin]%elem_of_cons|Hs];
          [right; by left|by left|by right].
      * exists w', c'. by split_and!.
Qed.

(** A pass over settled entries changes nothing on the disk, and prints
    only renames of a name to itself. *)
Lemma settled_pass rem w c :
  (∀ n, n ∈ rem → settled n ∧ is_Some (files w !! join p n)) →
  ∃ extra,
    run (respond_machine m) (for_each rem (loop_body p)) (State w c)
    = (inr (), State w (c ++ extra))
    ∧ Forall (λ t, ∃ n, t = Text ("Renamed: " +:+ n +:+ " -> " +:+ n)) extra.
Proof.
  revert c. induction rem as [|a rem IH]; intros c Hrem.
  { exists []. by rewrite app_nil_r. }
  destruct (Hrem a) as [Hs [lines Hlines]]; [apply elem_of_cons; by left|].
  assert (∀ n, n ∈ rem → settled n ∧ is_Some (files w !! join p n)) as Hrem'.
  { intros n Hn. apply Hrem, elem_of_cons. by right. }
  rewrite run_for_each_cons, run_loop_body.
  destruct Hs as [-> | ->]; [by apply IH|].
  cbn [world console]. rewrite (rename_on_machine w _ _ lines) by done.
  rewrite insert_delete_id by done.
  replace (Disk (dirs w) (files w)) with w by (by destruct w).
  destruct (IH (c ++ [Text ("Renamed: " +:+ a +:+ " -> " +:+ a)]) Hrem')
    as (extra & -> & Hextra).
  exists (Text ("Renamed: " +:+ a +:+ " -> " +:+ a) :: extra).
  split; [by rewrite <-app_assoc|]. constructor; [by exists a|done].
Qed.

Hypothesis listing_perm : ∀ l, listing_order m l ≡ₚ l.

(** Two passes in a row over the folder [p]: the second leaves the disk as
    the first left it; when the folder is there it prints nothing but
    renames of a name to itself. *)
Lemma second_pass w c :
  let st1 := (run (respond_machine m) (rename_files_in_folder p) (State w c)).2 in
  let st2 := (run (respond_machine m) (rename_files_in_folder p) st1).2 in
  world st2 = world st1
  ∧ (p ∈ dirs w →
     ∃ extra, console st2 = console st1 ++ extra
       ∧ Forall (λ t, ∃ n, t = Text ("Renamed: " +:+ n +:+ " -> " +:+ n)) extra).
Proof.
  intros st1 st2. unfold st2, st1. clear st1 st2.
  rewrite !run_rename_files_in_folder. cbn [respond_machine world console].
  destruct (decide (p ∈ dirs w)) as [Hp|Hp].
  - destruct (first_pass (listing_order m (entries p w)) w c)
      as (w1 & c1 & -> & Hdirs & Hsettled).
    + rewrite listing_perm. apply NoDup_entries.
    + intros n. rewrite listing_perm.
      intros (k & Hk & [-> Hn]%entry_of_Some)%elem_of_entries. done.
    + intros k n Hk Hn. left. rewrite listing_perm. apply elem_of_entries. eauto.
    + cbn [snd world console]. rewrite Hdirs, decide_True by done.
      destruct (settled_pass (listing_order m (entries p w1)) w1 c1)
        as (extra & -> & Hextra).
      * intros n. rewrite listing_perm.
        intros (k & Hk & Hn)%elem_of_entries. split; [by eapply Hsettled|].
        by apply entry_of_Some in Hn as [<- _].
      * split; [done|]. intros _. by exists extra.
  - cbn [snd world console]. rewrite decide_False by done. split; [done|done].
Qed.
End FolderPass.

(** * The calls of a run *)

Section StepsFacts.
Context {A : Type}.
Implicit Types (m : prog A) (t : list performed).

Lemma steps_trans m1 t1 m2 t2 m3 :
  steps m1 t1 m2 → steps m2 t2 m3 → steps m1 (t1 ++ t2) m3.
Proof.
  induction 1 as [m|X ev k x t m' _ IH]; intros H2; [done|].
  rewrite <-app_assoc. apply steps_vis. by apply IH.
Qed.

Lemma steps_one X (ev : event X) (k : X → prog A) x :
  steps (Vis ev k) (performed_of ev x) (k x).
Proof.
  rewrite <-(app_nil_r (performed_of ev x)). apply steps_vis, steps_done.
Qed.

Lemma steps_ret_inv a t m : steps (Ret a) t m → t = [] ∧ m = Ret a.
Proof.
  intros H.
  change (match Ret a with
          | Ret a' => t = [] ∧ m = Ret a'
          | _ => True
          end).
  by destruct H as [[]|].
Qed.

Lemma steps_raise_inv e t m : steps (Raise e) t m → t = [] ∧ m = Raise e.
Proof.
  intros H.
  change (match Raise (A:=A) e with
          | Raise e' => t = [] ∧ m = Raise e'
          | _ => True
          end).
  by destruct H as [[]|].
Qed.

Lemma steps_vis_inv X (ev : event X) (k : X → prog A) t m :
  steps (Vis ev k) t m →
  (t = [] ∧ m = Vis ev k)
  ∨ ∃ x t', t = performed_of ev x ++ t' ∧ steps (k x) t' m.
Proof.
  intros H.
  change (match Vis ev k with
          | Vis ev' k' =>
              (t = [] ∧ m = Vis ev' k')
              ∨ ∃ x t', t = performed_of ev' x ++ t' ∧ steps (k' x) t' m
          | _ => True
          end).
  destruct H as [[]|]; [done|done|by left|]. right. eauto.
Qed.
End StepsFacts.

Section Recorded.
Context {W : Type} (respond : ∀ X, event X → W → X * W).
Implicit Types (st : state (W * list performed)).

Lemma handle_recorded X (ev : event X) st :
  calls (handle (recorded respond) ev st).2
  = calls st ++ performed_of ev (handle (recorded respond) ev st).1.
Proof.
  unfold calls, recorded.
  destruct ev; cbn [handle]; try (by destruct (respond _ _ _)).
  cbn. by rewrite app_nil_r.
Qed.

(** A run makes the calls of a trace of the program, to its end. *)
Lemma run_recorded {A} (m : prog A) st :
  ∃ t, calls (run (recorded respond) m st).2 = calls st ++ t
       ∧ steps m t (lift (run (recorded respond) m st).1).
Proof.
  revert st. induction m as [a|e|X ev k IH]; intros st.
  - exists []. cbn. split; [by rewrite app_nil_r|apply steps_done].
  - exists []. cbn. split; [by rewrite app_nil_r|apply steps_done].
  - cbn [run]. pose proof (handle_recorded X ev st) as Hh.
    destruct (handle (recorded respond) ev st) as [x st']. cbn [fst snd] in Hh.
    destruct (IH x st') as (t & Ht & Hs).
    exists (performed_of ev x ++ t). split.
    + by rewrite Ht, Hh, <-app_assoc.
    + by apply steps_vis.
Qed.
End Recorded.

Section Forget.
Context {W : Type} (respond : ∀ X, event X → W → X * W).
Implicit Types (st : state (W * list performed)).

(** Keeping the list of the calls changes nothing else: answers, results,
    world and console are those of the environment alone. *)
Lemma handle_forget X (ev : event X) st :
  (handle (recorded respond) ev st).1 = (handle respond ev (forget st)).1
  ∧ forget (handle (recorded respond) ev st).2 = (handle respond ev (forget st)).2.
Proof.
  unfold forget, recorded.
  destruct ev; cbn [handle world console fst snd];
    try (by destruct (respond _ _ _)).
  done.
Qed.

Lemma run_forget {A} (m : prog A) st :
  (run (recorded respond) m st).1 = (run respond m (forget st)).1
  ∧ forget (run (recorded respond) m st).2 = (run respond m (forget st)).2.
Proof.
  revert st. induction m as [a|e|X ev k IH]; intros st; [done..|].
  cbn [run]. destruct (handle_forget X ev st) as [H1 H2].
  destruct (handle (recorded respond) ev st) as [x st1].
  destruct (handle respond ev (forget st)) as [x' st1'].
  cbn [fst snd] in *. subst x' st1'. apply IH.
Qed.

Lemma pool_step_forget {A} i (tasks : list (prog A)) st :
  (pool_step (recorded respond) i tasks st).1 = (pool_step respond i tasks (forget st)).1
  ∧ forget (pool_step (recorded respond) i tasks st).2
    = (pool_step respond i tasks (forget st)).2.
Proof.
  unfold pool_step. destruct (tasks !! i) as [[a|e|X ev k]|]; try done.
  destruct (handle_forget X ev st) as [H1 H2].
  destruct (handle (recorded respond) ev st) as [x st1].
  destruct (handle respond ev (forget st)) as [x' st1'].
  cbn [fst snd] in *. by subst x' st1'.
Qed.

Lemma pool_run_forget {A} schedule (tasks : list (prog A)) st :
  (pool_run (recorded respond) schedule tasks st).1
  = (pool_run respond schedule tasks (forget st)).1
  ∧ forget (pool_run (recorded respond) schedule tasks st).2
    = (pool_run respond schedule tasks (forget st)).2.
Proof.
  revert tasks st. induction schedule as [|i schedule IH]; intros tasks st; [done|].
  cbn [pool_run]. destruct (pool_step_forget i tasks st) as [H1 H2].
  destruct (pool_step (recorded respond) i tasks st) as [tasks1 st1].
  destruct (pool_step respond i tasks (forget st)) as [tasks1' st1'].
  cbn [fst snd] in *. subst tasks1' st1'. apply IH.
Qed.

Lemma pool_drain_forget {A} started cancel i (tasks : list (prog A)) st :
  forget (pool_drain (recorded respond) started cancel i tasks st)
  = pool_drain respond started cancel i tasks (forget st).
Proof.
  revert i st. induction tasks as [|m tasks IH]; intros i st; [done|].
  cbn [pool_drain]. rewrite IH. destruct (started i || negb (cancel i)); [|done].
  by destruct (run_forget m st) as [_ ->].
Qed.

Lemma pool_results_forget {A} started cancel i (tasks : list (prog A)) st :
  (pool_results (recorded respond) started cancel i tasks st).1
  = (pool_results respond started cancel i tasks (forget st)).1
  ∧ forget (pool_results (recorded respond) started cancel i tasks st).2
    = (pool_results respond started cancel i tasks (forget st)).2.
Proof.
  revert i st. induction tasks as [|m tasks IH]; intros i st; [done|].
  cbn [pool_results]. destruct (run_forget m st) as [H1 H2].
  destruct (run (recorded respond) m st) as [r st1].
  destruct (run respond m (forget st)) as [r' st1'].
  cbn [fst snd] in *. subst r' st1'. destruct r as [e|a].
  - cbn [fst snd]. split; [done|apply pool_drain_forget].
  - destruct (IH (S i) st1) as [H3 H4].
    destruct (pool_results (recorded respond) started cancel (S i) tasks st1)
      as [rs st2].
    destruct (pool_results respond started cancel (S i) tasks (forget st1))
      as [rs' st2'].
    cbn [fst snd] in *. by subst rs' st2'.
Qed.

Lemma executor_map_forget {A B} schedule cancel (f : B → prog A) (l : list B) st :
  (executor_map (recorded respond) schedule cancel f l st).1
  = (executor_map respond schedule cancel f l (forget st)).1
  ∧ forget (executor_map (recorded respond) schedule cancel f l st).2
    = (executor_map respond schedule cancel f l (forget st)).2.
Proof.
  unfold executor_map. destruct (pool_run_forget schedule (f <$> l) st) as [H1 H2].
  destruct (pool_run (recorded respond) schedule (f <$> l) st) as [tasks1 st1].
  destruct (pool_run respond schedule (f <$> l) (forget st)) as [tasks1' st1'].
  cbn [fst snd] in *. subst tasks1' st1'. apply pool_results_forget.
Qed.
End Forget.

Section Traced.
Context {A : Type}.
Implicit Types (tasks : list (prog A)) (traces : list (list performed)).
Implicit Types (new : list performed).

Lemma Forall_sublist {B} (P : B → Prop) (l1 l2 : list B) :
  sublist l1 l2 → Forall P l2 → Forall P l1.
Proof.
  induction 1 as [|x l1 l2 _ IH|x l1 l2 _ IH]; [done|..].
  - intros [? ?]%Forall_cons. constructor; auto.
  - intros [? ?]%Forall_cons. auto.
Qed.

Lemma traced_nil : traced (A:=A) [] [] [] [].
Proof. split_and!; [constructor|done|constructor]. Qed.

Lemma traced_cons m0 t m tasks0 traces tasks new :
  steps m0 t m → traced tasks0 traces tasks new →
  traced (m0 :: tasks0) (t :: traces) (m :: tasks) (t ++ new).
Proof.
  intros Hs (H3 & Hp & Hsub). split_and!.
  - by constructor.
  - by rewrite Hp.
  - constructor; [by apply sublist_inserts_r|].
    eapply Forall_impl; [exact Hsub|]. intros t' Ht'. by apply sublist_inserts_l.
Qed.

Lemma traced_refl tasks : traced tasks (replicate (length tasks) []) tasks [].
Proof.
  induction tasks as [|m tasks IH]; [apply traced_nil|].
  apply (traced_cons m [] m _ _ _ []); [apply steps_done|done].
Qed.

Lemma mjoin_zip_with_app traces1 traces2 :
  length traces1 = length traces2 →
  mjoin (zip_with app traces1 traces2) ≡ₚ mjoin traces1 ++ mjoin traces2.
Proof.
  revert traces2. induction traces1 as [|t1 traces1 IH]; intros [|t2 traces2] Hl;
    try done.
  cbn [zip_with]. change (mjoin (?x :: ?l)) with (x ++ mjoin l).
  rewrite IH by (cbn in Hl; lia). rewrite <-!app_assoc.
  apply Permutation_app_head. rewrite !app_assoc.
  apply Permutation_app_tail, Permutation_app_comm.
Qed.

(** First the calls of [new1], then those of [new2]. *)
Lemma traced_trans tasks0 traces1 tasks1 new1 traces2 tasks2 new2 :
  traced tasks0 traces1 tasks1 new1 → traced tasks1 traces2 tasks2 new2 →
  traced tasks0 (zip_with app traces1 traces2) tasks2 (new1 ++ new2).
Proof.
  intros (H1 & Hp1 & Hs1) (H2 & Hp2 & Hs2). split_and!.
  - clear Hp1 Hs1 Hp2 Hs2. revert traces2 tasks2 H2.
    induction H1 as [|m0 t1 m1 tasks0 traces1 tasks1 Hs _ IH];
      intros traces2 tasks2 H2.
    + inversion_clear H2. constructor.
    + apply Forall3_cons_inv_l in H2 as (t2 & traces2' & m2 & tasks2' & -> & -> & Hs2 & H2).
      cbn [zip_with]. constructor; [by eapply steps_trans|by apply IH].
  - rewrite mjoin_zip_with_app, Hp1, Hp2; [done|].
    pose proof (Forall3_length_lm _ _ _ _ H1). pose proof (Forall3_length_lr _ _ _ _ H1).
    pose proof (Forall3_length_lm _ _ _ _ H2). lia.
  - assert (length traces1 = length traces2) as Hl.
    { pose proof (Forall3_length_lm _ _ _ _ H1). pose proof (Forall3_length_lr _ _ _ _ H1).
      pose proof (Forall3_length_lm _ _ _ _ H2). lia. }
    clear H1 H2 Hp1 Hp2. revert traces2 Hs2 Hl.
    induction Hs1 as [|t1 traces1 Ht1 _ IH]; intros [|t2 traces2] Hs2 Hl; try done.
    apply Forall_cons in Hs2 as [Ht2 Hs2]. cbn [zip_with]. constructor.
    + by apply sublist_app.
    + apply IH; [done|]. cbn in Hl. lia.
Qed.
End Traced.

Section PoolCalls.
Context {W : Type} (respond : ∀ X, event X → W → X * W).
Context {A : Type}.
Implicit Types (st : state (W * list performed)) (tasks : list (prog A)).

Lemma pool_step_cons i (m : prog A) tasks st :
  pool_step (recorded respond) (S i) (m :: tasks) st
  = ((m :: (pool_step (recorded respond) i tasks st).1),
     (pool_step (recorded respond) i tasks st).2).
Proof.
  unfold pool_step. cbn [lookup list_lookup].
  destruct (tasks !! i) as [[a|e|X ev k]|]; try done.
  by destruct (handle (recorded respond) ev st).
Qed.

Lemma pool_step_traced i tasks st :
  ∃ traces new,
    traced tasks traces (pool_step (recorded respond) i tasks st).1 new
    ∧ calls (pool_step (recorded respond) i tasks st).2 = calls st ++ new.
Proof.
  revert i. induction tasks as [|m tasks IH]; intros i.
  { exists [], []. unfold pool_step. rewrite lookup_nil. cbn [fst snd].
    split; [apply traced_nil|by rewrite app_nil_r]. }
  destruct i as [|i].
  - unfold pool_step. cbn [lookup list_lookup].
    destruct m as [a|e|X ev k];
      try (eexists _, []; cbn [fst snd]; split;
           [apply traced_refl|by rewrite app_nil_r]).
    pose proof (handle_recorded respond X ev st) as Hh.
    destruct (handle (recorded respond) ev st) as [x st']. cbn [fst snd] in *.
    exists (performed_of ev x :: replicate (length tasks) []), (performed_of ev x).
    split; [|done].
    rewrite <-(app_nil_r (performed_of ev x)) at 2.
    apply traced_cons; [apply steps_one|apply traced_refl].
  - rewrite pool_step_cons. cbn [fst snd].
    destruct (IH i) as (traces & new & Ht & Hc).
    exists ([] :: traces), new. split; [|done].
    apply (traced_cons m [] m); [apply steps_done|done].
Qed.

Lemma pool_run_traced schedule tasks st :
  ∃ traces new,
    traced tasks traces (pool_run (recorded respond) schedule tasks st).1 new
    ∧ calls (pool_run (recorded respond) schedule tasks st).2 = calls st ++ new.
Proof.
  revert tasks st. induction schedule as [|i schedule IH]; intros tasks st.
  { eexists _, []. cbn. split; [apply traced_refl|by rewrite app_nil_r]. }
  cbn [pool_run]. destruct (pool_step_traced i tasks st) as (traces1 & new1 & H1 & Hc1).
  destruct (pool_step (recorded respond) i tasks st) as [tasks1 st1].
  cbn [fst snd] in *.
  destruct (IH tasks1 st1) as (traces2 & new2 & H2 & Hc2).
  exists (zip_with app traces1 traces2), (new1 ++ new2). split.
  - by eapply traced_trans.
  - by rewrite Hc2, Hc1, <-app_assoc.
Qed.

Lemma pool_drain_traced started cancel i tasks st :
  ∃ traces ms new,
    traced tasks traces ms new
    ∧ calls (pool_drain (recorded respond) started cancel i tasks st) = calls st ++ new.
Proof.
  revert i st. induction tasks as [|m tasks IH]; intros i st.
  { exists [], [], []. cbn. split; [apply traced_nil|by rewrite app_nil_r]. }
  cbn [pool_drain]. destruct (started i || negb (cancel i)).
  - destruct (run_recorded respond m st) as (t & Hc & Hs).
    destruct (IH (S i) (run (recorded respond) m st).2) as (traces & ms & new & Ht & Hc').
    exists (t :: traces), (lift (run (recorded respond) m st).1 :: ms), (t ++ new).
    split; [by apply traced_cons|]. by rewrite Hc', Hc, <-app_assoc.
  - destruct (IH (S i) st) as (traces & ms & new & Ht & Hc').
    exists ([] :: traces), (m :: ms), new. split; [|done].
    apply (traced_cons m [] m); [apply steps_done|done].
Qed.

Lemma pool_results_traced started cancel i tasks st :
  ∃ traces ms new,
    traced tasks traces ms new
    ∧ calls (pool_results (recorded respond) started cancel i tasks st).2
      = calls st ++ new
    ∧ (∀ vs, (pool_results (recorded respond) started cancel i tasks st).1 = inr vs →
         ms = Ret <$> vs)
    ∧ (∀ e, (pool_results (recorded respond) started cancel i tasks st).1 = inl e →
         Raise e ∈ ms).
Proof.
  revert i st. induction tasks as [|m tasks IH]; intros i st.
  { exists [], [], []. cbn. split_and!; [apply traced_nil|by rewrite app_nil_r| |done].
    by intros vs [= <-]. }
  cbn [pool_results]. destruct (run_recorded respond m st) as (t & Hc & Hs).
  destruct (run (recorded respond) m st) as [[e|a] st1]; cbn [fst snd lift] in *.
  - destruct (pool_drain_traced started cancel (S i) tasks st1)
      as (traces & ms & new & Ht & Hc').
    exists (t :: traces), (Raise e :: ms), (t ++ new). split_and!.
    + by apply traced_cons.
    + by rewrite Hc', Hc, <-app_assoc.
    + done.
    + intros e' [= <-]. apply elem_of_cons. by left.
  - destruct (IH (S i) st1) as (traces & ms & new & Ht & Hc' & Hr & He).
    destruct (pool_results (recorded respond) started cancel (S i) tasks st1)
      as [rs st2]. cbn [fst snd] in *.
    exists (t :: traces), (Ret a :: ms), (t ++ new). split_and!.
    + by apply traced_cons.
    + by rewrite Hc', Hc, <-app_assoc.
    + intros vs Hvs. destruct rs as [e|l]; [done|]. injection Hvs as <-.
      rewrite fmap_cons. f_equal. by apply Hr.
    + intros e Hvs. destruct rs as [e'|l]; [|done]. injection Hvs as <-.
      apply elem_of_cons. right. by apply He.
Qed.

(** The pool, whatever the schedule: the calls of the run are those of the
    tasks, each task's in its order; a list of results is collected when
    every task has returned, and an exception is that of a task. *)
Lemma executor_map_traced {B} schedule cancel (f : B → prog A) (l : list B) st :
  ∃ traces ms new,
    traced (f <$> l) traces ms new
    ∧ calls (executor_map (recorded respond) schedule cancel f l st).2 = calls st ++ new
    ∧ (∀ vs, (executor_map (recorded respond) schedule cancel f l st).1 = inr vs →
         ms = Ret <$> vs)
    ∧ (∀ e, (executor_map (recorded respond) schedule cancel f l st).1 = inl e →
         Raise e ∈ ms).
Proof.
  unfold executor_map.
  destruct (pool_run_traced schedule (f <$> l) st) as (traces1 & new1 & H1 & Hc1).
  destruct (pool_run (recorded respond) schedule (f <$> l) st) as [tasks1 st1].
  cbn [fst snd] in *.
  destruct (pool_results_traced (λ i, bool_decide (i ∈ schedule)) cancel 0 tasks1 st1)
    as (traces2 & ms & new2 & H2 & Hc2 & Hr & He).
  exists (zip_with app traces1 traces2), ms, (new1 ++ new2). split_and!; try done.
  - by eapply traced_trans.
  - by rewrite Hc2, Hc1, <-app_assoc.
Qed.
End PoolCalls.

Ltac steps_inv H :=
  first [ apply steps_ret_inv in H as [-> ->]
        | apply steps_raise_inv in H as [-> ->]
        | apply steps_vis_inv in H as [[-> ->]|(? & ? & -> & H)] ];
  cbn [bind try_except lift performed_of app] in *.

Section TaskCalls.
Implicit Types (group : list string) (group_index : N) (frame_rate : Z).
Implicit Types (temp_dir ffmpeg_path : string).

(** The calls of one task of the pool: its own manifest, then the encoder on
    that manifest, then the clock. *)
Lemma create_video_from_group_steps group group_index frame_rate temp_dir
    ffmpeg_path t m :
  steps (create_video_from_group group group_index frame_rate temp_dir ffmpeg_path)
    t m →
  let manifest := Write (manifest_path temp_dir group_index) (manifest_lines group) in
  let encode := Run (encoder_cmd group_index frame_rate temp_dir ffmpeg_path) in
  (∃ a1 a2 a3, t `prefix_of` [manifest a1; encode a2; Strftime "%H:%M:%S" a3])
  ∧ (∀ v, m = Ret v →
       v = clip_path temp_dir group_index ∧ Forall answer_allowed t
       ∧ ∃ a2, [manifest (inr ()); encode a2] `prefix_of` t)
  ∧ (∀ e, m = Raise e → ¬ Forall answer_allowed t).
Proof.
  intros H manifest encode. subst manifest encode.
  unfold create_video_from_group, create_ffmpeg_input_file, call, print, mbind,
    prog_bind in H.
  fold (manifest_lines group) in H.
  fold (encoder_cmd group_index frame_rate temp_dir ffmpeg_path) in H.
  cbn [bind try_except] in H.
  steps_inv H.
  { split_and!; [|done..]. exists (inr ()), (inr (Completed 0 [] [])), "".
    apply prefix_nil. }
  destruct x as [e|[]]; cbn [bind try_except] in H.
  { steps_inv H. split_and!.
    - exists (inl e), (inr (Completed 0 [] [])), "". by eexists.
    - done.
    - intros e' _ [[=] _]%Forall_cons. }
  steps_inv H.
  { split_and!; [|done..]. exists (inr ()), (inr (Completed 0 [] [])), "". by eexists. }
  destruct x as [e|cp]; cbn [bind try_except] in H.
  - destruct e as [| | | | |rc err msg]; cbn [bind try_except] in H;
      try (steps_inv H; split_and!;
           [eexists (inr ()), _, ""; by eexists
           |done
           |intros e' _ [_ [[] _]%Forall_cons]%Forall_cons]).
    steps_inv H.
    { split_and!; [|done..]. eexists (inr ()), _, "". by eexists. }
    unfold bytes_decode in H.
    destruct (utf8_valid (Byte.to_N <$> err)) eqn:Hv; cbn [bind try_except lift] in H.
    + steps_inv H.
      { split_and!; [|done..]. eexists (inr ()), _, "". by eexists. }
      steps_inv H. split_and!.
      * eexists (inr ()), _, "". by eexists.
      * intros v [= <-]. split_and!; [done| |eexists; by exists []].
        repeat constructor. exact Hv.
      * done.
    + steps_inv H. split_and!.
      * eexists (inr ()), _, "". by eexists.
      * done.
      * intros e' _ [_ [Hbad _]%Forall_cons]%Forall_cons. cbn in Hbad. congruence.
  - steps_inv H.
    { split_and!; [|done..]. eexists (inr ()), _, "". by eexists. }
    steps_inv H.
    { split_and!; [|done..]. eexists (inr ()), _, _. by exists []. }
    steps_inv H. split_and!.
    + eexists (inr ()), _, _. by exists [].
    + intros v [= <-]. split_and!; [done|repeat constructor|].
      eexists. by eexists.
    + done.
Qed.
End TaskCalls.

Section DispatchCalls.
Context {W : Type} (respond : ∀ X, event X → W → X * W).

Lemma length_enumerate_from {B} (l : list B) i : length (enumerate_from i l) = length l.
Proof. revert i. induction l as [|x l IH]; intros i; [done|]. cbn. by rewrite IH. Qed.

Lemma enumerate_from_lookup {B} (l : list B) i k x :
  l !! k = Some x → enumerate_from i l !! k = Some (i + N.of_nat k, x).
Proof.
  revert i k. induction l as [|y l IH]; intros i k; [done|].
  destruct k as [|k]; intros Hk.
  - injection Hk as ->. cbn [enumerate_from]. rewrite N.add_0_r. reflexivity.
  - change (l !! k = Some x) in Hk.
    change (enumerate_from (i + 1) l !! k = Some (i + N.of_nat (S k), x)).
    rewrite (IH (i + 1) k Hk). do 2 f_equal. lia.
Qed.

Lemma Forall_mjoin {B} (P : B → Prop) (ls : list (list B)) :
  Forall (Forall P) ls → Forall P (mjoin ls).
Proof.
  induction 1 as [|l ls Hl _ IH]; [constructor|].
  change (mjoin (l :: ls)) with (l ++ mjoin ls). by apply Forall_app.
Qed.

(** The pool of [create_video_from_grouped_images]: the calls of the run are
    those of one task for each group. *)
Lemma intermediate_videos_traced schedule cancel (groups : list (list string))
    frame_rate temp_dir ffmpeg_path (st : state (W * list performed)) :
  let r := intermediate_videos (recorded respond) schedule cancel groups frame_rate
             temp_dir ffmpeg_path st in
  ∃ new traces ms,
    calls r.2 = calls st ++ new
    ∧ length traces = length groups
    ∧ length ms = length groups
    ∧ new ≡ₚ mjoin traces
    ∧ Forall (λ t, sublist t new) traces
    ∧ (∀ i g t m, groups !! i = Some g → traces !! i = Some t → ms !! i = Some m →
         steps (create_video_from_group g (N.of_nat i) frame_rate temp_dir ffmpeg_path)
           t m)
    ∧ (∀ vs, r.1 = inr vs → ms = Ret <$> vs)
    ∧ (∀ e, r.1 = inl e → Raise e ∈ ms).
Proof.
  intros r. unfold r, intermediate_videos.
  destruct (executor_map_traced respond schedule cancel
              (λ idx_group : N * list string,
                 create_video_from_group idx_group.2 idx_group.1 frame_rate temp_dir
                   ffmpeg_path) (enumerate groups) st)
    as (traces & ms & new & (H3 & Hp & Hsub) & Hc & Hr & He).
  exists new, traces, ms.
  pose proof (Forall3_length_lm _ _ _ _ H3) as Hl1.
  pose proof (Forall3_length_lr _ _ _ _ H3) as Hl2.
  rewrite length_fmap in Hl1, Hl2. unfold enumerate in Hl1, Hl2.
  rewrite length_enumerate_from in Hl1, Hl2.
  split_and!; try done.
  intros i g t m Hg Ht Hm.
  assert (((λ idx_group : N * list string,
              create_video_from_group idx_group.2 idx_group.1 frame_rate temp_dir
                ffmpeg_path) <$> enumerate groups) !! i
          = Some (create_video_from_group g (N.of_nat i) frame_rate temp_dir
                    ffmpeg_path)) as Hx.
  { rewrite list_lookup_fmap. unfold enumerate.
    rewrite (enumerate_from_lookup groups 0 i g Hg).
    cbn [fmap option_fmap option_map fst snd]. by rewrite N.add_0_l. }
  exact (Forall3_lookup_lmr _ _ _ _ _ _ _ _ H3 Hx Ht Hm).
Qed.
End DispatchCalls.

(** * The properties of the specification *)
(** C1.  For clips [A; B; C; D] the command line of the grid composition
    names them as inputs 0 to 3 in that order, and its filter graph is the
    fixed text below: a 1920x1080 canvas; input 3 scaled to 960x540 and laid
    at the top left, input 0 at the top right ([W/2:0]), input 1 at the bottom
    left ([0:H/2]) and input 2 at the bottom right ([W/2:H/2]).  The graph
    does not depend on the clips: for any list of clips the command line is
    the inputs in order, the codec settings and that same graph. *)
Theorem C1_grid_filter_graph (ffmpeg_path A B C D output_path : string) :
  let graph :=
    "nullsrc=size=1920x1080 [base];[3:v] setpts=PTS-STARTPTS, scale=960x540 [upperleft];[0:v] setpts=PTS-STARTPTS, scale=960x540 [upperright];[1:v] setpts=PTS-STARTPTS, scale=960x540 [lowerleft];[2:v] setpts=PTS-STARTPTS, scale=960x540 [lowerright];[base][upperleft] overlay=shortest=1 [tmp1];[tmp1][upperright] overlay=W/2:0 [tmp2];[tmp2][lowerleft] overlay=0:H/2 [tmp3];[tmp3][lowerright] overlay=W/2:H/2" in
  grid_cmd ffmpeg_path [A; B; C; D] output_path
  = [ffmpeg_path; "-y"; "-i"; A; "-i"; B; "-i"; C; "-i"; D;
     "-c:v"; "libx264"; "-preset"; "fast"; "-crf"; "23";
     "-filter_complex"; graph; output_path]
  ∧ ∀ videos,
      grid_cmd ffmpeg_path videos output_path
      = [ffmpeg_path; "-y"] ++ mjoin ((λ video, ["-i"; video]) <$> videos)
        ++ ["-c:v"; "libx264"; "-preset"; "fast"; "-crf"; "23";
            "-filter_complex"; graph; output_path].
Proof.
  intros graph. split; [reflexivity|].
  intros videos. unfold grid_cmd. by rewrite input_cmds_concat.
Qed.

(** C2, at the input where the code departs from it.  The encoder exits with
    status 1 and leaves the single byte 0xFF on its error stream: the handler
    prints its first line, then [e.stderr.decode()] raises
    [UnicodeDecodeError], which leaves [create_video_from_group]; no path is
    returned. *)
Theorem C2_undecodable_stderr_raises :
  run (respond_machine Ex.garbled)
    (create_video_from_group ["a.png"] 0 30 "temp" "ffmpeg") (Ex.start Ex.two_files)
  = (inl (UnicodeDecodeError "'utf-8' codec can't decode bytes"),
     State (Disk {["d"]} (<["temp/group_0.txt" := ["file 'a.png'" +:+ String "010" ""]]>
                            (files Ex.two_files)))
       [Text "Error while creating video for group 1: Command returned non-zero exit status 1."]).
Proof. vm_compute. reflexivity. Qed.

(** C3.  Dispatching [K] groups through the pool, under any schedule and in
    any environment, the environment keeping the list of the calls it answers.
    The calls of the run are those of [K] tasks, one for each group: each
    task's calls in their order, those of different tasks in any order.  The
    task of group [i] writes the lines of group [i] to the manifest of index
    [i], then runs the encoder on that manifest for the clip of index [i],
    then reads the clock, and makes no other call.  If a list is collected, it
    is the [K] clip paths in the order of the groups, and every group has
    written its own manifest and run its own encoder; it is collected exactly
    when every manifest was written and every run of the encoder ended or
    failed with well-formed text on its error stream.  The [i]-th element of
    the list is the clip path of index [i]; paths of different indices
    differ, as do manifest and clip paths.  Keeping the list of the calls
    changes nothing: result, world and console are those of the run in the
    environment alone; and in an environment of any kind a list that is
    collected is that list. *)
Theorem C3_dispatch_in_order {W} (respond : ∀ X, event X → W → X * W)
    (schedule : list nat) (cancel : nat → bool) (groups : list (list string))
    (frame_rate : Z) (temp_dir ffmpeg_path : string)
    (st : state (W * list performed)) :
  let r := intermediate_videos (recorded respond) schedule cancel groups frame_rate
             temp_dir ffmpeg_path st in
  let clips := (λ i, clip_path temp_dir (N.of_nat i)) <$> seq 0 (length groups) in
  let manifest i g :=
    Write (manifest_path temp_dir (N.of_nat i)) (manifest_lines g) in
  let encode i := Run (encoder_cmd (N.of_nat i) frame_rate temp_dir ffmpeg_path) in
  (∃ new traces,
     calls r.2 = calls st ++ new
     ∧ length traces = length groups
     ∧ new ≡ₚ mjoin traces
     ∧ Forall (λ t, sublist t new) traces
     ∧ (∀ i g t, groups !! i = Some g → traces !! i = Some t →
          ∃ a1 a2 a3,
            t `prefix_of` [manifest i g a1; encode i a2; Strftime "%H:%M:%S" a3])
     ∧ (∀ l, r.1 = inr l →
          l = clips
          ∧ ∀ i g t, groups !! i = Some g → traces !! i = Some t →
              ∃ a2, [manifest i g (inr ()); encode i a2] `prefix_of` t)
     ∧ (r.1 = inr clips ↔ Forall answer_allowed new))
  ∧ (r.1 = (intermediate_videos respond schedule cancel groups frame_rate temp_dir
              ffmpeg_path (forget st)).1
     ∧ forget r.2 = (intermediate_videos respond schedule cancel groups frame_rate
                       temp_dir ffmpeg_path (forget st)).2)
  ∧ (∀ i : N,
       encoder_cmd i frame_rate temp_dir ffmpeg_path
       = [ffmpeg_path; "-y"; "-f"; "concat"; "-safe"; "0";
          "-i"; manifest_path temp_dir i;
          "-vf"; "scale=960:-1"; "-r"; pretty frame_rate; clip_path temp_dir i])
  ∧ length clips = length groups
  ∧ (∀ i, (i < length groups)%nat →
       clips !! i = Some (clip_path temp_dir (N.of_nat i)))
  ∧ (∀ i j : N, i ≠ j →
       manifest_path temp_dir i ≠ manifest_path temp_dir j
       ∧ clip_path temp_dir i ≠ clip_path temp_dir j)
  ∧ (∀ i j : N, manifest_path temp_dir i ≠ clip_path temp_dir j)
  ∧ (temp_dir ≠ "" → Str.endswith temp_dir "/" = false →
     ∀ i : N,
       clip_path temp_dir i = temp_dir +:+ "/group_" +:+ pretty i +:+ ".mp4"
       ∧ manifest_path temp_dir i = temp_dir +:+ "/group_" +:+ pretty i +:+ ".txt")
  ∧ (∀ W' (respond' : ∀ X, event X → W' → X * W') (st' : state W') l,
       (intermediate_videos respond' schedule cancel groups frame_rate temp_dir
          ffmpeg_path st').1 = inr l →
       l = clips).
Proof.
  intros r clips manifest encode.
  assert ((λ ig : N * list string, clip_path temp_dir ig.1) <$> enumerate groups = clips)
    as Hclips.
  { unfold enumerate, clips. by rewrite (enumerate_from_fmap (clip_path temp_dir)). }
  assert (∀ W' (respond' : ∀ X, event X → W' → X * W') (st' : state W') l,
            (intermediate_videos respond' schedule cancel groups frame_rate temp_dir
               ffmpeg_path st').1 = inr l → l = clips) as Horder.
  { intros W' respond' st' l. unfold intermediate_videos. rewrite <-Hclips.
    apply (executor_map_ends respond' any_answer true); [done|].
    intros [i group]. apply create_video_from_group_returns_or_raises. }
  split_and!.
  - destruct (intermediate_videos_traced respond schedule cancel groups frame_rate
                temp_dir ffmpeg_path st)
      as (new & traces & ms & Hc & Hlt & Hlm & Hp & Hsub & Hsteps & Hr & He).
    fold r in Hc, Hr, He.
    assert (∀ i t, traces !! i = Some t →
              ∃ g m, groups !! i = Some g ∧ ms !! i = Some m
                     ∧ steps (create_video_from_group g (N.of_nat i) frame_rate
                                temp_dir ffmpeg_path) t m) as Htask.
    { intros i t Ht. pose proof (lookup_lt_Some _ _ _ Ht) as Hi.
      destruct (lookup_lt_is_Some_2 groups i) as [g Hg]; [lia|].
      destruct (lookup_lt_is_Some_2 ms i) as [m Hm]; [lia|].
      exists g, m. split_and!; [done..|]. by apply Hsteps. }
    exists new, traces. split_and!; try done.
    + intros i g t Hg Ht. destruct (Htask i t Ht) as (g' & m & Hg' & Hm & Hs).
      rewrite Hg in Hg'. injection Hg' as <-.
      by apply create_video_from_group_steps in Hs as [? _].
    + intros l Hl. split; [by eapply Horder|].
      intros i g t Hg Ht. destruct (Htask i t Ht) as (g' & m & Hg' & Hm & Hs).
      rewrite Hg in Hg'. injection Hg' as <-.
      rewrite (Hr l Hl), list_lookup_fmap in Hm.
      destruct (l !! i) as [v|]; [|done]. injection Hm as <-.
      apply create_video_from_group_steps in Hs as (_ & Hret & _).
      by destruct (Hret v eq_refl) as (_ & _ & ?).
    + split.
      * intros Hl. rewrite Hp. apply Forall_mjoin, Forall_lookup. intros i t Ht.
        destruct (Htask i t Ht) as (g & m & Hg & Hm & Hs).
        rewrite (Hr clips Hl), list_lookup_fmap in Hm.
        destruct (clips !! i) as [v|]; [|done]. injection Hm as <-.
        apply create_video_from_group_steps in Hs as (_ & Hret & _).
        by destruct (Hret v eq_refl) as (_ & ? & _).
      * intros Hall. destruct r.1 as [e|l] eqn:Hres.
        -- pose proof (He e eq_refl) as Hin.
           apply list_elem_of_lookup in Hin as [i Hm].
           destruct (lookup_lt_is_Some_2 traces i) as [t Ht].
           { apply lookup_lt_Some in Hm. lia. }
           destruct (Htask i t Ht) as (g & m & Hg & Hm' & Hs).
           rewrite Hm in Hm'. injection Hm' as <-.
           apply create_video_from_group_steps in Hs as (_ & _ & Hraise).
           destruct (Hraise e eq_refl).
           apply (Forall_sublist _ t new); [|done].
           by eapply Forall_lookup_1 in Hsub.
        -- f_equal. by eapply Horder.
  - unfold r, intermediate_videos. apply executor_map_forget.
  - unfold r, intermediate_videos. apply executor_map_forget.
  - done.
  - unfold clips. by rewrite length_fmap, length_seq.
  - intros i Hi. unfold clips. by rewrite list_lookup_fmap, lookup_seq_lt.
  - intros i j Hij. split; intros [? _]%(group_file_inj temp_dir i j); done.
  - intros i j [_ [=]]%(group_file_inj temp_dir i j "txt" "mp4").
  - intros Hne Hslash i. unfold clip_path, manifest_path, join. cbn [Str.startswith].
    apply String.eqb_neq in Hne. rewrite Hne, Hslash. done.
  - exact Horder.
Qed.

Lemma C3_dispatch_in_order_witness :
  (intermediate_videos (recorded (fixed_answers [] Ex.succeeding))
     [1; 0; 1; 0; 0; 1; 1]%nat (λ _, true)
     [["a.png"]; ["b.png"; "c.png"]] 30 "temp" "ffmpeg" (Ex.start ((), []))).1
  = inr ["temp/group_0.mp4"; "temp/group_1.mp4"]
  ∧ calls (intermediate_videos (recorded (fixed_answers [] Ex.succeeding))
             [1; 0; 1; 0; 0; 1; 1]%nat (λ _, true)
             [["a.png"]; ["b.png"; "c.png"]] 30 "temp" "ffmpeg" (Ex.start ((), []))).2
    = [Write "temp/group_1.txt"
         ["file 'b.png'" +:+ String "010" ""; "file 'c.png'" +:+ String "010" ""]
         (inr ());
       Write "temp/group_0.txt" ["file 'a.png'" +:+ String "010" ""] (inr ());
       Run ["ffmpeg"; "-y"; "-f"; "concat"; "-safe"; "0"; "-i"; "temp/group_1.txt";
            "-vf"; "scale=960:-1"; "-r"; "30"; "temp/group_1.mp4"]
         (inr (Completed 0 [] []));
       Run ["ffmpeg"; "-y"; "-f"; "concat"; "-safe"; "0"; "-i"; "temp/group_0.txt";
            "-vf"; "scale=960:-1"; "-r"; "30"; "temp/group_0.mp4"]
         (inr (Completed 0 [] []));
       Strftime "%H:%M:%S" "12:00:00";
       Strftime "%H:%M:%S" "12:00:00"].
Proof.
  destruct (C3_dispatch_in_order (fixed_answers [] Ex.succeeding)
              [1; 0; 1; 0; 0; 1; 1]%nat (λ _, true)
              [["a.png"]; ["b.png"; "c.png"]] 30 "temp" "ffmpeg" (Ex.start ((), [])))
    as [(new & traces & Hc & _ & _ & _ & _ & _ & Hiff) _].
  split.
  - apply Hiff. cbn [calls Ex.start world snd app] in Hc. rewrite <-Hc.
    vm_compute. repeat constructor.
  - vm_compute. reflexivity.
Defined.

(** C4.  [group_images_by_developer] returns a dictionary [d] and raises
    nothing.  A path whose first [_]-segment of the basename starts with
    [Dev] (upper-case D, as written) is filed under that segment: the entry
    of that key is the list of all such paths, in the order of the input, cut
    by the cap of C5, so the path is in it whenever the cap does not cut the
    list.  A path whose first segment does not start with [Dev] is in no
    entry, and a line for it is printed.  When no path qualifies, also for the
    empty input, [d] is empty.  No key occurs twice. *)
Theorem C4_grouping {W} (respond : ∀ X, event X → W → X * W)
    (images : list string) (limit : Z) (st : state W) :
  ∃ d,
    run respond (group_images_by_developer images limit) st
    = (inr d, State (world st) (console st ++ skipped images))
    ∧ NoDup d.*1
    ∧ (∀ p, p ∈ images → is_dev p = true →
         p ∈ members (dev_indicator p) images
         ∧ dict_get d (dev_indicator p)
           = Some (slice_to (members (dev_indicator p) images) limit)
         ∧ ((Z.of_nat (length (members (dev_indicator p) images)) ≤ limit)%Z →
            ∃ l, dict_get d (dev_indicator p) = Some l ∧ p ∈ l))
    ∧ (∀ p, is_dev p = false →
         (∀ key l, (key, l) ∈ d → p ∉ l)
         ∧ (p ∈ images →
            Text ("Skipping invalid file: " +:+ basename p) ∈ skipped images))
    ∧ ((∀ p, p ∈ images → is_dev p = false) → d = []).
Proof.
  eexists. split; [apply run_group_images_by_developer|].
  split; [apply grouped_NoDup|]. split_and!.
  - intros p Hp Hdev.
    assert (p ∈ members (dev_indicator p) images) as Hin.
    { unfold members. by apply list_elem_of_filter. }
    split; [done|]. rewrite dict_get_grouped.
    destruct (members (dev_indicator p) images) as [|q l] eqn:Hm;
      [by apply elem_of_nil in Hin|].
    split; [done|]. intros Hcap. eexists. split; [done|].
    by rewrite slice_to_ge.
  - intros p Hdev. split.
    + intros key l Hl%dict_get_elem_of; [|apply grouped_NoDup].
      rewrite dict_get_grouped in Hl.
      destruct (members key images) as [|q l'] eqn:Hm; [done|].
      injection Hl as <-. intros Hp%elem_of_slice_to.
      rewrite <-Hm in Hp. apply members_dev in Hp as [? _]. congruence.
    + intros Hp. unfold skipped. apply list_elem_of_fmap. exists p.
      split; [done|]. by apply list_elem_of_filter.
  - intros Hnone.
    assert (group_pure images [] = []) as ->; [|done].
    generalize (@nil (string * list string)).
    induction images as [|p images IH]; intros acc; [done|]. simpl.
    rewrite (Hnone p) by (apply elem_of_cons; by left).
    apply IH. intros q Hq. apply Hnone, elem_of_cons. by right.
Qed.

Lemma C4_grouping_witness :
  ∃ d,
    (run (respond_machine Ex.plain) (group_images_by_developer Ex.pictures 10000000)
       (Ex.start Ex.two_files)).1 = inr d
    ∧ (∃ l, dict_get d "Dev3" = Some l ∧ "pictures/Dev3_0001.png" ∈ l)
    ∧ (∀ key l, (key, l) ∈ d → "pictures/developer1_0001.png" ∉ l).
Proof.
  destruct (C4_grouping (respond_machine Ex.plain) Ex.pictures 10000000
              (Ex.start Ex.two_files)) as (d & Hrun & _ & Hdev & Hskip & _).
  exists d. split; [by rewrite Hrun|]. split.
  - apply (Hdev "pictures/Dev3_0001.png").
    + vm_compute. apply elem_of_cons. by left.
    + vm_compute. reflexivity.
    + vm_compute. discriminate.
  - apply (Hskip "pictures/developer1_0001.png"). vm_compute. reflexivity.
Defined.

(** C5.  With a cap [N] that is not negative, a group of [M] paths keeps its
    first [N] paths, in the order of the input, when [M > N], and is kept
    whole when [M <= N]. *)
Theorem C5_group_cap {W} (respond : ∀ X, event X → W → X * W)
    (images : list string) (N : Z) (st : state W) (key : string) :
  (0 ≤ N)%Z → members key images ≠ [] →
  ∃ d,
    (run respond (group_images_by_developer images N) st).1 = inr d
    ∧ ((N < Z.of_nat (length (members key images)))%Z →
       dict_get d key = Some (take (Z.to_nat N) (members key images))
       ∧ length (take (Z.to_nat N) (members key images)) = Z.to_nat N)
    ∧ ((Z.of_nat (length (members key images)) ≤ N)%Z →
       dict_get d key = Some (members key images)).
Proof.
  intros HN Hne. eexists. rewrite run_group_images_by_developer.
  split; [done|]. rewrite dict_get_grouped.
  destruct (members key images) as [|q l] eqn:Hm; [done|]. split.
  - intros Hlt. destruct (slice_to_lt (q :: l) N) as [-> Hlen]; [lia|]. done.
  - intros Hle. by rewrite slice_to_ge.
Qed.

Lemma C5_group_cap_witness :
  ∃ d,
    (run (respond_machine Ex.plain) (group_images_by_developer Ex.pictures 2)
       (Ex.start Ex.two_files)).1 = inr d
    ∧ dict_get d "Dev3" = Some ["pictures/Dev3_0001.png"; "pictures/Dev3_0002.png"]
    ∧ dict_get d "Devfoo.png" = Some ["pictures/Devfoo.png"].
Proof.
  destruct (C5_group_cap (respond_machine Ex.plain) Ex.pictures 2
              (Ex.start Ex.two_files) "Dev3") as (d & Hrun & Hcut & _).
  { lia. }
  { vm_compute. discriminate. }
  exists d. split; [done|]. split.
  - apply Hcut. vm_compute. reflexivity.
  - rewrite run_group_images_by_developer in Hrun. injection Hrun as <-.
    vm_compute. reflexivity.
Defined.

(** C6.  The renamer's mapping on file names is idempotent: the name a file
    is renamed to is itself renamed to the same name or left alone, so
    [renamed] applied twice is [renamed] applied once; [proj_fn000042.png]
    maps to itself.  On a folder of a machine that refuses no rename and
    lists each entry once, two passes in a row: the second pass leaves the
    disk as the first left it, and, when the folder is there, prints nothing
    but renames of a name to itself. *)
Theorem C6_rename_twice :
  (∀ file_name, renamed (renamed file_name) = renamed file_name)
  ∧ (∀ file_name new,
       new_file_name file_name = inr (Some new) →
       new_file_name new = inr (Some new) ∨ new_file_name new = inr None)
  ∧ new_file_name "proj_fn000042.png" = inr (Some "proj_fn000042.png")
  ∧ (∀ (m : machine) (folder_path : string) (w : disk) (c : list text),
       denied m = ∅ → (∀ l, listing_order m l ≡ₚ l) →
       let st1 :=
         (run (respond_machine m) (rename_files_in_folder folder_path) (State w c)).2 in
       let st2 :=
         (run (respond_machine m) (rename_files_in_folder folder_path) st1).2 in
       world st2 = world st1
       ∧ (folder_path ∈ dirs w →
          ∃ extra, console st2 = console st1 ++ extra
            ∧ Forall (λ t, ∃ n, t = Text ("Renamed: " +:+ n +:+ " -> " +:+ n)) extra)).
Proof.
  split_and!.
  - apply renamed_fixed.
  - apply new_file_name_fixed.
  - vm_compute. reflexivity.
  - intros m folder_path w c Hden Hperm. by apply second_pass.
Qed.

Lemma C6_rename_twice_witness :
  let st1 :=
    (run (respond_machine Ex.plain) (rename_files_in_folder "d")
       (Ex.start Ex.two_files)).2 in
  files (world st1) = <["d/b_fn000002.png" := []]> (<["d/a_fn000001.png" := []]> ∅)
  ∧ world (run (respond_machine Ex.plain) (rename_files_in_folder "d") st1).2
    = world st1.
Proof.
  split; [vm_compute; reflexivity|].
  apply (proj2 (proj2 (proj2 C6_rename_twice)) Ex.plain "d" Ex.two_files []).
  - reflexivity.
  - intros l. reflexivity.
Defined.

(** C7, at the input where the code departs from it.  The file name
    [a<line feed>b_fn1.png] has a recognized extension and holds [_fn], digits
    and an extension; the renamer renames it to [b_fn000001.png]: the digits
    are padded, and the first line of the name is lost, since [.] stops at a
    line feed and the new name is put together from the groups alone. *)
Theorem C7_line_feed_name_loses_text :
  new_file_name ("a" +:+ String "010" "b_fn1.png") = inr (Some "b_fn000001.png")
  ∧ Re.search ("a" +:+ String "010" "b_fn1.png") = Some ("b_fn", "1", ".png")
  ∧ Str.endswith_any (Str.lower ("a" +:+ String "010" "b_fn1.png")) image_extensions
    = true.
Proof. vm_compute. auto. Qed.

(** C8.  The renamer has one catch-all around the whole loop.  Whatever the
    environment answers, [rename_files_in_folder] returns normally; when the
    listing of the folder fails (the folder is missing, or anything else) the
    exception is printed and nothing more is done; and when the rename of one
    file raises, the files after it in the listing are not looked at: the run
    ends in the state the failing call left, with the report as the last line
    of the console. *)
Theorem C8_one_catch_all {W} (respond : ∀ X, event X → W → X * W)
    (folder_path : string) (st : state W) :
  (run respond (rename_files_in_folder folder_path) st).1 = inr ()
  ∧ (∀ e w,
       respond _ (OsListdir folder_path) (world st) = (inl e, w) →
       run respond (rename_files_in_folder folder_path) st
       = (inr (), State w (console st ++ [Text (reported folder_path e)])))
  ∧ (∀ l1 file_name l2 w st1 new e w2,
       respond _ (OsListdir folder_path) (world st) = (inr (l1 ++ file_name :: l2), w) →
       run respond (for_each l1 (loop_body folder_path)) (State w (console st))
       = (inr (), st1) →
       new_file_name file_name = inr (Some new) →
       respond _ (OsRename (join folder_path file_name) (join folder_path new))
               (world st1) = (inl e, w2) →
       run respond (rename_files_in_folder folder_path) st
       = (inr (), State w2 (console st1 ++ [Text (reported folder_path e)]))).
Proof.
  split_and!.
  - rewrite run_rename_files_in_folder. simpl.
    destruct (respond _ _ _) as [[e|file_names] w]; [done|].
    by destruct (run respond _ _) as [[e|[]] st'].
  - intros e w Hlist. rewrite run_rename_files_in_folder. simpl.
    rewrite Hlist. by destruct e.
  - intros l1 file_name l2 w st1 new e w2 Hlist Hl1 Hnew Hren.
    rewrite run_rename_files_in_folder. simpl. rewrite Hlist.
    rewrite run_for_each_app, Hl1, run_for_each_cons, run_loop_body, Hnew, Hren.
    by destruct e.
Qed.

Lemma C8_one_catch_all_witness :
  run (respond_machine Ex.locked) (rename_files_in_folder "d") (Ex.start Ex.two_files)
  = (inr (), State Ex.two_files [Text "An error occurred: Permission denied"]).
Proof.
  apply (proj2 (proj2 (C8_one_catch_all (respond_machine Ex.locked) "d"
                         (Ex.start Ex.two_files)))
           [] "a_fn1.png" ["b_fn2.png"] Ex.two_files (Ex.start Ex.two_files)
           "a_fn000001.png" (OSError "Permission denied") Ex.two_files).
  - vm_compute. reflexivity.
  - vm_compute. reflexivity.
  - vm_compute. reflexivity.
  - vm_compute. reflexivity.
Defined.

(** C9.  [group_images_by_developer] fails on no basename: [split] always
    gives at least one part, so [parts[0]] is there.  For a basename without
    underscore the first part is the whole basename, extension included; such
    a file whose basename starts with [Dev] is filed under its whole basename,
    as [Devfoo.png] is. *)
Theorem C9_first_segment {W} (respond : ∀ X, event X → W → X * W)
    (images : list string) (limit : Z) (st : state W) :
  (∀ sep s, Str.split sep s ≠ [])
  ∧ (∃ d, (run respond (group_images_by_developer images limit) st).1 = inr d
      ∧ ∀ p, p ∈ images →
          Str.all (λ c, negb (Ascii.eqb c "_")) (basename p) = true →
          dev_indicator p = basename p
          ∧ (Str.startswith (basename p) "Dev" = true →
             p ∈ members (basename p) images
             ∧ dict_get d (basename p)
               = Some (slice_to (members (basename p) images) limit)))
  ∧ run respond (group_images_by_developer ["Devfoo.png"] 10000000) st
    = (inr [("Devfoo.png", ["Devfoo.png"])], State (world st) (console st)).
Proof.
  split_and!.
  - intros sep s. by destruct (split_cons sep s) as (w & ws & ->).
  - eexists. rewrite run_group_images_by_developer. split; [done|].
    intros p Hp Hus.
    assert (dev_indicator p = basename p) as Hkey.
    { unfold dev_indicator. by rewrite split_no_sep. }
    split; [done|]. intros Hdev.
    assert (p ∈ members (basename p) images) as Hin.
    { unfold members. apply list_elem_of_filter. unfold is_dev. by rewrite Hkey. }
    split; [done|]. rewrite dict_get_grouped.
    destruct (members (basename p) images); [by apply elem_of_nil in Hin|done].
  - rewrite run_group_images_by_developer.
    replace (skipped ["Devfoo.png"]) with (@nil text) by (vm_compute; reflexivity).
    rewrite app_nil_r. f_equal.
Qed.

Lemma C9_first_segment_witness :
  ∃ d,
    (run (respond_machine Ex.plain) (group_images_by_developer Ex.pictures 10000000)
       (Ex.start Ex.two_files)).1 = inr d
    ∧ dev_indicator "pictures/Devfoo.png" = "Devfoo.png"
    ∧ dict_get d "Devfoo.png" = Some ["pictures/Devfoo.png"].
Proof.
  destruct (C9_first_segment (respond_machine Ex.plain) Ex.pictures 10000000
              (Ex.start Ex.two_files)) as (_ & (d & Hrun & Hd) & _).
  exists d. split; [done|].
  destruct (Hd "pictures/Devfoo.png") as [Hkey Hgroup].
  { vm_compute. do 3 (apply elem_of_cons; right). apply elem_of_cons. by left. }
  { vm_compute. reflexivity. }
  split; [done|].
  destruct Hgroup as [_ Hget]; [vm_compute; reflexivity|].
  etrans; [exact Hget|]. vm_compute. reflexivity.
Defined.

(** C10.  The digits go through [int] before they are written again.  For a
    file the renamer renames, with groups [prefix], [number], [suffix]: the
    new name is [prefix], the value [n] of [number] in the format [:06],
    [suffix].  Zeros in front of [number] do not change [n]; the new digits
    have the value [n]; they are exactly 6 when [n < 10^6], and then only;
    when [n >= 10^6] they are the plain decimal writing of [n], more than 6
    digits long and without a zero in front. *)
Theorem C10_digits_through_int (file_name prefix number suffix : string) :
  Str.endswith_any (Str.lower file_name) image_extensions = true →
  Re.search file_name = Some (prefix, number, suffix) →
  ∃ n,
    int number = inr n
    ∧ new_file_name file_name = inr (Some (prefix +:+ format_06 n +:+ suffix))
    ∧ (∀ k, int (Str.zeros k +:+ number) = inr n)
    ∧ int (format_06 n) = inr n
    ∧ (String.length (format_06 n) = 6%nat ↔ n < 1000000)
    ∧ (1000000 ≤ n →
       format_06 n = pretty n ∧ (6 < String.length (pretty n))%nat
       ∧ ∃ c s, pretty n = String c s ∧ c ≠ "0"%char).
Proof.
  intros Hext Hs. destruct (search_groups _ _ _ _ Hs) as (Hd & Hne & _).
  exists (int_digits 0 number). split_and!.
  - by apply int_digits_ok.
  - unfold new_file_name. by rewrite Hext, Hs, int_digits_ok.
  - intros k. rewrite int_digits_ok.
    + by rewrite int_digits_zeros.
    + by rewrite sall_app, all_digit_zeros.
    + intros H. apply (f_equal String.length) in H. rewrite slength_app in H.
      destruct number; [done|]. simpl in H. lia.
  - apply int_format_06.
  - split; [|apply format_06_small].
    intros Hlen. destruct (decide (int_digits 0 number < 1000000)) as [|Hge]; [done|].
    destruct (format_06_large (int_digits 0 number)) as [Heq Hgt]; [lia|].
    rewrite Heq in Hlen. lia.
  - intros Hge. destruct (format_06_large _ Hge) as [Heq Hgt].
    split_and!; [done..|].
    unfold pretty, pretty_N. rewrite decide_False by lia.
    apply pretty_N_go_head. lia.
Qed.

Lemma C10_digits_through_int_witness :
  ∃ n,
    int "0000042" = inr n
    ∧ new_file_name "x_fn0000042.png" = inr (Some ("x_fn" +:+ format_06 n +:+ ".png"))
    ∧ format_06 n = "000042".
Proof.
  destruct (C10_digits_through_int "x_fn0000042.png" "x_fn" "0000042" ".png")
    as (n & Hn & Hnew & _).
  - vm_compute. reflexivity.
  - vm_compute. reflexivity.
  - exists n. split; [done|]. split; [done|].
    vm_compute in Hn. injection Hn as <-. vm_compute. reflexivity.
Defined.

(** * Facts for the rest of the two scripts *)

(** ** Suffixes, lower case, paths *)

Section SuffixFacts.
Local Arguments Ascii.eqb : simpl never.

Lemma drop_split n s : ∃ u, s = u +:+ Str.drop n s.
Proof.
  revert s. induction n as [|n IH]; intros s.
  - by exists "".
  - destruct s as [|c s]; [by exists ""|].
    destruct (IH s) as [u Hu]. exists (String c u). cbn [Str.drop].
    rewrite sapp_cons. by rewrite <-Hu.
Qed.

Lemma endswith_iff s p : Str.endswith s p = true ↔ ∃ u, s = u +:+ p.
Proof.
  unfold Str.endswith. split.
  - intros [_ Heq%String.eqb_eq]%andb_true_iff.
    destruct (drop_split (String.length s - String.length p) s) as [u Hu].
    exists u. by rewrite Heq in Hu.
  - intros [u ->]. rewrite slength_app. apply andb_true_iff. split.
    + apply Nat.leb_le. lia.
    + replace (String.length u + String.length p - String.length p)%nat
        with (String.length u) by lia.
      rewrite drop_app. apply String.eqb_refl.
Qed.

Lemma endswith_app u s p : Str.endswith s p = true → Str.endswith (u +:+ s) p = true.
Proof.
  intros [v ->]%endswith_iff. apply endswith_iff. exists (u +:+ v).
  by rewrite sapp_assoc.
Qed.

Lemma endswith_any_iff s t :
  Str.endswith_any s t = true ↔ ∃ p, p ∈ t ∧ Str.endswith s p = true.
Proof.
  unfold Str.endswith_any. rewrite existsb_exists.
  split; intros (p & Hp & Hs); exists p; split; try done.
  - by apply list_elem_of_In.
  - by apply list_elem_of_In.
Qed.

Lemma lower_app s t : Str.lower (s +:+ t) = Str.lower s +:+ Str.lower t.
Proof.
  induction s as [|c s IH]; [done|].
  rewrite sapp_cons. cbn [Str.lower]. by rewrite IH, sapp_cons.
Qed.

(** A suffix that a dot opens and that holds no other dot: whether a name
    that ends in a dot and [t] has it depends on [t] alone. *)
Lemma endswith_extension x y t e :
  Str.all (λ c, negb (Ascii.eqb c ".")) e = true →
  Str.endswith (x +:+ "." +:+ t) (String "." e) = true →
  Str.endswith (y +:+ "." +:+ t) (String "." e) = true.
Proof.
  intros He [u Hu]%endswith_iff. apply endswith_iff.
  apply sapp_eq_app in Hu as [(z & -> & Hz)|(z & -> & Hz)].
  - destruct z as [|c z].
    + rewrite sapp_nil_l in Hz. exists y. by rewrite Hz.
    + rewrite sapp_cons in Hz. injection Hz as <- ->.
      rewrite sall_app in He. apply andb_true_iff in He as [_ He].
      rewrite sapp_cons in He. cbn [Str.all] in He.
      by rewrite ascii_eqb_refl in He.
  - exists (y +:+ z). by rewrite sapp_assoc, <-Hz.
Qed.
End SuffixFacts.

Section PathFacts2.
Local Arguments Ascii.eqb : simpl never.

Lemma basename_id n : Str.all no_slash n = true → basename n = n.
Proof.
  destruct n as [|c n]; [done|]. cbn [Str.all basename].
  intros [Hc Hn]%andb_true_iff. fold no_slash. unfold no_slash in Hn |- *.
  rewrite Hn. unfold no_slash in Hc. by destruct (Ascii.eqb c "/").
Qed.

Lemma all_no_slash_app_slash u n :
  Str.all (λ a, negb (Ascii.eqb a "/")) (u +:+ "/" +:+ n) = false.
Proof.
  rewrite sall_app. apply andb_false_iff. right.
  rewrite sapp_cons. cbn [Str.all]. by rewrite ascii_eqb_refl.
Qed.

Lemma basename_app_slash u n :
  Str.all no_slash n = true → basename (u +:+ "/" +:+ n) = n.
Proof.
  intros Hn. induction u as [|c u IH].
  - rewrite sapp_nil_l, sapp_cons, sapp_nil_l. cbn [basename].
    unfold no_slash in Hn. by rewrite Hn, ascii_eqb_refl.
  - rewrite sapp_cons. cbn [basename]. by rewrite all_no_slash_app_slash.
Qed.

(** [join] puts its second argument last; when that is a name without slash
    it is the basename of the result. *)
Lemma join_suffix p n : ∃ u, join p n = u +:+ n.
Proof.
  unfold join. destruct (Str.startswith n "/"); [by exists ""|].
  destruct (_ || _); [by exists p|]. exists (p +:+ "/"). by rewrite sapp_assoc.
Qed.

Lemma basename_join p n : Str.all no_slash n = true → basename (join p n) = n.
Proof.
  intros Hn. unfold join. rewrite (no_slash_startswith n Hn).
  destruct (String.eqb p "") eqn:Hp.
  - apply String.eqb_eq in Hp as ->. cbn [orb]. rewrite sapp_nil_l.
    by apply basename_id.
  - cbn [orb]. destruct (Str.endswith p "/") eqn:Hs.
    + apply endswith_iff in Hs as [u ->]. rewrite sapp_assoc.
      by apply basename_app_slash.
    + by apply basename_app_slash.
Qed.

Lemma entry_of_join p n : Str.all no_slash n = true → entry_of p (join p n) = Some n.
Proof.
  intros Hn. unfold entry_of. rewrite basename_join by done.
  by rewrite decide_True.
Qed.

Lemma split_hd_takewhile sep s :
  hd "" (Str.split sep s) = ReSpec.takewhile (λ c, negb (Ascii.eqb c sep)) s.
Proof.
  induction s as [|c s IH]; [done|]. cbn [Str.split ReSpec.takewhile].
  destruct (Ascii.eqb c sep); [done|]. cbn [negb].
  destruct (split_cons sep s) as (w & ws & Hw). rewrite Hw in IH |- *.
  cbn [hd] in IH |- *. by rewrite IH.
Qed.

Lemma split_hd_app sep q x y :
  hd "" (Str.split sep (q +:+ String sep x)) = hd "" (Str.split sep (q +:+ String sep y)).
Proof.
  rewrite !split_hd_takewhile.
  induction q as [|c q IH].
  - rewrite !sapp_nil_l. cbn [ReSpec.takewhile]. by rewrite ascii_eqb_refl.
  - rewrite !sapp_cons. cbn [ReSpec.takewhile]. by rewrite IH.
Qed.

(** [os.path.dirname] of a file in a directory *)
Lemma dirname_head_app_slash u n :
  Str.all no_slash n = true → dirname_head (u +:+ "/" +:+ n) = u +:+ "/".
Proof.
  intros Hn. induction u as [|c u IH].
  - rewrite !sapp_nil_l, sapp_cons, sapp_nil_l. cbn [dirname_head].
    by rewrite Hn, ascii_eqb_refl.
  - rewrite !(sapp_cons c u). cbn [dirname_head].
    unfold no_slash at 1. by rewrite all_no_slash_app_slash, IH.
Qed.

Lemma rstrip_slash_app_slash s : rstrip_slash (s +:+ "/") = rstrip_slash s.
Proof.
  induction s as [|c s IH]; [done|]. rewrite sapp_cons. cbn [rstrip_slash].
  by rewrite IH.
Qed.

Lemma rstrip_slash_id s : Str.endswith s "/" = false → rstrip_slash s = s.
Proof.
  induction s as [|c s IH]; [done|]. intros Hs. cbn [rstrip_slash].
  destruct (decide (s = "")) as [->|Hne].
  - cbn [rstrip_slash String.eqb]. rewrite andb_true_r.
    destruct (Ascii.eqb c "/") eqn:Hc; [|done].
    apply Ascii.eqb_eq in Hc as ->. done.
  - rewrite IH.
    + destruct (String.eqb s "") eqn:Hs'; [by apply String.eqb_eq in Hs'|].
      by rewrite andb_false_r.
    + destruct (Str.endswith s "/") eqn:Hs'; [|done].
      pose proof (endswith_app (String c "") s "/" Hs') as Hs''.
      rewrite sapp_cons, sapp_nil_l in Hs''. congruence.
Qed.

Lemma dirname_file d n :
  d ≠ "" → Str.endswith d "/" = false → Str.all no_slash n = true →
  dirname (d +:+ "/" +:+ n) = d.
Proof.
  intros Hd Hs Hn. unfold dirname. rewrite dirname_head_app_slash by done.
  assert (rstrip_slash (d +:+ "/") = d) as Hr.
  { rewrite rstrip_slash_app_slash. by apply rstrip_slash_id. }
  destruct (String.eqb (d +:+ "/") "") eqn:He.
  { apply String.eqb_eq in He. by destruct d. }
  destruct (Str.all _ (d +:+ "/")) eqn:Ha; [|done].
  cbn [negb andb]. rewrite sall_app in Ha. apply andb_true_iff in Ha as [Ha _].
  destruct d as [|c d]; [done|]. exfalso.
  assert (∀ s, s ≠ "" → Str.all (λ c, Ascii.eqb c "/") s = true →
               Str.endswith s "/" = true) as Hend.
  { clear. intros s Hne Hall. apply endswith_iff.
    induction s as [|c s IH]; [done|]. cbn [Str.all] in Hall.
    apply andb_true_iff in Hall as [Hc Hall]. apply Ascii.eqb_eq in Hc as ->.
    destruct s as [|c' s]; [by exists ""|].
    destruct IH as [u Hu]; [done..|]. exists (String "/" u).
    by rewrite sapp_cons, <-Hu. }
  rewrite Hend in Hs; done.
Qed.

Lemma dirname_root n : Str.all no_slash n = true → dirname ("/" +:+ n) = "/".
Proof.
  intros Hn. unfold dirname.
  pose proof (dirname_head_app_slash "" n Hn) as Hh.
  rewrite !sapp_nil_l in Hh. by rewrite Hh.
Qed.
End PathFacts2.

(** ** The renamer's mapping on names of one line *)

Section RenamerLine.
Local Arguments Ascii.eqb : simpl never.

Lemma all_suffix_head (P : ascii → bool) s m r :
  Str.all P s = true → s = m +:+ r →
  r = "" ∨ ∃ c r', r = String c r' ∧ P c = true.
Proof.
  intros Hs ->. rewrite sall_app in Hs. apply andb_true_iff in Hs as [_ Hr].
  destruct r as [|c r]; [by left|]. right. exists c, r.
  cbn [Str.all] in Hr. by apply andb_true_iff in Hr as [? _].
Qed.

(** The forward reading: a name of one line that ends in [_fn], digits, a
    dot and a rest without underscore is renamed at that place. *)
Lemma new_file_name_intro q number t :
  Str.all Re.dot q = true →
  Str.all Re.digit number = true → number ≠ "" →
  Str.all Re.dot t = true → t ≠ "" →
  Str.all (λ c, negb (Ascii.eqb c "_")) t = true →
  Str.endswith_any (Str.lower (q +:+ "_fn" +:+ number +:+ "." +:+ t)) image_extensions
  = true →
  new_file_name (q +:+ "_fn" +:+ number +:+ "." +:+ t)
  = inr (Some (q +:+ "_fn" +:+ format_06 (int_digits 0 number) +:+ "." +:+ t)).
Proof.
  intros Hq Hnum Hne Ht Hte Hu Hext. unfold new_file_name. rewrite Hext.
  assert (Re.search (q +:+ "_fn" +:+ number +:+ "." +:+ t)
          = Some (q +:+ "_fn", number, "." +:+ t)) as ->.
  { apply search_match_at.
    pose proof (match_at_intro q number t "" Hq Hnum Hne Ht Hte) as Hm.
    rewrite !sapp_nil_r in Hm. apply Hm; [by left|].
    intros m r' Heq Hm0 _.
    destruct m as [|c m]; [done|].
    change ("_fn" +:+ number +:+ "." +:+ t)
      with (String "_" ("fn" +:+ number +:+ "." +:+ t)) in Heq.
    rewrite sapp_cons in Heq. injection Heq as _ Heq.
    assert (Str.all (λ c, negb (Ascii.eqb c "_")) (m +:+ r') = true) as Hall.
    { rewrite <-Heq. cbn [Str.all]. rewrite !sall_app, Hu.
      assert (Str.all (λ c, negb (Ascii.eqb c "_")) number = true) as ->;
        [|reflexivity].
      apply (all_impl Re.digit); [|done].
      intros c0 Hc. rewrite Ascii.eqb_sym. by rewrite digit_not_underscore. }
    destruct (all_suffix_head _ _ m r' Hall eq_refl) as [->|(c' & r'' & -> & Hc')].
    - apply after_fn_empty.
    - apply after_fn_head. intros ->. by rewrite ascii_eqb_refl in Hc'. }
  rewrite int_digits_ok by done. by rewrite sapp_assoc.
Qed.

(** The closing dot and rest of a renamed name of one line decide on every
    extension. *)
Lemma extension_moves x y t p :
  p ∈ image_extensions →
  Str.endswith (Str.lower (x +:+ "." +:+ t)) p = true →
  Str.endswith (Str.lower (y +:+ "." +:+ t)) p = true.
Proof.
  intros Hp. rewrite !lower_app.
  change (Str.lower ".") with ".".
  unfold image_extensions in Hp.
  repeat (apply elem_of_cons in Hp as [->|Hp];
          [by apply endswith_extension|]).
  by apply elem_of_nil in Hp.
Qed.

Lemma extension_moves_any x y t l :
  l ⊆ image_extensions →
  Str.endswith_any (Str.lower (x +:+ "." +:+ t)) l
  = Str.endswith_any (Str.lower (y +:+ "." +:+ t)) l.
Proof.
  intros Hl.
  destruct (Str.endswith_any (Str.lower (y +:+ "." +:+ t)) l) eqn:Hy.
  - apply endswith_any_iff in Hy as (p & Hp & Hy). apply endswith_any_iff.
    exists p. split; [done|]. apply (extension_moves y); [by apply Hl|done].
  - destruct (Str.endswith_any (Str.lower (x +:+ "." +:+ t)) l) eqn:Hx; [|done].
    apply endswith_any_iff in Hx as (p & Hp & Hx).
    rewrite <-Hy. symmetry. apply endswith_any_iff.
    exists p. split; [done|]. apply (extension_moves x); [by apply Hl|done].
Qed.

Lemma valid_extensions_image : valid_extensions ⊆ image_extensions.
Proof.
  intros p Hp. unfold valid_extensions in Hp. unfold image_extensions.
  rewrite !elem_of_cons, elem_of_nil in Hp. rewrite !elem_of_cons. tauto.
Qed.
End RenamerLine.

(** ** The images of a folder and their groups *)

Section FolderImages.
Local Arguments Str.startswith : simpl never.
Local Arguments Str.split : simpl never.
Local Arguments basename : simpl never.
Local Arguments join : simpl never.

Lemma run_get_images_from_folder {W} (respond : ∀ X, event X → W → X * W)
    folder_path st :
  run respond (get_images_from_folder folder_path) st
  = match respond _ (OsListdir folder_path) (world st) with
    | (inl e, w) => (inl e, State w (console st))
    | (inr file_names, w) =>
        (inr (join folder_path
                <$> filter (λ f, Str.endswith_any (Str.lower f) valid_extensions = true)
                      file_names),
         State w (console st))
    end.
Proof.
  unfold get_images_from_folder. rewrite run_bind, run_call. cbn [handle].
  by destruct (respond _ _ _) as [[e|file_names] w].
Qed.

Lemma dev_indicator_join p n :
  Str.all no_slash n = true → dev_indicator (join p n) = dev_indicator n.
Proof.
  intros Hn. unfold dev_indicator. by rewrite basename_join, basename_id.
Qed.

Lemma is_dev_join p n : Str.all no_slash n = true → is_dev (join p n) = is_dev n.
Proof. intros Hn. unfold is_dev. by rewrite dev_indicator_join. Qed.

Lemma Forall_filter {A} (Q : A → Prop) (P : A → Prop) `{∀ x, Decision (P x)} l :
  Forall Q l → Forall Q (filter P l).
Proof.
  rewrite !Forall_forall. intros HQ x [_ Hx]%list_elem_of_filter. by apply HQ.
Qed.

Lemma members_join p key names :
  Forall (λ n, Str.all no_slash n = true) names →
  members key (join p <$> names) = join p <$> members key names.
Proof.
  unfold members. induction 1 as [|n names Hn _ IH]; [done|].
  rewrite fmap_cons, !filter_cons, IH.
  rewrite is_dev_join, dev_indicator_join by done.
  by destruct (decide _).
Qed.

Lemma skipped_join p names :
  Forall (λ n, Str.all no_slash n = true) names →
  skipped (join p <$> names) = skipped names.
Proof.
  unfold skipped. induction 1 as [|n names Hn _ IH]; [done|].
  rewrite fmap_cons, !filter_cons, is_dev_join by done.
  destruct (decide _); [|done].
  rewrite !fmap_cons, IH. by rewrite basename_join, basename_id.
Qed.

End FolderImages.

(** ** What the renamer does *)

Section RenamerCalls.
Context {W : Type} (respond : ∀ X, event X → W → X * W).
Implicit Types (st : state (W * list performed)).

Lemma recorded_eq X (ev : event X) (wl : W * list performed) :
  recorded respond X ev wl
  = ((respond X ev wl.1).1,
     ((respond X ev wl.1).2, wl.2 ++ performed_of ev (respond X ev wl.1).1)).
Proof. unfold recorded. by destruct (respond X ev wl.1). Qed.

(** The calls of the renamer's loop: one rename for each listed name that
    has a new name, in the order of the listing, up to the first rename that
    fails. *)
Lemma loop_calls folder_path names st :
  let r := run (recorded respond) (for_each names (loop_body folder_path)) st in
  ∃ pairs : list (string * string * (exception + unit)),
    calls r.2
    = calls st ++ ((λ p, Rename (join folder_path p.1.1) (join folder_path p.1.2) p.2)
                     <$> pairs)
    ∧ pairs.*1.*1 `sublist_of` names
    ∧ Forall (λ p, new_file_name p.1.1 = inr (Some p.1.2)) pairs
    ∧ (r.1 = inr () → Forall (λ p, p.2 = inr ()) pairs)
    ∧ (∀ e, r.1 = inl e →
         ∃ done n b, pairs = done ++ [(n, b, inl e)]
                     ∧ Forall (λ p, p.2 = inr ()) done).
Proof.
  revert st. induction names as [|a names IH]; intros st.
  { exists []. cbn. split_and!; try done. by rewrite app_nil_r. }
  cbn zeta. rewrite run_for_each_cons, run_loop_body.
  destruct (new_file_name a) as [e|[b|]] eqn:Hnew.
  - by destruct (new_file_name_no_raise a e).
  - rewrite recorded_eq.
    destruct (respond _ (OsRename (join folder_path a) (join folder_path b))
                (world st).1) as [[e|[]] w1] eqn:Hr; cbn [fst snd performed_of].
    + exists [(a, b, inl e)]. cbn [fst snd]. split_and!.
      * reflexivity.
      * cbn. apply sublist_skip, sublist_nil_l.
      * by constructor.
      * intros Hres. cbn in Hres. discriminate.
      * intros e' Hres. cbn in Hres. injection Hres as <-. by exists [], a, b.
    + destruct (IH (State (w1, (world st).2
                              ++ [Rename (join folder_path a) (join folder_path b)
                                    (inr ())])
                      (console st ++ [Text ("Renamed: " +:+ a +:+ " -> " +:+ b)])))
        as (pairs & Hc & Hsub & Hnews & Hok & Hfail).
      exists ((a, b, inr ()) :: pairs). split_and!.
      * rewrite Hc. unfold calls. cbn [world snd]. rewrite <-app_assoc. done.
      * rewrite !fmap_cons. cbn [fst]. by apply sublist_skip.
      * by constructor.
      * intros Hres. constructor; [done|by apply Hok].
      * intros e Hres. destruct (Hfail e Hres) as (done & n & b' & -> & Hdone).
        exists ((a, b, inr ()) :: done), n, b'. split; [done|by constructor].
  - destruct (IH st) as (pairs & Hc & Hsub & Hnews & Hok & Hfail).
    exists pairs. split_and!; try done. by apply sublist_cons.
Qed.
End RenamerCalls.

Section RenamerConsole.
Context {W : Type} (respond : ∀ X, event X → W → X * W).

(** The loop of the renamer prints nothing but its lines of renaming. *)
Lemma loop_console p names (st : state W) :
  ∃ extra,
    console (run respond (for_each names (loop_body p)) st).2 = console st ++ extra
    ∧ Forall (λ t, ∃ a b, t = Text ("Renamed: " +:+ a +:+ " -> " +:+ b)) extra.
Proof.
  revert st. induction names as [|a names IH]; intros st.
  { exists []. by rewrite app_nil_r. }
  rewrite run_for_each_cons, run_loop_body.
  destruct (new_file_name a) as [e|[b|]].
  - exists []. by rewrite app_nil_r.
  - destruct (respond _ (OsRename _ _) _) as [[e|[]] w1].
    + exists []. by rewrite app_nil_r.
    + destruct (IH (State w1 (console st ++
                      [Text ("Renamed: " +:+ a +:+ " -> " +:+ b)])))
        as (extra & -> & Hextra).
      exists (Text ("Renamed: " +:+ a +:+ " -> " +:+ b) :: extra).
      cbn [console]. split; [by rewrite <-app_assoc|].
      constructor; [by exists a, b|done].
  - apply IH.
Qed.
End RenamerConsole.

(** ** The order and the contents of the groups *)

Section GroupOrder.
Local Arguments Str.startswith : simpl never.
Local Arguments Str.split : simpl never.
Local Arguments basename : simpl never.

Lemma first_seen_ext seen1 seen2 keys :
  (∀ x, x ∈ seen1 ↔ x ∈ seen2) → first_seen seen1 keys = first_seen seen2 keys.
Proof.
  revert seen1 seen2. induction keys as [|key keys IH]; intros seen1 seen2 Hs; [done|].
  cbn [first_seen].
  destruct (decide (key ∈ seen1)) as [H1|H1], (decide (key ∈ seen2)) as [H2|H2].
  - by apply IH.
  - by apply Hs in H1.
  - by apply Hs in H2.
  - f_equal. apply IH. intros x. rewrite !elem_of_cons. by rewrite Hs.
Qed.

Lemma group_pure_keys images acc :
  (group_pure images acc).*1
  = acc.*1 ++ first_seen acc.*1
                (dev_indicator <$> filter (λ p, is_dev p = true) images).
Proof.
  revert acc. induction images as [|img images IH]; intros acc.
  { cbn. by rewrite app_nil_r. }
  cbn [group_pure]. rewrite filter_cons.
  destruct (is_dev img) eqn:Hdev.
  - rewrite decide_True by done. rewrite fmap_cons. cbn [first_seen].
    rewrite IH, dict_append_keys.
    destruct (decide (dev_indicator img ∈ acc.*1)) as [Hin|Hin]; [done|].
    rewrite <-app_assoc. cbn [app]. do 2 f_equal.
    apply first_seen_ext. intros x. rewrite elem_of_app, !elem_of_cons, elem_of_nil.
    tauto.
  - rewrite decide_False by done. apply IH.
Qed.

Lemma dict_get_Some_key {V} (d : dict V) k v : dict_get d k = Some v → k ∈ d.*1.
Proof.
  induction d as [|[k' v'] d IH]; [done|]. cbn [dict_get]. rewrite fmap_cons.
  destruct (String.eqb k' k) eqn:Hk.
  - apply String.eqb_eq in Hk as ->. intros _. apply elem_of_cons. by left.
  - intros Hd. apply elem_of_cons. right. by apply IH.
Qed.

Lemma dict_by_keys {V} (d : dict V) (f : string → V) :
  NoDup d.*1 → (∀ k v, dict_get d k = Some v → v = f k) →
  d = (λ k, (k, f k)) <$> d.*1.
Proof.
  induction d as [|[k v] d IH]; [done|]. rewrite !fmap_cons.
  intros [Hk Hnd]%NoDup_cons Hf. cbn [fst]. f_equal.
  - f_equal. apply Hf. cbn [dict_get]. by rewrite String.eqb_refl.
  - apply IH; [done|]. intros k' v' Hget. apply Hf. cbn [dict_get].
    destruct (String.eqb k k') eqn:Hkk; [|done].
    apply String.eqb_eq in Hkk as ->. by apply dict_get_Some_key in Hget.
Qed.

Lemma grouped_keys images limit :
  (fmap (M:=list) (λ entry : string * list string,
      (entry.1, slice_to entry.2 limit)) (group_pure images [])).*1
  = first_seen [] (dev_indicator <$> filter (λ p, is_dev p = true) images).
Proof.
  rewrite <-list_fmap_compose.
  change (fst ∘ _) with (fst (A:=string) (B:=list string)).
  by rewrite group_pure_keys.
Qed.

(** The dictionary that [group_images_by_developer] returns, entry by entry *)
Lemma grouped_by_keys images limit :
  fmap (M:=list) (λ entry : string * list string,
      (entry.1, slice_to entry.2 limit)) (group_pure images [])
  = (λ key, (key, slice_to (members key images) limit))
      <$> first_seen [] (dev_indicator <$> filter (λ p, is_dev p = true) images).
Proof.
  rewrite <-grouped_keys with (limit := limit).
  apply dict_by_keys; [apply grouped_NoDup|].
  intros k v. rewrite dict_get_grouped.
  destruct (members k images); [done|]. by intros [= <-].
Qed.

Lemma mjoin_cons {A} (x : list A) (l : list (list A)) : mjoin (x :: l) = x ++ mjoin l.
Proof. reflexivity. Qed.

Lemma mjoin_dict_append (d : dict (list string)) k x :
  mjoin (dict_append d k x).*2 ≡ₚ mjoin d.*2 ++ [x].
Proof.
  induction d as [|[k' v] d IH]; [done|]. cbn [dict_append].
  destruct (String.eqb k' k).
  - rewrite !fmap_cons, !mjoin_cons. cbn [snd].
    rewrite <-!app_assoc. apply Permutation_app_head, Permutation_app_comm.
  - rewrite !fmap_cons, !mjoin_cons. cbn [snd]. rewrite IH. by rewrite app_assoc.
Qed.

Lemma mjoin_group_pure images acc :
  mjoin (group_pure images acc).*2
  ≡ₚ mjoin acc.*2 ++ filter (λ p, is_dev p = true) images.
Proof.
  revert acc. induction images as [|img images IH]; intros acc.
  { cbn. by rewrite app_nil_r. }
  cbn [group_pure]. rewrite filter_cons. destruct (is_dev img) eqn:Hdev.
  - rewrite decide_True by done. rewrite IH, mjoin_dict_append.
    by rewrite <-app_assoc.
  - rewrite decide_False by done. apply IH.
Qed.

Lemma length_members key images : (length (members key images) ≤ length images)%nat.
Proof. apply length_filter. Qed.

Lemma grouped_uncut images limit :
  (Z.of_nat (length images) ≤ limit)%Z →
  fmap (M:=list) (λ entry : string * list string,
      (entry.1, slice_to entry.2 limit)) (group_pure images [])
  = group_pure images [].
Proof.
  intros Hl. transitivity (id <$> group_pure images []); [|apply list_fmap_id].
  apply list_fmap_ext. intros i [k v] Hi. cbn [fst snd id].
  assert (dict_get (group_pure images []) k = Some v) as Hget.
  { apply dict_get_elem_of; [apply group_pure_NoDup; constructor|].
    by eapply list_elem_of_lookup_2. }
  rewrite dict_get_group_pure in Hget. cbn [dict_get] in Hget.
  destruct (members k images) as [|x l] eqn:Hm; [done|]. injection Hget as <-.
  f_equal. apply slice_to_ge. pose proof (length_members k images). rewrite Hm in *. lia.
Qed.
End GroupOrder.

(** ** The grid video and [main] *)

Section GridFacts.
Context {W T : Type}.
Context (respond : ∀ X, event X → W → X * W).
Context (time_time : W → T * W) (seconds_2f : T → T → string).
Context (schedule : list nat) (cancel : nat → bool).
Implicit Types (st : state W) (cmd : list string).

Lemma action_bind_inr {A B} (m : action W A) (f : A → action W B) st a st' :
  m st = (inr a, st') → action_bind m f st = f a st'.
Proof. intros Hm. unfold action_bind. by rewrite Hm. Qed.

Lemma action_bind_inl {A B} (m : action W A) (f : A → action W B) st e st' :
  m st = (inl e, st') → action_bind m f st = (inl e, st').
Proof. intros Hm. unfold action_bind. by rewrite Hm. Qed.

Lemma read_clock_eq st :
  read_clock time_time st
  = (inr (time_time (world st)).1, State (time_time (world st)).2 (console st)).
Proof. unfold read_clock. by destruct (time_time (world st)). Qed.

Lemma run_print_stamped s st :
  run respond (print_stamped s) st
  = (inr (),
     State (respond _ (TimeStrftime "%H:%M:%S") (world st)).2
       (console st ++ [Text ("[" +:+ (respond _ (TimeStrftime "%H:%M:%S") (world st)).1
                             +:+ "] " +:+ s)])).
Proof.
  unfold print_stamped. rewrite run_bind. cbn [run handle].
  destruct (respond _ _ _) as [now w]. by rewrite run_print.
Qed.

Lemma run_makedirs path st :
  (respond _ (OsMakedirs path) (world st)).1 = inr () →
  perform respond (call (OsMakedirs path)) st
  = (inr (), State (respond _ (OsMakedirs path) (world st)).2 (console st)).
Proof.
  intros Hm. unfold perform. rewrite run_call. cbn [handle].
  destruct (respond _ _ _) as [r w]. cbn [fst snd] in *. by rewrite Hm.
Qed.

Lemma perform_get_images folder_path st file_names :
  (respond _ (OsListdir folder_path) (world st)).1 = inr file_names →
  perform respond (get_images_from_folder folder_path) st
  = (inr (join folder_path
            <$> filter (λ f, Str.endswith_any (Str.lower f) valid_extensions = true)
                  file_names),
     State (respond _ (OsListdir folder_path) (world st)).2 (console st)).
Proof.
  intros Hl. unfold perform. rewrite run_get_images_from_folder.
  destruct (respond _ _ _) as [r w]. cbn [fst snd] in *. by rewrite Hl.
Qed.

Lemma perform_strftime format st :
  perform respond (now ← Vis (TimeStrftime format) Ret ; Ret now) st
  = (inr (respond _ (TimeStrftime format) (world st)).1,
     State (respond _ (TimeStrftime format) (world st)).2 (console st)).
Proof.
  unfold perform. rewrite run_bind. cbn [run handle].
  by destruct (respond _ _ _) as [now w].
Qed.

(** The [try] statement around the grid command, outcome by outcome *)
Lemma run_run_grid_cmd cmd st :
  run respond (run_grid_cmd cmd) st
  = let answer := respond _ (SubprocessRun cmd) (world st) in
    match answer.1 with
    | inr result =>
        match bytes_decode (stderr result) with
        | inr decoded =>
            (inr true, State answer.2 (console st ++ [TextDecoded "" decoded]))
        | inl e => (inl e, State answer.2 (console st))
        end
    | inl (CalledProcessError rc err msg) =>
        let line := Text ("Error while combining videos: " +:+ msg) in
        match bytes_decode err with
        | inr decoded =>
            (inr false,
             State answer.2 (console st ++ [line; TextDecoded "FFmpeg stderr: " decoded]))
        | inl e => (inl e, State answer.2 (console st ++ [line]))
        end
    | inl e => (inl e, State answer.2 (console st))
    end.
Proof.
  unfold run_grid_cmd. rewrite run_try_except, run_bind, run_call. cbn [handle].
  destruct (respond _ _ _) as [[e|result] w]; cbn [fst snd].
  - destruct e as [| | | | |rc err msg]; try done.
    rewrite run_bind, run_print, run_bind, run_lift. cbn [world console].
    destruct (bytes_decode err) as [e|decoded]; [done|].
    rewrite run_bind, run_vis_print. cbn [run world console]. by rewrite <-app_assoc.
  - rewrite run_bind, run_lift. cbn [world console].
    destruct (bytes_decode (stderr result)) as [e|decoded] eqn:Hd.
    + unfold bytes_decode in Hd. destruct (utf8_valid _); [done|].
      by injection Hd as <-.
    + rewrite run_bind, run_vis_print. reflexivity.
Qed.

Lemma cooperative_cooperative_but cmd :
  (∀ X ev w, cooperative X ev (respond X ev w).1) →
  ∀ X ev w, cooperative_but cmd X ev (respond X ev w).1.
Proof.
  intros Hc X ev w. specialize (Hc X ev w). destruct ev; try done. by right.
Qed.

Lemma handle_cooperative_but cmd :
  (∀ X ev w, cooperative_but cmd X ev (respond X ev w).1) →
  ∀ X (ev : event X) st, cooperative_but cmd X ev (handle respond ev st).1.
Proof.
  intros Hc X ev st. pose proof (Hc X ev (world st)) as H.
  destruct ev; cbn [handle]; try done; by destruct (respond _ _ _).
Qed.

(** The command of a clip is never the command of the grid. *)
Lemma encoder_cmd_not_grid_cmd group_index frame_rate temp_dir ffmpeg_path
    ffmpeg_path' videos output_path :
  encoder_cmd group_index frame_rate temp_dir ffmpeg_path
  ≠ grid_cmd ffmpeg_path' videos output_path.
Proof.
  unfold encoder_cmd, grid_cmd. rewrite input_cmds_concat.
  destruct videos as [|video videos]; cbn; intros [=].
Qed.

(** A clip task among cooperative answers returns the path of its clip. *)
Lemma create_video_from_group_cooperative cmd group group_index frame_rate
    temp_dir ffmpeg_path :
  (∀ ffmpeg_path', encoder_cmd group_index frame_rate temp_dir ffmpeg_path' ≠ cmd) →
  ends_with (cooperative_but cmd) false (clip_path temp_dir group_index)
    (create_video_from_group group group_index frame_rate temp_dir ffmpeg_path).
Proof.
  intros Hcmd.
  unfold create_video_from_group, create_ffmpeg_input_file, call, print, mbind, prog_bind.
  cbn [bind try_except]. apply ends_vis. intros [e|[]] Hw; [done|]. clear Hw.
  cbn [bind try_except]. apply ends_vis. intros [e|cp] [Hr|Hr];
    try (by destruct (Hcmd ffmpeg_path)).
  - destruct e as [| | | | |rc err msg]; try done.
    cbn [bind try_except]. apply ends_vis. intros [] _.
    unfold bytes_decode. cbn in Hr. rewrite Hr.
    cbn [bind lift]. apply ends_vis. intros [] _. apply ends_ret.
  - cbn [bind try_except]. apply ends_vis. intros now _.
    cbn [bind try_except]. apply ends_vis. intros [] _. apply ends_ret.
Qed.

Lemma intermediate_videos_cooperative groups frame_rate temp_dir ffmpeg_path
    output_path videos st :
  (∀ X ev w, cooperative_but (grid_cmd ffmpeg_path videos output_path) X ev
               (respond X ev w).1) →
  (intermediate_videos respond schedule cancel groups frame_rate temp_dir
     ffmpeg_path st).1
  = inr ((λ i, clip_path temp_dir (N.of_nat i)) <$> seq 0 (length groups)).
Proof.
  intros Hc. unfold intermediate_videos.
  assert ((λ ig : N * list string, clip_path temp_dir ig.1) <$> enumerate groups
          = (λ i, clip_path temp_dir (N.of_nat i)) <$> seq 0 (length groups)) as <-.
  { unfold enumerate. by rewrite (enumerate_from_fmap (clip_path temp_dir)). }
  apply (executor_map_ends respond (cooperative_but (grid_cmd ffmpeg_path videos output_path))
           false (handle_cooperative_but _ Hc)); [|done].
  intros [i group]. apply create_video_from_group_cooperative.
  intros ffmpeg_path'. apply encoder_cmd_not_grid_cmd.
Qed.

(** [create_video_from_grouped_images] among cooperative answers: it ends as
    the answer to the grid command over the clips, in the order of the
    groups, decides. *)
Lemma grouped_images_outcome groups output_path frame_rate temp_dir ffmpeg_path st :
  let clips := (λ i, clip_path temp_dir (N.of_nat i)) <$> seq 0 (length groups) in
  let cmd := grid_cmd ffmpeg_path clips output_path in
  (∀ X ev w, cooperative_but cmd X ev (respond X ev w).1) →
  ∃ w1,
    (create_video_from_grouped_images respond time_time seconds_2f schedule cancel
       groups output_path frame_rate temp_dir ffmpeg_path st).1
    = grid_outcome (respond _ (SubprocessRun cmd) w1).1.
Proof.
  intros clips cmd Hc. unfold create_video_from_grouped_images.
  erewrite action_bind_inr; [|apply run_makedirs, (Hc _ (OsMakedirs temp_dir))].
  erewrite action_bind_inr; [|unfold perform; apply run_print_stamped].
  erewrite action_bind_inr; [|apply read_clock_eq].
  cbn [world console].
  match goal with
  | |- context [action_bind _ _ ?s] =>
      pose proof (intermediate_videos_cooperative groups frame_rate temp_dir
                    ffmpeg_path output_path clips s Hc) as Hv;
      destruct (intermediate_videos respond schedule cancel groups frame_rate
                  temp_dir ffmpeg_path s) as [r st2] eqn:Hrun
  end.
  cbn [fst] in Hv. subst r.
  erewrite action_bind_inr; [|exact Hrun].
  erewrite action_bind_inr; [|apply read_clock_eq].
  erewrite action_bind_inr; [|unfold perform; apply run_print].
  erewrite action_bind_inr; [|unfold perform; apply run_print_stamped].
  erewrite action_bind_inr; [|apply read_clock_eq].
  cbn [world console]. fold clips. fold cmd.
  match goal with
  | |- context [action_bind _ _ ?s] =>
      exists (world s); unfold action_bind at 1; unfold perform at 1;
      rewrite (run_run_grid_cmd cmd s)
  end.
  cbn [world console]. cbv zeta.
  destruct (respond _ (SubprocessRun cmd) _) as [[e|result] w1]; cbn [fst snd].
  - destruct e as [| | | | |rc err msg]; try done. cbn [grid_outcome].
    unfold bytes_decode. by destruct (utf8_valid _).
  - cbn [grid_outcome]. unfold bytes_decode. destruct (utf8_valid _); [|done].
    erewrite action_bind_inr; [|apply read_clock_eq].
    unfold perform. by rewrite run_print.
Qed.
End GridFacts.

(** * Further properties of the two scripts *)

(** X1.  [get_images_from_folder] has no handler: when the listing of the
    folder raises, the exception leaves the function and nothing is printed.
    Otherwise it returns, without printing, the listed names that end, in
    lower case, with one of its six extensions, each joined to the folder, in
    the order of the listing; every returned path ends with such an extension
    too, and for names without slash (as a listing has them) the basenames of
    the returned paths are the names kept. *)
Theorem X1_images_of_folder {W} (respond : ∀ X, event X → W → X * W)
    (folder_path : string) (st : state W) :
  (∀ e w, respond _ (OsListdir folder_path) (world st) = (inl e, w) →
     run respond (get_images_from_folder folder_path) st
     = (inl e, State w (console st)))
  ∧ (∀ file_names w,
       respond _ (OsListdir folder_path) (world st) = (inr file_names, w) →
       let kept := filter (λ f, Str.endswith_any (Str.lower f) valid_extensions = true)
                     file_names in
       run respond (get_images_from_folder folder_path) st
       = (inr (join folder_path <$> kept), State w (console st))
       ∧ Forall (λ p, Str.endswith_any (Str.lower p) valid_extensions = true)
           (join folder_path <$> kept)
       ∧ (Forall (λ n, Str.all no_slash n = true) file_names →
          basename <$> (join folder_path <$> kept) = kept)).
Proof.
  split.
  - intros e w He. by rewrite run_get_images_from_folder, He.
  - intros file_names w Hl kept. split_and!.
    + by rewrite run_get_images_from_folder, Hl.
    + apply Forall_fmap, Forall_forall. intros f Hf.
      apply list_elem_of_filter in Hf as [Hf _].
      change (Str.endswith_any (Str.lower (join folder_path f)) valid_extensions = true).
      apply endswith_any_iff in Hf as (p & Hp & Hf). apply endswith_any_iff.
      exists p. split; [done|]. destruct (join_suffix folder_path f) as [u ->].
      rewrite lower_app. by apply endswith_app.
    + intros Hn. rewrite <-list_fmap_compose.
      assert (Forall (λ n, Str.all no_slash n = true) kept) as Hk.
      { by apply Forall_filter. }
      induction Hk as [|n l Hn' _ IH]; [done|].
      rewrite fmap_cons. cbn [compose]. by rewrite basename_join, IH.
Qed.

Lemma X1_images_of_folder_witness :
  run (respond_machine Ex.plain) (get_images_from_folder "d") (Ex.start Ex.two_files)
  = (inr ["d/a_fn1.png"; "d/b_fn2.png"], Ex.start Ex.two_files).
Proof.
  destruct (X1_images_of_folder (respond_machine Ex.plain) "d" (Ex.start Ex.two_files))
    as [_ H].
  destruct (H ["a_fn1.png"; "b_fn2.png"] Ex.two_files) as [-> _];
    [vm_compute; reflexivity|].
  vm_compute. reflexivity.
Defined.

(** X2.  The images of a folder, grouped: [get_images_from_folder] followed
    by [group_images_by_developer], as [main] chains them, on a listing of
    names without slash.  The group a picture goes to is decided by its file
    name alone, whatever the folder: the entry of a key holds the joined
    paths of the listed names with an accepted extension whose first
    [_]-segment is that key and starts with [Dev], in the order of the
    listing, cut by the cap; and the lines printed for the pictures passed
    over name the files, not the paths. *)
Theorem X2_folder_groups {W} (respond : ∀ X, event X → W → X * W)
    (folder_path : string) (limit : Z) (st : state W)
    (file_names : list string) (w : W) :
  respond _ (OsListdir folder_path) (world st) = (inr file_names, w) →
  Forall (λ n, Str.all no_slash n = true) file_names →
  let kept := filter (λ f, Str.endswith_any (Str.lower f) valid_extensions = true)
                file_names in
  ∃ d,
    run respond (images ← get_images_from_folder folder_path ;
                 group_images_by_developer images limit) st
    = (inr d, State w (console st ++ skipped kept))
    ∧ ∀ key, dict_get d key
             = match members key kept with
               | [] => None
               | l => Some (slice_to (join folder_path <$> l) limit)
               end.
Proof.
  intros Hl Hn kept. eexists. split.
  - rewrite run_bind, run_get_images_from_folder, Hl.
    rewrite run_group_images_by_developer. cbn [world console].
    fold kept. rewrite skipped_join by (by apply Forall_filter). done.
  - intros key. rewrite dict_get_grouped. fold kept.
    rewrite members_join by (by apply Forall_filter).
    by destruct (members key kept).
Qed.

Lemma X2_folder_groups_witness :
  ∃ d,
    run (respond_machine Ex.plain)
      (images ← get_images_from_folder "d" ; group_images_by_developer images 1)
      (Ex.start (Disk {["d"]} (<["d/Dev1_b.png" := []]> (<["d/Dev1_a.png" := []]>
                                 (<["d/x.png" := []]> ∅)))))
    = (inr d, State (Disk {["d"]} (<["d/Dev1_b.png" := []]> (<["d/Dev1_a.png" := []]>
                                     (<["d/x.png" := []]> ∅))))
                [Text "Skipping invalid file: x.png"])
    ∧ dict_get d "Dev1" = Some ["d/Dev1_a.png"].
Proof.
  destruct (X2_folder_groups (respond_machine Ex.plain) "d" 1
              (Ex.start (Disk {["d"]} (<["d/Dev1_b.png" := []]> (<["d/Dev1_a.png" := []]>
                                         (<["d/x.png" := []]> ∅)))))
              ["Dev1_a.png"; "Dev1_b.png"; "x.png"]
              (Disk {["d"]} (<["d/Dev1_b.png" := []]> (<["d/Dev1_a.png" := []]>
                               (<["d/x.png" := []]> ∅)))))
    as (d & Hrun & Hget).
  - vm_compute. reflexivity.
  - repeat constructor.
  - exists d. split; [exact Hrun|]. rewrite Hget. vm_compute. reflexivity.
Defined.

(** X3.  The two extension tables: the renamer accepts a name exactly when
    the video maker accepts it or it ends, in lower case, with [.gif].  So
    every picture the video maker reads is one the renamer looks at, and a
    [.gif] the renamer renames is never read by the video maker. *)
Theorem X3_extension_tables (file_name : string) :
  Str.endswith_any (Str.lower file_name) image_extensions
  = Str.endswith_any (Str.lower file_name) valid_extensions
    || Str.endswith (Str.lower file_name) ".gif".
Proof.
  unfold Str.endswith_any, image_extensions, valid_extensions. cbn [existsb].
  generalize (Str.lower file_name). intros s.
  destruct (Str.endswith s ".png"), (Str.endswith s ".jpg"),
    (Str.endswith s ".jpeg"), (Str.endswith s ".gif"), (Str.endswith s ".bmp"),
    (Str.endswith s ".tiff"), (Str.endswith s ".webp"); reflexivity.
Qed.

(** X4.  Which names the renamer leaves alone.  [new_file_name] never
    raises: the digits it hands to [int] are a run of digits that is not
    empty (for names shorter than the interpreter's limit of 4300 digits,
    which is not modelled).  And it answers that a name stays exactly when
    the name does not end, in lower case, with one of the renamer's seven
    extensions, or holds nowhere the pattern [_fn], digits, a dot and one
    more character of the same line. *)
Theorem X4_left_alone (file_name : string) :
  ((String.length file_name < 4300)%nat → ∃ new, new_file_name file_name = inr new)
  ∧ (new_file_name file_name = inr None ↔
     Str.endswith_any (Str.lower file_name) image_extensions = false
     ∨ ¬ has_pattern file_name).
Proof.
  split.
  - intros _. destruct (new_file_name file_name) as [e|new] eqn:Hnew.
    + by destruct (new_file_name_no_raise file_name e).
    + by exists new.
  - apply new_file_name_none.
Qed.

Lemma X4_left_alone_witness : ∃ new, new_file_name "shot_fn12.png" = inr new.
Proof.
  apply (X4_left_alone "shot_fn12.png"). vm_compute. lia.
Defined.

(** X5.  What a name of one line is renamed to.  For a name [q_fn<digits>.t]
    without line feed, with an extension of the renamer, where [t] is not
    empty and holds no underscore: the new name is [q_fn], the value of the
    digits in six places, the dot and [t].  The place is the last [_fn] with
    digits and a dot behind it: [q] may itself hold such places. *)
Theorem X5_renamed_at_last_fn (q number t : string) :
  Str.all Re.dot q = true →
  Str.all Re.digit number = true → number ≠ "" →
  Str.all Re.dot t = true → t ≠ "" →
  Str.all (λ c, negb (Ascii.eqb c "_")) t = true →
  Str.endswith_any (Str.lower (q +:+ "_fn" +:+ number +:+ "." +:+ t)) image_extensions
  = true →
  new_file_name (q +:+ "_fn" +:+ number +:+ "." +:+ t)
  = inr (Some (q +:+ "_fn" +:+ format_06 (int_digits 0 number) +:+ "." +:+ t))
  ∧ int_digits 0 (format_06 (int_digits 0 number)) = int_digits 0 number.
Proof.
  intros Hq Hnum Hne Ht Hte Hu Hext. split.
  - by apply new_file_name_intro.
  - pose proof (int_format_06 (int_digits 0 number)) as Hi.
    unfold int in Hi. destruct (_ && _); [|done]. by injection Hi.
Qed.

Lemma X5_renamed_at_last_fn_witness :
  new_file_name "a_fn1.b_fn23.png" = inr (Some "a_fn1.b_fn000023.png").
Proof.
  apply (X5_renamed_at_last_fn "a_fn1.b" "23" "png"); vm_compute; done.
Defined.

(** X6.  Renaming moves no picture to another group.  For a name of one
    line without slash that the renamer renames, the new name has the same
    first [_]-segment, so [group_images_by_developer] files the renamed file
    of a folder under the key of the old one, or passes both over. *)
Theorem X6_rename_keeps_group (folder_path file_name new : string) :
  Str.all Re.dot file_name = true →
  Str.all no_slash file_name = true →
  new_file_name file_name = inr (Some new) →
  dev_indicator (join folder_path new) = dev_indicator (join folder_path file_name)
  ∧ is_dev (join folder_path new) = is_dev (join folder_path file_name).
Proof.
  intros Hline Hslash Hnew.
  pose proof (new_file_name_no_slash _ _ Hslash Hnew) as Hslash'.
  assert (dev_indicator new = dev_indicator file_name) as Hkey.
  { apply new_file_name_single_line in Hnew as (q & number & t & -> & -> & _);
      [|done].
    unfold dev_indicator. rewrite !basename_id by done.
    apply (split_hd_app "_" q). }
  unfold is_dev. by rewrite !dev_indicator_join, Hkey.
Qed.

Lemma X6_rename_keeps_group_witness :
  dev_indicator (join "pictures" "Dev2_cam_fn000007.png")
  = dev_indicator (join "pictures" "Dev2_cam_fn7.png")
  ∧ is_dev (join "pictures" "Dev2_cam_fn000007.png")
    = is_dev (join "pictures" "Dev2_cam_fn7.png").
Proof.
  apply (X6_rename_keeps_group "pictures" "Dev2_cam_fn7.png" "Dev2_cam_fn000007.png");
    vm_compute; reflexivity.
Defined.

(** X7.  Renaming keeps the extension.  For a name of one line that the
    renamer renames, the new name ends with the same dot and rest, so it is
    accepted by the video maker exactly when the old name is, and the renamer
    accepts it again. *)
Theorem X7_rename_keeps_extension (file_name new : string) :
  Str.all Re.dot file_name = true →
  new_file_name file_name = inr (Some new) →
  Str.endswith_any (Str.lower new) valid_extensions
  = Str.endswith_any (Str.lower file_name) valid_extensions
  ∧ Str.endswith_any (Str.lower new) image_extensions = true.
Proof.
  intros Hline Hnew.
  pose proof (new_file_name_inv _ _ Hnew) as (_ & _ & _ & Hext & _).
  apply new_file_name_single_line in Hnew as (q & number & t & -> & -> & _);
    [|done].
  assert (∀ a b c d, a +:+ b +:+ c +:+ "." +:+ d = (a +:+ b +:+ c) +:+ "." +:+ d)
    as Hre by (intros; by rewrite !sapp_assoc).
  rewrite (Hre q "_fn" number t) in Hext |- *.
  rewrite (Hre q "_fn" (format_06 (int_digits 0 number)) t). split.
  - apply extension_moves_any, valid_extensions_image.
  - etrans; [|exact Hext]. by apply extension_moves_any.
Qed.

Lemma X7_rename_keeps_extension_witness :
  Str.endswith_any (Str.lower "clip_fn000003.GIF") valid_extensions
  = Str.endswith_any (Str.lower "clip_fn3.GIF") valid_extensions
  ∧ Str.endswith_any (Str.lower "clip_fn000003.GIF") image_extensions = true.
Proof.
  apply (X7_rename_keeps_extension "clip_fn3.GIF" "clip_fn000003.GIF");
    vm_compute; reflexivity.
Defined.

(** X8.  Names that differ only in zeros before the digits are renamed to
    one and the same name: under the conditions of X5 the name with [k] more
    zeros in front of the digits gets the new name of the name without them.
    (With [k > 0] these are two different names of a folder; [os.rename]
    puts the second over the first.) *)
Theorem X8_leading_zeros_collide (q number t : string) (k : nat) :
  Str.all Re.dot q = true →
  Str.all Re.digit number = true → number ≠ "" →
  Str.all Re.dot t = true → t ≠ "" →
  Str.all (λ c, negb (Ascii.eqb c "_")) t = true →
  Str.endswith_any (Str.lower (q +:+ "_fn" +:+ number +:+ "." +:+ t)) image_extensions
  = true →
  new_file_name (q +:+ "_fn" +:+ (Str.zeros k +:+ number) +:+ "." +:+ t)
  = new_file_name (q +:+ "_fn" +:+ number +:+ "." +:+ t)
  ∧ ((0 < k)%nat →
     q +:+ "_fn" +:+ (Str.zeros k +:+ number) +:+ "." +:+ t
     ≠ q +:+ "_fn" +:+ number +:+ "." +:+ t).
Proof.
  intros Hq Hnum Hne Ht Hte Hu Hext. split.
  - rewrite (new_file_name_intro q number t) by done.
    rewrite (new_file_name_intro q (Str.zeros k +:+ number) t); try done.
    + by rewrite int_digits_zeros.
    + by rewrite sall_app, all_digit_zeros.
    + destruct k; [by rewrite sapp_nil_l|done].
    + assert (∀ a b c d, a +:+ b +:+ c +:+ "." +:+ d = (a +:+ b +:+ c) +:+ "." +:+ d)
        as Hre by (intros; by rewrite !sapp_assoc).
      rewrite (Hre q "_fn" number t) in Hext.
      rewrite (Hre q "_fn" (Str.zeros k +:+ number) t).
      etrans; [|exact Hext]. by apply extension_moves_any.
  - intros Hk Heq. apply (f_equal String.length) in Heq.
    rewrite !slength_app, length_zeros in Heq. lia.
Qed.

Lemma X8_leading_zeros_collide_witness :
  new_file_name "img_fn007.png" = new_file_name "img_fn7.png"
  ∧ "img_fn007.png" ≠ "img_fn7.png".
Proof.
  destruct (X8_leading_zeros_collide "img" "7" "png" 2) as [H1 H2];
    [vm_compute; done..|].
  split; [exact H1|]. apply H2. lia.
Defined.

(** X9.  The renamer only lists and renames.  In any environment, the
    environment keeping the list of the calls it answers, the calls of
    [rename_files_in_folder] are one listing of the folder and then renames
    only: it writes no file, makes no directory and runs no process.  When
    the listing fails it makes no other call; a rename is followed by another
    only when it has succeeded; and the function returns. *)
Theorem X9_renamer_only_renames {W} (respond : ∀ X, event X → W → X * W)
    (folder_path : string) (st : state (W * list performed)) :
  let r := run (recorded respond) (rename_files_in_folder folder_path) st in
  r.1 = inr ()
  ∧ (∃ answer renames,
       calls r.2 = calls st ++ Listdir folder_path answer :: renames
       ∧ (∀ e, answer = inl e → renames = [])
       ∧ Forall (λ c, ∃ src dst x, c = Rename src dst x) renames
       ∧ ∀ before c after, renames = before ++ c :: after → after ≠ [] →
           ∃ src dst, c = Rename src dst (inr ()))
  ∧ forget r.2 = (run respond (rename_files_in_folder folder_path) (forget st)).2.
Proof.
  intros r. unfold r. clear r.
  cut ((run (recorded respond) (rename_files_in_folder folder_path) st).1 = inr ()
       ∧ ∃ answer renames,
           calls (run (recorded respond) (rename_files_in_folder folder_path) st).2
           = calls st ++ Listdir folder_path answer :: renames
           ∧ (∀ e, answer = inl e → renames = [])
           ∧ Forall (λ c, ∃ src dst x, c = Rename src dst x) renames
           ∧ ∀ before c after, renames = before ++ c :: after → after ≠ [] →
               ∃ src dst, c = Rename src dst (inr ())).
  { intros [HA HB]. split_and!; [exact HA|exact HB|apply run_forget]. }
  rewrite run_rename_files_in_folder.
  rewrite recorded_eq. cbn [fst snd performed_of world console].
  destruct (respond _ (OsListdir folder_path) (world st).1) as [[e|file_names] w].
  - cbn [fst snd]. split; [done|]. exists (inl e), []. split_and!; try done.
    intros before c after Heq. by destruct before.
  - cbn [fst snd].
    destruct (loop_calls respond folder_path file_names
                (State (w, (world st).2 ++ [Listdir folder_path (inr file_names)])
                   (console st)))
      as (pairs & Hc & _ & _ & Hok & Hfail).
    cbn zeta in Hc, Hok, Hfail.
    destruct (run (recorded respond) (for_each file_names (loop_body folder_path)) _)
      as [[e|[]] st1]; cbn [fst snd world console] in *.
    + split; [done|]. eexists _, _. split_and!.
      * unfold calls in *. cbn [world snd] in *. rewrite Hc, <-app_assoc. done.
      * done.
      * apply Forall_fmap, Forall_forall. intros p _. cbn. eauto.
      * destruct (Hfail e eq_refl) as (done & n & b & -> & Hdone).
        intros before c after Heq Hafter.
        rewrite fmap_app in Heq. cbn [fmap list_fmap] in Heq.
        destruct (decide (length before < length done)%nat) as [Hlt|Hge].
        -- apply (f_equal (λ l, l !! length before)) in Heq.
           rewrite lookup_app_l in Heq by (by rewrite length_fmap).
           rewrite list_lookup_middle in Heq by done.
           rewrite list_lookup_fmap in Heq.
           destruct (done !! length before) as [p|] eqn:Hp; [|done].
           injection Heq as <-.
           apply (Forall_lookup_1 _ _ _ _ Hdone) in Hp. cbn in Hp.
           rewrite Hp. eauto.
        -- apply (f_equal length) in Heq.
           rewrite !length_app, length_fmap in Heq. cbn [length] in Heq.
           destruct after; [done|]. cbn [length] in Heq. lia.
    + split; [done|]. eexists _, _. split_and!.
      * unfold calls in *. cbn [world snd] in *. rewrite Hc, <-app_assoc. done.
      * done.
      * apply Forall_fmap, Forall_forall. intros p _. cbn. eauto.
      * intros before c after Heq _.
        assert (c ∈ (λ p : string * string * (exception + ()),
                       Rename (join folder_path p.1.1) (join folder_path p.1.2) p.2)
                    <$> pairs) as Hin.
        { rewrite Heq. apply elem_of_app. right. apply elem_of_cons. by left. }
        apply list_elem_of_fmap in Hin as (p & -> & Hp).
        apply (proj1 (Forall_forall _ _) (Hok eq_refl)) in Hp. cbn in Hp.
        rewrite Hp. eauto.
Qed.

(** X10.  The renamer stays in its folder.  When the listing names only
    names without slash (as a listing does), every rename the renamer asks
    for is from a listed name joined to the folder to its new name joined to
    the folder, both direct entries of the folder; the renames are made in
    the order of the listing, at most one for each listed name.  So no path
    outside the folder is ever named in a call, whether the entries are files
    or directories. *)
Theorem X10_renamer_stays_in_folder {W} (respond : ∀ X, event X → W → X * W)
    (folder_path : string) (st : state (W * list performed))
    (file_names : list string) (w : W) :
  respond _ (OsListdir folder_path) (world st).1 = (inr file_names, w) →
  Forall (λ n, Str.all no_slash n = true) file_names →
  ∃ pairs : list (string * string * (exception + unit)),
    calls (run (recorded respond) (rename_files_in_folder folder_path) st).2
    = calls st ++ Listdir folder_path (inr file_names)
        :: ((λ p, Rename (join folder_path p.1.1) (join folder_path p.1.2) p.2)
              <$> pairs)
    ∧ pairs.*1.*1 `sublist_of` file_names
    ∧ Forall (λ p, new_file_name p.1.1 = inr (Some p.1.2)
                   ∧ entry_of folder_path (join folder_path p.1.1) = Some p.1.1
                   ∧ entry_of folder_path (join folder_path p.1.2) = Some p.1.2)
        pairs.
Proof.
  intros Hl Hnames. rewrite run_rename_files_in_folder.
  rewrite recorded_eq, Hl. cbn [fst snd performed_of world console].
  destruct (loop_calls respond folder_path file_names
              (State (w, (world st).2 ++ [Listdir folder_path (inr file_names)])
                 (console st)))
    as (pairs & Hc & Hsub & Hnew & _ & _).
  cbn zeta in Hc. exists pairs. split_and!.
  - destruct (run (recorded respond) (for_each file_names (loop_body folder_path)) _)
      as [[e|[]] st1]; cbn [fst snd world console] in *;
      unfold calls in *; cbn [world snd] in *; by rewrite Hc, <-app_assoc.
  - done.
  - apply Forall_forall. intros p Hp.
    pose proof (proj1 (Forall_forall _ _) Hnew p Hp) as Hpn.
    assert (Str.all no_slash p.1.1 = true) as Hslash.
    { apply (proj1 (Forall_forall _ _) (Forall_sublist _ _ _ Hsub Hnames)).
      apply list_elem_of_fmap. exists p.1. split; [done|].
      apply list_elem_of_fmap. by exists p. }
    split_and!; [done|by apply entry_of_join|].
    apply entry_of_join. by apply (new_file_name_no_slash p.1.1).
Qed.

Lemma X10_renamer_stays_in_folder_witness :
  ∃ pairs : list (string * string * (exception + unit)),
    calls (run (recorded (fixed_answers ["a_fn1.png"; "notes.txt"; "sub_fn2.png"]
                            Ex.succeeding))
             (rename_files_in_folder "d") (Ex.start ((), []))).2
    = calls (Ex.start ((), []))
      ++ Listdir "d" (inr ["a_fn1.png"; "notes.txt"; "sub_fn2.png"])
        :: ((λ p, Rename (join "d" p.1.1) (join "d" p.1.2) p.2) <$> pairs)
    ∧ pairs.*1.*1 `sublist_of` ["a_fn1.png"; "notes.txt"; "sub_fn2.png"]
    ∧ Forall (λ p, new_file_name p.1.1 = inr (Some p.1.2)
                   ∧ entry_of "d" (join "d" p.1.1) = Some p.1.1
                   ∧ entry_of "d" (join "d" p.1.2) = Some p.1.2)
        pairs.
Proof.
  apply (X10_renamer_stays_in_folder
           (fixed_answers ["a_fn1.png"; "notes.txt"; "sub_fn2.png"] Ex.succeeding)
           "d" (Ex.start ((), [])) ["a_fn1.png"; "notes.txt"; "sub_fn2.png"] ()).
  - reflexivity.
  - repeat constructor.
Defined.

(** X11.  The groups come in the order in which their keys are first seen.
    [group_images_by_developer] returns exactly this dictionary: one entry
    for each key of a [Dev] picture, in the order of the first picture of
    each key, holding the pictures of that key cut by the cap; the keys and
    their order do not depend on the cap.  So the four groups that [main]
    takes, [list(grouped_images.values())[:4]], are those of the first four
    keys seen, in that order. *)
Theorem X11_groups_in_order_seen {W} (respond : ∀ X, event X → W → X * W)
    (images : list string) (limit : Z) (st : state W) :
  let keys := first_seen [] (dev_indicator <$> filter (λ p, is_dev p = true) images) in
  let d := (λ key, (key, slice_to (members key images) limit)) <$> keys in
  (run respond (group_images_by_developer images limit) st).1 = inr d
  ∧ slice_to (dict_values d) 4
    = (λ key, slice_to (members key images) limit) <$> take 4 keys.
Proof.
  intros keys d. split.
  - rewrite run_group_images_by_developer. cbn [fst].
    by rewrite grouped_by_keys.
  - unfold dict_values, d. rewrite <-list_fmap_compose.
    unfold slice_to at 1. cbn [Z.leb Z.compare Z.to_nat Pos.to_nat].
    by rewrite fmap_take.
Qed.

(** X12.  A cap that is not positive.  With the cap [0] every key is kept
    with an empty list; with a negative cap [-n] a group loses its last [n]
    pictures, and a group of at most [n] pictures is kept as a key with an
    empty list. *)
Theorem X12_cap_not_positive {W} (respond : ∀ X, event X → W → X * W)
    (images : list string) (limit : Z) (st : state W) (key : string) :
  (limit ≤ 0)%Z → members key images ≠ [] →
  ∃ d,
    (run respond (group_images_by_developer images limit) st).1 = inr d
    ∧ (limit = 0%Z → dict_get d key = Some [])
    ∧ ((limit < 0)%Z →
       dict_get d key
       = Some (take (length (members key images) - Z.to_nat (- limit))
                 (members key images)))
    ∧ ((limit ≤ - Z.of_nat (length (members key images)))%Z →
       dict_get d key = Some []).
Proof.
  intros Hl Hm. eexists. split.
  { by rewrite run_group_images_by_developer. }
  rewrite dict_get_grouped.
  destruct (members key images) as [|x l] eqn:Hx; [done|]. split_and!.
  - intros ->. done.
  - intros Hneg. unfold slice_to.
    destruct (0 <=? limit)%Z eqn:Hle; [apply Z.leb_le in Hle; lia|done].
  - intros Hbig. f_equal. unfold slice_to.
    destruct (0 <=? limit)%Z eqn:Hle.
    + apply Z.leb_le in Hle. cbn [length] in Hbig.
      assert (limit = 0%Z) as -> by lia. done.
    + replace (length (x :: l) - Z.to_nat (- limit))%nat with 0%nat by lia. done.
Qed.

Lemma X12_cap_not_positive_witness :
  ∃ d,
    (run (respond_machine Ex.plain) (group_images_by_developer Ex.pictures (-1))
       (Ex.start Ex.two_files)).1 = inr d
    ∧ dict_get d "Dev3" = Some ["pictures/Dev3_0001.png"; "pictures/Dev3_0002.png"]
    ∧ dict_get d "Devfoo.png" = Some [].
Proof.
  destruct (X12_cap_not_positive (respond_machine Ex.plain) Ex.pictures (-1)
              (Ex.start Ex.two_files) "Dev3") as (d & Hrun & _ & Hneg & _);
    [lia|vm_compute; done|].
  destruct (X12_cap_not_positive (respond_machine Ex.plain) Ex.pictures (-1)
              (Ex.start Ex.two_files) "Devfoo.png") as (d' & Hrun' & _ & _ & Hbig);
    [lia|vm_compute; done|].
  exists d. split; [exact Hrun|]. split.
  - rewrite Hneg by lia. vm_compute. reflexivity.
  - rewrite Hrun in Hrun'. injection Hrun' as <-. apply Hbig. vm_compute. discriminate.
Defined.

(** X13.  The groups are a partition of the [Dev] pictures.  When the cap is
    at least the number of images, the lists of the returned dictionary, one
    after the other, are a rearrangement of the images whose first segment
    starts with [Dev]: each such image (counted as often as it is given) is
    in one group, and nothing else is in any group.  ([main] passes the cap
    20000000.) *)
Theorem X13_groups_partition {W} (respond : ∀ X, event X → W → X * W)
    (images : list string) (limit : Z) (st : state W) :
  (Z.of_nat (length images) ≤ limit)%Z →
  ∃ d,
    (run respond (group_images_by_developer images limit) st).1 = inr d
    ∧ mjoin (dict_values d) ≡ₚ filter (λ p, is_dev p = true) images.
Proof.
  intros Hl. eexists. split.
  { by rewrite run_group_images_by_developer. }
  rewrite grouped_uncut by done. unfold dict_values.
  by rewrite mjoin_group_pure.
Qed.

Lemma X13_groups_partition_witness :
  ∃ d,
    (run (respond_machine Ex.plain) (group_images_by_developer Ex.pictures 20000000)
       (Ex.start Ex.two_files)).1 = inr d
    ∧ mjoin (dict_values d)
      ≡ₚ ["pictures/Dev3_0001.png"; "pictures/Dev3_0002.png"; "pictures/Devfoo.png";
          "pictures/Dev3_0003.png"].
Proof.
  apply (X13_groups_partition (respond_machine Ex.plain) Ex.pictures 20000000
           (Ex.start Ex.two_files)).
  vm_compute. discriminate.
Defined.

(** X14.  The three ways in which [create_video_from_group] raises.  It
    raises [e] exactly when the manifest could not be written (with [e]), or
    the encoder could not be started (with [e], any exception but
    [CalledProcessError]), or the encoder failed and its error stream is not
    well-formed UTF-8 ([e] is then the [UnicodeDecodeError]).  When the
    manifest cannot be written the encoder is not started and nothing is
    printed. *)
Theorem X14_clip_task_failures {W} (respond : ∀ X, event X → W → X * W)
    (group : list string) (group_index : N) (frame_rate : Z)
    (temp_dir ffmpeg_path : string) (st : state W) (e : exception) :
  let written := respond _ (OpenWrite (manifest_path temp_dir group_index)
                              (manifest_lines group)) (world st) in
  let encoded := respond _ (SubprocessRun (encoder_cmd group_index frame_rate
                                             temp_dir ffmpeg_path)) written.2 in
  let task := create_video_from_group group group_index frame_rate temp_dir
                ffmpeg_path in
  ((run respond task st).1 = inl e
   ↔ written.1 = inl e
     ∨ (written.1 = inr ()
        ∧ match encoded.1 with
          | inr _ => False
          | inl (CalledProcessError _ err _) =>
              utf8_valid (Byte.to_N <$> err) = false
              ∧ e = UnicodeDecodeError "'utf-8' codec can't decode bytes"
          | inl e' => e' = e
          end))
  ∧ (written.1 = inl e → (run respond task st).2 = State written.2 (console st)).
Proof.
  intros written encoded task. unfold task. rewrite run_create_video_from_group.
  fold written. destruct written as [[e1|[]] w1] eqn:Hw; cbn [fst snd].
  { split; [|done]. split; [intros [= ->]; by left|]. intros [[= ->]|[[=] _]]. done. }
  split; [|done]. subst encoded. cbn [snd].
  destruct (respond _ (SubprocessRun _) w1) as [[e2|cp] w2]; cbn [fst snd].
  - destruct e2 as [| | | | |rc err msg];
      try (split; [intros [= ->]; right; by split|intros [[=]|[_ ->]]; done]).
    unfold bytes_decode. destruct (utf8_valid _); cbn [fst].
    + split; [done|]. intros [[=]|[_ [[=] _]]].
    + split; [intros [= <-]; right; by split|]. by intros [[=]|[_ [_ ->]]].
  - destruct (respond _ (TimeStrftime _) w2) as [now w3]. cbn [fst].
    split; [done|]. intros [[=]|[_ []]].
Qed.

(** X15.  The answer to the grid command decides how
    [create_video_from_grouped_images] ends.  Among cooperative answers to
    every other call (folders made, files written, the encoder started and
    leaving well-formed text), under any schedule of the pool, the grid
    command is run on the clips in the order of the groups, and: when it
    exits with zero the function returns, if the error stream decodes, and
    raises [UnicodeDecodeError] if it does not, although the video was
    made; when it exits with another status the function returns as well,
    after its report, or raises [UnicodeDecodeError]; any other exception
    of the call leaves the function. *)
Theorem X15_grid_decides {W T} (respond : ∀ X, event X → W → X * W)
    (time_time : W → T * W) (seconds_2f : T → T → string)
    (schedule : list nat) (cancel : nat → bool) (groups : list (list string))
    (output_path : string) (frame_rate : Z) (temp_dir ffmpeg_path : string)
    (st : state W) (answer : exception + completed) :
  let clips := (λ i, clip_path temp_dir (N.of_nat i)) <$> seq 0 (length groups) in
  let cmd := grid_cmd ffmpeg_path clips output_path in
  (∀ X ev w, cooperative_but cmd X ev (respond X ev w).1) →
  (∀ w, (respond _ (SubprocessRun cmd) w).1 = answer) →
  (create_video_from_grouped_images respond time_time seconds_2f schedule cancel
     groups output_path frame_rate temp_dir ffmpeg_path st).1
  = match answer with
    | inr result =>
        if utf8_valid (Byte.to_N <$> stderr result) then inr ()
        else inl (UnicodeDecodeError "'utf-8' codec can't decode bytes")
    | inl (CalledProcessError _ err _) =>
        if utf8_valid (Byte.to_N <$> err) then inr ()
        else inl (UnicodeDecodeError "'utf-8' codec can't decode bytes")
    | inl e => inl e
    end.
Proof.
  intros clips cmd Hc Ha.
  destruct (grouped_images_outcome respond time_time seconds_2f schedule cancel
              groups output_path frame_rate temp_dir ffmpeg_path st Hc) as [w1 ->].
  fold clips. fold cmd. by rewrite Ha.
Qed.

Lemma X15_grid_decides_witness :
  (create_video_from_grouped_images
     (fixed_answers []
        (λ cmd, if decide (cmd = grid_cmd "ffmpeg" ["temp/group_0.mp4"] "out.mp4")
                then inr (Completed 0 [] [Byte.xff]) else Ex.succeeding cmd))
     (λ w, (0, w)) (λ _ _, "0.00") [0%nat; 0%nat] (λ _, true)
     [["Dev1_a.png"]] "out.mp4" 30 "temp" "ffmpeg" (Ex.start ())).1
  = inl (UnicodeDecodeError "'utf-8' codec can't decode bytes").
Proof.
  apply (X15_grid_decides
           (fixed_answers []
              (λ cmd, if decide (cmd = grid_cmd "ffmpeg" ["temp/group_0.mp4"] "out.mp4")
                      then inr (Completed 0 [] [Byte.xff]) else Ex.succeeding cmd))
           (λ w, (0, w)) (λ _ _, "0.00") [0%nat; 0%nat] (λ _, true)
           [["Dev1_a.png"]] "out.mp4" 30 "temp" "ffmpeg" (Ex.start ())
           (inr (Completed 0 [] [Byte.xff]))).
  - intros X ev w. destruct ev; cbn; eauto.
    destruct (decide _) as [->|]; [by left|by right].
  - intros w. cbn. by rewrite decide_True.
Defined.

(** X16.  [main] says that the video is saved whenever it reaches its end.
    Among cooperative answers, whatever the pictures, the schedule of the
    pool and the exit status of the encoder, also when every run of the
    encoder fails, [main] returns and the last line on the console is
    [Video saved to:] with the path [dev_grouped_video.mp4] beside the
    script. *)
Theorem X16_main_reports_video {W T} (respond : ∀ X, event X → W → X * W)
    (time_time : W → T * W) (seconds_2f : T → T → string)
    (schedule : list nat) (cancel : nat → bool)
    (script_abspath : string) (st : state W) :
  (∀ X ev w, cooperative X ev (respond X ev w).1) →
  ∃ st',
    main respond time_time seconds_2f schedule cancel script_abspath st = (inr (), st')
    ∧ last (console st')
      = Some (Text ("Video saved to: "
                    +:+ join (get_current_directory script_abspath)
                          "dev_grouped_video.mp4")).
Proof.
  intros Hc. unfold main.
  erewrite action_bind_inr; [|unfold perform; apply run_print_stamped].
  erewrite action_bind_inr; [|apply read_clock_eq].
  cbn [world console].
  match goal with
  | |- context [action_bind _ _ ?s] =>
      destruct (Hc _ (OsListdir (join (get_current_directory script_abspath)
                                   "pictures")) (world s)) as [file_names Hl]
  end.
  erewrite action_bind_inr; [|apply perform_get_images, Hl].
  erewrite action_bind_inr;
    [|unfold perform; apply run_group_images_by_developer].
  match goal with
  | |- context [action_bind (create_video_from_grouped_images _ _ _ _ _ ?groups
                               ?output ?rate ?temp ?ffmpeg) _ ?s] =>
      destruct (grouped_images_outcome respond time_time seconds_2f schedule cancel
                  groups output rate temp ffmpeg s
                  (cooperative_cooperative_but respond _ Hc)) as [w1 Hg];
      pose proof (Hc _ (SubprocessRun
                          (grid_cmd ffmpeg
                             ((λ i, clip_path temp (N.of_nat i))
                                <$> seq 0 (length groups)) output)) w1) as Hw1;
      destruct (create_video_from_grouped_images respond time_time seconds_2f
                  schedule cancel groups output rate temp ffmpeg s)
        as [r st5] eqn:Hrun
  end.
  cbn [fst] in Hg.
  assert (r = inr ()) as ->.
  { rewrite Hg. destruct (respond _ (SubprocessRun _) w1) as [[e|result] w2];
      cbn [fst] in Hw1 |- *.
    - destruct e as [| | | | |rc err msg]; try done. cbn [grid_outcome].
      cbn in Hw1. by rewrite Hw1.
    - cbn [grid_outcome]. cbn in Hw1. by rewrite Hw1. }
  erewrite action_bind_inr; [|exact Hrun].
  erewrite action_bind_inr; [|apply perform_strftime].
  erewrite action_bind_inr; [|apply read_clock_eq].
  erewrite action_bind_inr; [|unfold perform; apply run_print].
  unfold perform. rewrite run_print. eexists. split; [reflexivity|].
  cbn [console]. by rewrite last_snoc.
Qed.

Lemma X16_main_reports_video_witness :
  ∃ st',
    main (fixed_answers ["Dev1_a.png"; "Dev2_a.png"] (Ex.failing []))
      (λ w, (0, w)) (λ _ _, "0.00") [1%nat; 0%nat; 0%nat] (λ _, true)
      "/app/program.py" (Ex.start ())
    = (inr (), st')
    ∧ last (console st')
      = Some (Text "Video saved to: /app/dev_grouped_video.mp4").
Proof.
  apply (X16_main_reports_video
           (fixed_answers ["Dev1_a.png"; "Dev2_a.png"] (Ex.failing []))
           (λ w, (0, w)) (λ _ _, "0.00") [1%nat; 0%nat; 0%nat] (λ _, true)
           "/app/program.py" (Ex.start ())).
  intros X ev w. destruct ev; cbn; eauto.
Defined.

(** X17.  [main] without its folder of pictures.  When the listing of the
    folder [pictures] beside the script raises, the exception leaves [main]:
    there is no handler.  Only the line of the start has been printed, and
    nothing has been done after the listing: no folder made, no encoder
    run. *)
Theorem X17_main_without_pictures {W T} (respond : ∀ X, event X → W → X * W)
    (time_time : W → T * W) (seconds_2f : T → T → string)
    (schedule : list nat) (cancel : nat → bool)
    (script_abspath : string) (st : state W) (e : exception) (w : W) :
  let stamp := respond _ (TimeStrftime "%H:%M:%S") (world st) in
  let img_folder := join (get_current_directory script_abspath) "pictures" in
  respond _ (OsListdir img_folder) (time_time stamp.2).2 = (inl e, w) →
  main respond time_time seconds_2f schedule cancel script_abspath st
  = (inl e, State w (console st ++ [Text ("[" +:+ stamp.1 +:+ "] Starting process...")])).
Proof.
  intros stamp img_folder Hl. unfold main.
  erewrite action_bind_inr; [|unfold perform; apply run_print_stamped].
  erewrite action_bind_inr; [|apply read_clock_eq].
  cbn [world console].
  erewrite action_bind_inl; [reflexivity|].
  unfold perform. rewrite run_get_images_from_folder. cbn [world console].
  fold stamp. fold img_folder. by rewrite Hl.
Qed.

Lemma X17_main_without_pictures_witness :
  main (respond_machine Ex.plain) (λ w, (0, w)) (λ _ _, "0.00") [] (λ _, true)
    "/app/program.py" (Ex.start Ex.two_files)
  = (inl (FileNotFoundError "No such file or directory"),
     State Ex.two_files [Text "[12:00:00] Starting process..."]).
Proof.
  apply (X17_main_without_pictures (respond_machine Ex.plain) (λ w, (0, w))
           (λ _ _, "0.00") [] (λ _, true) "/app/program.py" (Ex.start Ex.two_files)).
  vm_compute. reflexivity.
Defined.

(** X18.  The folder of both scripts.  For a script file [n] in a directory
    [d] (not empty, not ending with a slash; [n] without slash), the
    directory of the script is [d], the renamer works on [d/pictures], and
    that is the folder whose listing [main] asks for; for a script in the
    root directory it is [/pictures]. *)
Theorem X18_script_folder (d n : string) :
  d ≠ "" → Str.endswith d "/" = false → Str.all no_slash n = true →
  get_current_directory (d +:+ "/" +:+ n) = d
  ∧ rename_script (d +:+ "/" +:+ n) = rename_files_in_folder (d +:+ "/pictures")
  ∧ join (get_current_directory (d +:+ "/" +:+ n)) "pictures" = d +:+ "/pictures"
  ∧ rename_script ("/" +:+ n) = rename_files_in_folder "/pictures".
Proof.
  intros Hd Hs Hn.
  assert (join d "pictures" = d +:+ "/pictures") as Hj.
  { unfold join. cbn [Str.startswith]. rewrite Hs.
    destruct (String.eqb d "") eqn:He; [by apply String.eqb_eq in He|done]. }
  unfold rename_script, get_current_directory.
  rewrite dirname_file, dirname_root by done. by rewrite Hj.
Qed.

Lemma X18_script_folder_witness :
  get_current_directory "/home/user/videomaker/rename.py" = "/home/user/videomaker"
  ∧ rename_script "/home/user/videomaker/rename.py"
    = rename_files_in_folder "/home/user/videomaker/pictures"
  ∧ join (get_current_directory "/home/user/videomaker/rename.py") "pictures"
    = "/home/user/videomaker/pictures"
  ∧ rename_script "/rename.py" = rename_files_in_folder "/pictures".
Proof.
  apply (X18_script_folder "/home/user/videomaker" "rename.py"); vm_compute; done.
Defined.

(** X19.  One pass settles a folder.  On a machine that refuses no rename
    and lists each entry of a folder once, [rename_files_in_folder] on a
    folder that is there meets no exception, also when two files are renamed
    to one name: it prints nothing but lines of renaming, and afterwards
    every entry of the folder has a name that the renamer leaves alone or
    renames to itself. *)
Theorem X19_one_pass_settles (m : machine) (folder_path : string)
    (w : disk) (c : list text) :
  denied m = ∅ → (∀ l, listing_order m l ≡ₚ l) → folder_path ∈ dirs w →
  ∃ w' extra,
    run (respond_machine m) (rename_files_in_folder folder_path) (State w c)
    = (inr (), State w' (c ++ extra))
    ∧ Forall (λ t, ∃ a b, t = Text ("Renamed: " +:+ a +:+ " -> " +:+ b)) extra
    ∧ ∀ k n, is_Some (files w' !! k) → entry_of folder_path k = Some n → settled n.
Proof.
  intros Hden Hperm Hp.
  rewrite run_rename_files_in_folder. cbn [respond_machine world console].
  rewrite decide_True by done.
  destruct (loop_console (respond_machine m) folder_path
              (listing_order m (entries folder_path w)) (State w c))
    as (extra & Hc & Hextra).
  destruct (first_pass m folder_path Hden (listing_order m (entries folder_path w)) w c)
    as (w1 & c1 & Hrun & _ & Hsettled).
  - rewrite Hperm. apply NoDup_entries.
  - intros n. rewrite Hperm.
    intros (k & Hk & [-> Hn]%entry_of_Some)%elem_of_entries. done.
  - intros k n Hk Hn. left. rewrite Hperm. apply elem_of_entries. eauto.
  - rewrite Hrun in Hc |- *. cbn [snd console] in Hc. subst c1.
    exists w1, extra. done.
Qed.

Lemma X19_one_pass_settles_witness :
  ∃ w' extra,
    run (respond_machine Ex.plain) (rename_files_in_folder "d")
      (State (Disk {["d"]} (<["d/a_fn01.png" := ["second"]]>
                              (<["d/a_fn1.png" := ["first"]]> ∅))) [])
    = (inr (), State w' ([] ++ extra))
    ∧ Forall (λ t, ∃ a b, t = Text ("Renamed: " +:+ a +:+ " -> " +:+ b)) extra
    ∧ ∀ k n, is_Some (files w' !! k) → entry_of "d" k = Some n → settled n.
Proof.
  apply (X19_one_pass_settles Ex.plain "d").
  - reflexivity.
  - intros l. reflexivity.
  - vm_compute. reflexivity.
Defined.
Example new_file_name_ex1 : new_file_name "proj_fn42.png" = inr (Some "proj_fn000042.png").
Proof. vm_compute. reflexivity. Qed.
Example new_file_name_ex2 : new_file_name "proj_fn000042.png" = inr (Some "proj_fn000042.png").
Proof. vm_compute. reflexivity. Qed.
Example new_file_name_ex3 : new_file_name "proj_other.png" = inr None.
Proof. vm_compute. reflexivity. Qed.
Example new_file_name_ex4 : new_file_name "x_fn0000042.PNG" = inr (Some "x_fn000042.PNG").
Proof. vm_compute. reflexivity. Qed.
Example new_file_name_ex5 : new_file_name "x_fn1234567.png" = inr (Some "x_fn1234567.png").
Proof. vm_compute. reflexivity. Qed.
Example new_file_name_ex6 : new_file_name "a_fn1.b_fn2.png" = inr (Some "a_fn1.b_fn000002.png").
Proof. vm_compute. reflexivity. Qed.
Example basename_ex : basename "/a/b/Dev1_x.png" = "Dev1_x.png" ∧ basename "a/" = "" ∧ basename "x" = "x".
Proof. vm_compute. auto. Qed.
Example split_ex : Str.split "_" "Dev1_a__b" = ["Dev1"; "a"; ""; "b"].
Proof. vm_compute. reflexivity. Qed.
Example new_file_name_ex7 : new_file_name "x_fn0000042.png" = inr (Some "x_fn000042.png").
Proof. vm_compute. reflexivity. Qed.
Example new_file_name_ex8 : new_file_name "x_fn1000000.png" = inr (Some "x_fn1000000.png").
Proof. vm_compute. reflexivity. Qed.
Example new_file_name_ex9 : new_file_name "x_fn00001234567.png" = inr (Some "x_fn1234567.png").
Proof. vm_compute. reflexivity. Qed.
Example new_file_name_ex10 : new_file_name "proj_fn42.txt" = inr None.
Proof. vm_compute. reflexivity. Qed.
Example lower_ex : Str.lower "Proj_FN7.PnG" = "proj_fn7.png".
Proof. vm_compute. reflexivity. Qed.
Example join_ex :
  join "temp" "group_0.txt" = "temp/group_0.txt" ∧ join "temp/" "x" = "temp/x"
  ∧ join "" "x" = "x" ∧ join "temp" "/x" = "/x".
Proof. vm_compute. auto. Qed.
Example search_ex : Re.search "take_fn12abc_fn034.v1.jpeg" = Some ("take_fn12abc_fn", "034", ".v1.jpeg").
Proof. vm_compute. reflexivity. Qed.
Example search_none_ex : Re.search "take_fn12abc.png" = None ∧ Re.search "take_fn12." = None.
Proof. vm_compute. auto. Qed.
Example slice_to_ex :
  slice_to [1; 2; 3; 4] 2 = [1; 2] ∧ slice_to [1; 2; 3; 4] 9 = [1; 2; 3; 4]
  ∧ slice_to [1; 2; 3; 4] (-1) = [1; 2; 3] ∧ slice_to [1; 2; 3; 4] (-7) = [].
Proof. vm_compute. auto. Qed.
Example utf8_valid_ex :
  utf8_valid [72; 195; 169] = true ∧ utf8_valid [255] = false
  ∧ utf8_valid [192; 128] = false ∧ utf8_valid [237; 160; 128] = false
  ∧ utf8_valid [240; 159; 142; 172] = true ∧ utf8_valid [244; 144; 128; 128] = false
  ∧ utf8_valid [226; 130] = false.
Proof. vm_compute. repeat split. Qed.
Example decode_ok_ex :
  (run (respond_machine (Machine id ∅ (Ex.failing [Byte.x6e; Byte.x6f]) "12:00:00"))
     (create_video_from_group ["a.png"] 0 30 "temp" "ffmpeg") (Ex.start Ex.two_files)).1
  = inr "temp/group_0.mp4".
Proof. vm_compute. reflexivity. Qed.
Example grouping_ex :
  (run (respond_machine Ex.plain) (group_images_by_developer Ex.pictures 2)
     (Ex.start Ex.two_files))
  = (inr [("Dev3", ["pictures/Dev3_0001.png"; "pictures/Dev3_0002.png"]);
          ("Devfoo.png", ["pictures/Devfoo.png"])],
     State Ex.two_files [Text "Skipping invalid file: developer1_0001.png"]).
Proof. vm_compute. reflexivity. Qed.
